(** * RealtimeAudioTranscribing: segmentation, dispatch and session state

    A shallow embedding of the three scripts of the extension:
    - [Offscreen]  : offscreen.js, the capture context (encoder control and
      the silence-detection loop);
    - [Background] : the service worker (provider chain, offline queue,
      session start and stop);
    - [Popup]      : the display script (start/stop and pause/resume
      handlers, elapsed-time bookkeeping).

    Each script runs on one event loop, so a handler is modelled as a
    function from the script's top-level variables to their new values
    together with the messages it sends. Where a handler awaits and
    another one can run in between, the turns are modelled as well:
    [OffscreenLoop] has the stop handler of the recorder with its
    conversion under way, [Background.dispatchAll] the concurrent
    dispatches of a drain, and [BackgroundEvents.arrivals] the offline
    arrivals that overlap. *)

From Stdlib Require Import ZArith QArith Lqa List String Bool Lia.
From stdpp Require Import base option list strings pretty gmap.
Import ListNotations.

Local Open Scope string_scope.
Local Open Scope list_scope.
Local Open Scope Z_scope.

(** ** offscreen.js *)
Module Offscreen.

(** const SILENCE_THRESHOLD = -50 (dB); const SPEECH_TIMEOUT = 1500 (ms);
    the period of the setInterval that samples the loudness is 200 ms. *)
Definition SILENCE_THRESHOLD : Q := (-50)%Q.
Definition SPEECH_TIMEOUT : Z := 1500.
Definition CHECK_PERIOD : Z := 200.

(** [db > SILENCE_THRESHOLD]. The measured level is a finite float (the
    source floors the RMS at 0.00001 before taking the logarithm), hence
    a rational. *)
Definition loud (db : Q) : bool :=
  match (SILENCE_THRESHOLD ?= db)%Q with Lt => true | _ => false end.

(** MediaRecorder.state *)
Inductive recorder_state := inactive | recording | paused.

Definition recorder_state_eqb (a b : recorder_state) : bool :=
  match a, b with
  | inactive, inactive | recording, recording | paused, paused => true
  | _, _ => false
  end.

(** A Blob is its bytes; [Blob parts] concatenates. *)
Definition blob := list Byte.byte.
Definition size (b : blob) : nat := length b.
Definition Blob (parts : list blob) : blob := concat parts.

(** The MediaRecorder: its state and the encoded data gathered since
    [start()]. No timeslice is passed to [start()], so the data is handed
    over in a single dataavailable event when the recorder stops. *)
Record MediaRecorder := mkRecorder {
  state : recorder_state;
  gathered : blob
}.

(** Messages sent to the service worker. *)
Inductive outgoing :=
| processAudioChunk (audioChunk : string)
| recordingError (error : string).

(** The top-level variables of the script. [speechTimeout] holds the
    milliseconds left before the pending timeout fires; [intervalOn] says
    whether [silenceCheckInterval] is running; [closed] is set by
    [window.close()]. *)
Record doc := mkDoc {
  mediaRecorder : option MediaRecorder;
  audioChunks : list blob;
  speechTimeout : option Z;
  intervalOn : bool;
  closed : bool
}.

Definition initial : doc :=
  {| mediaRecorder := None; audioChunks := []; speechTimeout := None;
     intervalOn := false; closed := false |}.

Definition set_recorder (r : option MediaRecorder) (d : doc) : doc :=
  {| mediaRecorder := r; audioChunks := audioChunks d;
     speechTimeout := speechTimeout d; intervalOn := intervalOn d;
     closed := closed d |}.
Definition set_audioChunks (cs : list blob) (d : doc) : doc :=
  {| mediaRecorder := mediaRecorder d; audioChunks := cs;
     speechTimeout := speechTimeout d; intervalOn := intervalOn d;
     closed := closed d |}.
Definition set_speechTimeout (t : option Z) (d : doc) : doc :=
  {| mediaRecorder := mediaRecorder d; audioChunks := audioChunks d;
     speechTimeout := t; intervalOn := intervalOn d; closed := closed d |}.
Definition set_intervalOn (b : bool) (d : doc) : doc :=
  {| mediaRecorder := mediaRecorder d; audioChunks := audioChunks d;
     speechTimeout := speechTimeout d; intervalOn := b; closed := closed d |}.
Definition set_closed (b : bool) (d : doc) : doc :=
  {| mediaRecorder := mediaRecorder d; audioChunks := audioChunks d;
     speechTimeout := speechTimeout d; intervalOn := intervalOn d;
     closed := b |}.

Section Handlers.

(** The re-encoding of the captured data to base64 WAV; its result is
    only forwarded, never inspected. *)
Variable convertBlobToBase64Wav : blob -> string.

(** mediaRecorder.ondataavailable *)
Definition ondataavailable (data : blob) (d : doc) : doc :=
  if (0 <? size data)%nat then set_audioChunks (audioChunks d ++ [data]) d
  else d.

(** mediaRecorder.onstop. The handler awaits the conversion before it
    sends the chunk and empties [audioChunks]; the conversion is taken to
    resolve, and the handler to run as one step. [OffscreenLoop] has the
    handler in its two parts, with the conversion settling when the event
    loop says so. *)
Definition onstop (d : doc) : doc * list outgoing :=
  match audioChunks d with
  | [] => (d, [])
  | _ :: _ =>
      let audioBlob := Blob (audioChunks d) in
      let audioBase64 := convertBlobToBase64Wav audioBlob in
      (set_audioChunks [] d, [processAudioChunk audioBase64])
  end.

(** mediaRecorder.start(), called only on an inactive recorder. *)
Definition recorder_start (d : doc) : doc :=
  set_recorder (Some {| state := recording; gathered := [] |}) d.

(** mediaRecorder.stop(): the recorder becomes inactive, hands the
    gathered data to [ondataavailable] and then runs [onstop]. *)
Definition recorder_stop (d : doc) : doc * list outgoing :=
  match mediaRecorder d with
  | None => (d, [])
  | Some r =>
      match state r with
      | inactive => (d, [])
      | _ =>
          let d1 := set_recorder (Some {| state := inactive; gathered := [] |}) d in
          onstop (ondataavailable (gathered r) d1)
      end
  end.

(** The encoder produced [bytes]; they are gathered only while the
    recorder is recording. *)
Definition encoded (bytes : blob) (d : doc) : doc :=
  match mediaRecorder d with
  | Some r =>
      match state r with
      | recording =>
          set_recorder (Some {| state := recording; gathered := gathered r ++ bytes |}) d
      | _ => d
      end
  | None => d
  end.

(** The callback of [setInterval] in [startSilenceDetection], run on a
    measured level [db]. *)
Definition interval_callback (db : Q) (d : doc) : doc :=
  match mediaRecorder d with
  | None => d
  | Some r =>
      match state r with
      | paused => d
      | st =>
          if loud db then
            let d1 := match st with inactive => recorder_start d | _ => d end in
            match speechTimeout d1 with
            | Some _ => set_speechTimeout None d1
            | None => d1
            end
          else
            match st, speechTimeout d with
            | recording, None => set_speechTimeout (Some SPEECH_TIMEOUT) d
            | _, _ => d
            end
      end
  end.

(** The callback of [setTimeout]: mediaRecorder.stop(); speechTimeout = null. *)
Definition timeout_callback (d : doc) : doc * list outgoing :=
  let '(d1, out) := recorder_stop d in
  (set_speechTimeout None d1, out).

(** getUserMedia either yields a stream or rejects with a named error. *)
Inductive getUserMedia_result :=
| stream_ok
| stream_error (name : string).

(** startRecording(source, streamId) *)
Definition startRecording (gum : getUserMedia_result) (d : doc) : doc * list outgoing :=
  let active :=
    match mediaRecorder d with
    | Some r => negb (recorder_state_eqb (state r) inactive)
    | None => false
    end in
  if active then (d, [])
  else
    match gum with
    | stream_ok =>
        (set_intervalOn true
           (set_recorder (Some {| state := inactive; gathered := [] |}) d), [])
    | stream_error name =>
        let errorMessage :=
          if String.eqb name "NotAllowedError"
          then "Microphone permission was denied. Please allow it in your browser settings and try again."
          else "An unknown error occurred while starting the recording." in
        (d, [recordingError errorMessage])
    end.

(** stopRecording(): the interval and the pending timeout are cancelled,
    an active recorder is stopped and the document closes. The stop
    handler is allowed to run before the document goes away. *)
Definition stopRecording (d : doc) : doc * list outgoing :=
  let d1 := set_intervalOn false d in
  let d2 := set_speechTimeout None d1 in
  let '(d3, out) := recorder_stop d2 in
  (set_closed true d3, out).

Inductive action :=
| startOffscreenRecording (gum : getUserMedia_result)
| stopOffscreenRecording
| pauseOffscreenRecording
| resumeOffscreenRecording
| otherAction.

(** handleMessages(message) *)
Definition handleMessages (a : action) (d : doc) : doc * list outgoing :=
  match a with
  | startOffscreenRecording gum => startRecording gum d
  | stopOffscreenRecording => stopRecording d
  | pauseOffscreenRecording =>
      match mediaRecorder d with
      | Some r =>
          match state r with
          | recording => (set_recorder (Some {| state := paused; gathered := gathered r |}) d, [])
          | _ => (d, [])
          end
      | None => (d, [])
      end
  | resumeOffscreenRecording =>
      match mediaRecorder d with
      | Some r =>
          match state r with
          | paused => (set_recorder (Some {| state := recording; gathered := gathered r |}) d, [])
          | _ => (d, [])
          end
      | None => (d, [])
      end
  | otherAction => (d, [])
  end.

(** What the event loop of the document can run. *)
Inductive event :=
| Message (a : action)
| Interval (db : Q)
| Encoded (bytes : blob)
| Elapse (ms : Z).

(** [ms] milliseconds pass: a pending timeout that is due fires. *)
Definition elapse (ms : Z) (d : doc) : doc * list outgoing :=
  match speechTimeout d with
  | Some remaining =>
      if remaining <=? ms then timeout_callback d
      else (set_speechTimeout (Some (remaining - ms)) d, [])
  | None => (d, [])
  end.

Definition step (d : doc) (e : event) : doc * list outgoing :=
  if closed d then (d, [])
  else
    match e with
    | Message a => handleMessages a d
    | Interval db => if intervalOn d then (interval_callback db d, []) else (d, [])
    | Encoded bytes => (encoded bytes d, [])
    | Elapse ms => elapse ms d
    end.

Fixpoint run (d : doc) (es : list event) : doc * list outgoing :=
  match es with
  | [] => (d, [])
  | e :: es' =>
      let '(d1, out1) := step d e in
      let '(d2, out2) := run d1 es' in
      (d2, out1 ++ out2)
  end.

(** One period of the silence-detection loop: the callback runs on the
    measured level, the encoder delivers the period's data, and the
    period elapses. *)
Definition period (p : Q * blob) : list event :=
  [Interval (fst p); Encoded (snd p); Elapse CHECK_PERIOD].

(** The document once [startRecording] has succeeded. *)
Definition started : doc :=
  fst (startRecording stream_ok initial).

(** The loop fed with a sequence of periods. *)
Definition feed (d : doc) (ps : list (Q * blob)) : doc * list outgoing :=
  run d (concat (map period ps)).

End Handlers.

End Offscreen.

(** ** offscreen.js on the event loop: conversions under way

    [mediaRecorder.onstop] awaits [convertBlobToBase64Wav] before it sends
    the chunk and empties [audioChunks]. While a conversion is under way
    the other handlers of the document run, with [audioChunks] as the
    stop left it. Here a conversion settles when the event loop says so,
    and may be rejected. *)
Module OffscreenLoop.
Import Offscreen.

(** The promise that [onstop] awaits. *)
Inductive promise := Pending | Fulfilled | Rejected.

(** A conversion: the parts of the Blob that is converted and the state
    of its promise. *)
Record conversion := mkConversion {
  parts : list blob;
  settled : promise
}.

(** The top-level variables of the script and the conversions started so
    far, oldest first. *)
Record page := mkPage {
  variables : doc;
  conversions : list conversion
}.

Definition opened : page := {| variables := initial; conversions := [] |}.

Definition with_variables (d : doc) (p : page) : page :=
  {| variables := d; conversions := conversions p |}.

Section Handlers.

Variable convertBlobToBase64Wav : blob -> string.

(** mediaRecorder.onstop up to its await: the Blob is built from
    [audioChunks] as they are, and its conversion starts. *)
Definition onstop_begin (p : page) : page :=
  match audioChunks (variables p) with
  | [] => p
  | _ :: _ =>
      {| variables := variables p;
         conversions := conversions p ++
           [{| parts := audioChunks (variables p); settled := Pending |}] |}
  end.

(** mediaRecorder.onstop resumed when conversion [k] settles. Fulfilled:
    the chunk is sent and [audioChunks = []] is run. Rejected: the
    handler ends at the await, and neither happens. *)
Definition onstop_resume (k : nat) (fulfilled : bool) (p : page)
  : page * list outgoing :=
  match conversions p !! k with
  | Some {| parts := ps; settled := Pending |} =>
      if fulfilled then
        ({| variables := set_audioChunks [] (variables p);
            conversions :=
              <[k := {| parts := ps; settled := Fulfilled |}]> (conversions p) |},
         [processAudioChunk (convertBlobToBase64Wav (Blob ps))])
      else
        ({| variables := variables p;
            conversions :=
              <[k := {| parts := ps; settled := Rejected |}]> (conversions p) |},
         [])
  | _ => (p, [])
  end.

(** mediaRecorder.stop(): the recorder becomes inactive, hands the
    gathered data to [ondataavailable] and then runs [onstop] up to its
    await. *)
Definition recorder_stop (p : page) : page :=
  match mediaRecorder (variables p) with
  | None => p
  | Some r =>
      match state r with
      | inactive => p
      | _ =>
          let d1 := set_recorder (Some {| state := inactive; gathered := [] |})
                      (variables p) in
          onstop_begin (with_variables (ondataavailable (gathered r) d1) p)
      end
  end.

(** The callback of [setTimeout]: mediaRecorder.stop(); speechTimeout = null. *)
Definition timeout_callback (p : page) : page :=
  let p1 := recorder_stop p in
  with_variables (set_speechTimeout None (variables p1)) p1.

(** stopRecording() *)
Definition stopRecording (p : page) : page :=
  let d2 := set_speechTimeout None (set_intervalOn false (variables p)) in
  let p3 := recorder_stop (with_variables d2 p) in
  with_variables (set_closed true (variables p3)) p3.

(** handleMessages(message): only the stop message reaches the
    recorder's stop handler. *)
Definition handleMessages (a : action) (p : page) : page * list outgoing :=
  match a with
  | stopOffscreenRecording => (stopRecording p, [])
  | _ =>
      let r := Offscreen.handleMessages convertBlobToBase64Wav a (variables p) in
      (with_variables r.1 p, r.2)
  end.

(** [ms] milliseconds pass: a pending timeout that is due fires. *)
Definition elapse (ms : Z) (p : page) : page :=
  match speechTimeout (variables p) with
  | Some remaining =>
      if remaining <=? ms then timeout_callback p
      else with_variables (set_speechTimeout (Some (remaining - ms)) (variables p)) p
  | None => p
  end.

(** What the event loop can run: an event of [Offscreen], or conversion
    number [k] settling. Whether a conversion that is under way when the
    document closes still settles is left open: [Settles] is run in a
    closed document too. *)
Inductive event :=
| Runs (e : Offscreen.event)
| Settles (k : nat) (fulfilled : bool).

Definition step (p : page) (e : event) : page * list outgoing :=
  match e with
  | Settles k fulfilled => onstop_resume k fulfilled p
  | Runs e =>
      if closed (variables p) then (p, [])
      else
        match e with
        | Message a => handleMessages a p
        | Interval db =>
            (if intervalOn (variables p)
             then with_variables (interval_callback db (variables p)) p
             else p, [])
        | Encoded bytes => (with_variables (encoded bytes (variables p)) p, [])
        | Elapse ms => (elapse ms p, [])
        end
  end.

Fixpoint run (p : page) (es : list event) : page * list outgoing :=
  match es with
  | [] => (p, [])
  | e :: es' =>
      let '(p1, out1) := step p e in
      let '(p2, out2) := run p1 es' in
      (p2, out1 ++ out2)
  end.

End Handlers.

End OffscreenLoop.

(** ** JavaScript values *)
Module JS.

Local Unset Elimination Schemes.

(** A parsed JSON value. An object keeps its members in lookup order. *)
Inductive json :=
| JNull
| JBool (b : bool)
| JNumber (q : Q)
| JString (s : string)
| JArray (items : list json)
| JObject (members : list (string * json)).

Local Set Elimination Schemes.

(** A JavaScript value that may be [undefined]. *)
Definition value := option json.
Definition undefined : value := None.

Fixpoint assoc (k : string) (members : list (string * json)) : value :=
  match members with
  | [] => None
  | (k', v) :: rest => if String.eqb k k' then Some v else assoc k rest
  end.

(** [v?.name] for the member names the scripts read; none of them is a
    property of an array, a string, a number or a boolean. *)
Definition member (name : string) (v : value) : value :=
  match v with
  | Some (JObject members) => assoc name members
  | _ => None
  end.

(** [v?.[0]] *)
Definition first (v : value) : value :=
  match v with
  | Some (JArray items) => head items
  | Some (JObject members) => assoc "0" members
  | Some (JString (String c _)) => Some (JString (String c EmptyString))
  | _ => None
  end.

(** Truthiness, as tested by [if (v)] and [v || w]. *)
Definition truthy (v : value) : bool :=
  match v with
  | None | Some JNull => false
  | Some (JBool b) => b
  | Some (JNumber q) => negb (Qnum q =? 0)
  | Some (JString s) => negb (String.eqb s "")
  | Some (JArray _) | Some (JObject _) => true
  end.

(** How an async call completes. *)
Inductive completion (A : Type) :=
| returns (v : A)
| throws (message : string).
Arguments returns {A} v.
Arguments throws {A} message.

End JS.

(** ** chrome.storage.local, shared by the service worker and the popup *)
Module Storage.
Import JS.

(** A transcript entry: { timestamp, text, source }. *)
Record entry := mkEntry {
  timestamp : string;
  text : json;
  source : string
}.

Inductive stored :=
| VString (s : string)
| VNumber (n : Z)
| VTranscript (entries : list entry)
| VChunks (chunks : list string).

(** chrome.storage.local.set(items): the given keys are overwritten, the
    others are kept. *)
Definition set (items : list (string * stored)) (st : gmap string stored)
  : gmap string stored :=
  foldl (fun m kv => <[kv.1 := kv.2]> m) st items.

(** chrome.storage.local.remove(key) *)
Definition remove (key : string) (st : gmap string stored) : gmap string stored :=
  delete key st.

End Storage.

(** ** The service worker *)
Module Background.
Import JS Storage.

Definition OFFLINE_QUEUE_KEY : string := "offlineAudioQueue".

(** Messages sent with chrome.runtime.sendMessage. *)
Inductive message :=
| startOffscreenRecording (streamId : option string) (source : string)
| stopOffscreenRecording
| pauseOffscreenRecording
| resumeOffscreenRecording
| recordingStopped
| error (text : string)
| updateTranscript (transcript : json) (source : string)
| statusUpdate (status : string).

(** What a handler does to the outside, in order. [Called] marks the
    invocation of a provider function. *)
Inductive effect :=
| Send (m : message)
| Called (service_name : string)
| Fetch (url : string) (audio : string)
| Sleep (ms : Z)
| CreateDocument
| StorageSet (items : list (string * stored))
| StorageRemove (key : string).

(** The top-level variables of the worker, the storage area it writes,
    and whether the extension context is still valid
    ([chrome.runtime.id]). *)
Record bg := mkBg {
  capturedTabId : option Z;
  apiKey : option string;
  audioSource : string;
  storage : gmap string stored;
  runtime_id : bool
}.

Definition set_capturedTabId (t : option Z) (s : bg) : bg :=
  {| capturedTabId := t; apiKey := apiKey s; audioSource := audioSource s;
     storage := storage s; runtime_id := runtime_id s |}.
Definition set_storage (st : gmap string stored) (s : bg) : bg :=
  {| capturedTabId := capturedTabId s; apiKey := apiKey s;
     audioSource := audioSource s; storage := st; runtime_id := runtime_id s |}.
Definition set_request (key : option string) (src : string) (s : bg) : bg :=
  {| capturedTabId := capturedTabId s; apiKey := key; audioSource := src;
     storage := storage s; runtime_id := runtime_id s |}.

(** Handlers thread the worker's variables and log their effects. *)
Definition M (A : Type) : Type := bg -> A * bg * list effect.

Definition ret {A} (a : A) : M A := fun s => (a, s, []).
Definition bind {A B} (m : M A) (f : A -> M B) : M B :=
  fun s =>
    let r1 := m s in
    let r2 := f r1.1.1 r1.1.2 in
    (r2.1.1, r2.1.2, r1.2 ++ r2.2).
Definition gets {A} (f : bg -> A) : M A := fun s => (f s, s, []).
Definition modify (f : bg -> bg) : M unit := fun s => (tt, f s, []).
Definition tell (es : list effect) : M unit := fun s => (tt, s, es).
Definition when (b : bool) (m : M unit) : M unit := if b then m else ret tt.

Notation "x <- m ;; k" := (bind m (fun x => k))
  (at level 100, m at next level, k at level 200, right associativity).
Notation "m ;;; k" := (bind m (fun _ => k))
  (at level 100, k at level 200, right associativity).

Definition sendMessage (m : message) : M unit := tell [Send m].

Definition storage_set (items : list (string * stored)) : M unit :=
  tell [StorageSet items] ;;;
  modify (fun s => set_storage (Storage.set items (storage s)) s).

Definition storage_remove (key : string) : M unit :=
  tell [StorageRemove key] ;;;
  modify (fun s => set_storage (Storage.remove key (storage s)) s).

(** function updateStatus(status) *)
Definition updateStatus (status : string) : M unit :=
  id <- gets runtime_id ;;
  when id (sendMessage (statusUpdate status)).

(** function stopRecording() *)
Definition stopRecording : M unit :=
  id <- gets runtime_id ;;
  when id (
    sendMessage stopOffscreenRecording ;;;
    storage_set [("recordingState", VString "idle")] ;;;
    sendMessage recordingStopped ;;;
    modify (set_capturedTabId None)).

(** function handleError(error) *)
Definition handleError (error_message : string) : M unit :=
  id <- gets runtime_id ;;
  when id (sendMessage (error error_message) ;;; stopRecording).

(** *** Session start *)

(** What the browser answers during one [startRecording]. *)
Record chrome := mkChrome {
  hasOffscreenDocument : bool;
  createDocument : completion unit;
  activeTab : option Z;
  getMediaStreamId : completion string;
  now : Z
}.

(** async function setupOffscreenDocument() *)
Definition setupOffscreenDocument (c : chrome) : M (completion unit) :=
  if negb (hasOffscreenDocument c) then
    tell [CreateDocument] ;;;
    ret (createDocument c)
  else ret (returns tt).

(** The part of the [try] block of [startRecording] that obtains
    [streamId]. *)
Definition acquire (c : chrome) : M (completion (option string)) :=
  src <- gets audioSource ;;
  if String.eqb src "tab" then
    match activeTab c with
    | None => ret (throws "Could not find active tab.")
    | Some tab =>
        modify (set_capturedTabId (Some tab)) ;;;
        match getMediaStreamId c with
        | returns streamId => ret (returns (Some streamId))
        | throws m => ret (throws m)
        end
    end
  else ret (returns None).

(** async function startRecording() *)
Definition startRecording (c : chrome) : M (completion unit) :=
  r <- setupOffscreenDocument c ;;
  match r with
  | throws m => handleError m ;;; ret (throws m)
  | returns _ =>
      a <- acquire c ;;
      match a with
      | throws m => handleError m ;;; ret (throws m)
      | returns streamId =>
          src <- gets audioSource ;;
          sendMessage (startOffscreenRecording streamId src) ;;;
          storage_set [("recordingState", VString "recording");
                       ("startTime", VNumber (now c));
                       ("transcript", VTranscript [])] ;;;
          ret (returns tt)
      end
  end.

(** *** Providers *)

(** What [response.json()] gives: the parsed body, or a rejection. *)
Inductive body :=
| body_json (j : json)
| body_invalid (message : string).

(** What [fetch] gives: a rejection (network failure) or a response. *)
Inductive fetch_result :=
| fetch_failed (message : string)
| fetch_response (status : Z) (b : body).

(** response.ok *)
Definition ok (status : Z) : bool := (200 <=? status) && (status <=? 299).

Definition GEMINI_URL : string :=
  "https://generativelanguage.googleapis.com/v1beta/models/gemini-1.5-flash-latest:generateContent?key=".

(** `...?key=${key}` *)
Definition API_URL (key : option string) : string :=
  GEMINI_URL +:+ default "null" key.

Section Providers.

(** The string conversion [new Error(v)] applies to a value [v] that is
    not a string. *)
Variable ToString : json -> string.

(** new Error(v).message *)
Definition Error_message (v : value) : string :=
  match v with
  | Some (JString s) => s
  | Some j => ToString j
  | None => ""
  end.

(** The body of the [try] block of [callGeminiApi] for one response. *)
Definition attempt (r : fetch_result) : completion json :=
  match r with
  | fetch_failed m => throws m
  | fetch_response status b =>
      if ok status then
        match b with
        | body_json j => returns j
        | body_invalid m => throws m
        end
      else
        match b with
        | body_invalid m => throws m
        | body_json errorBody =>
            let m := member "message" (member "error" (Some errorBody)) in
            let errorMessage :=
              if truthy m then m
              else Some (JString ("HTTP Error " +:+ pretty status)) in
            throws (Error_message errorMessage)
        end
  end.

(** The loop [for (let i = 0; i < retries; i++)] of [callGeminiApi];
    [todo] is [retries - i]. [net i] is what the network answers to the
    request of iteration [i]. *)
Fixpoint attempts (net : nat -> fetch_result) (url audio : string)
    (retries : nat) (delay : Z) (todo i : nat)
  : completion value * list effect :=
  match todo with
  | O => (returns undefined, [])
  | S todo' =>
      match attempt (net i) with
      | returns j => (returns (Some j), [Fetch url audio])
      | throws m =>
          if (i =? retries - 1)%nat then (throws m, [Fetch url audio])
          else
            let r := attempts net url audio retries delay todo' (S i) in
            (r.1, Fetch url audio :: Sleep (delay * 2 ^ Z.of_nat i) :: r.2)
      end
  end.

(** async function callGeminiApi(audioBase64, key, retries = 3, delay = 1000) *)
Definition callGeminiApi (net : nat -> fetch_result) (audioBase64 : string)
    (key : option string) (retries : nat) (delay : Z)
  : completion value * list effect :=
  attempts net (API_URL key) audioBase64 retries delay retries 0.

(** The placeholder fallbacks. *)
Definition callWhisperApi (audioBase64 : string) (key : option string)
  : completion value * list effect :=
  (throws "Whisper API not implemented.", []).
Definition callDeepgramApi (audioBase64 : string) (key : option string)
  : completion value * list effect :=
  (throws "Deepgram API not implemented.", []).

(** A provider function: its [name] and what a call does. *)
Record service := mkService {
  name : string;
  invoke : string -> option string -> completion value * list effect
}.

(** result?.candidates?.[0]?.content?.parts?.[0]?.text *)
Definition transcript_of (result : value) : value :=
  member "text" (first (member "parts" (member "content"
    (first (member "candidates" result))))).

(** How a dispatch ends: the transcript was sent on, or the error path
    was taken with [finalError]. Either way the promise of
    [transcribeAudio] resolves. *)
Inductive dispatched :=
| Transcribed (transcript : json)
| Failed (finalError : string).

(** The loop [for (const service of services)] of [transcribeAudio] and
    what follows it. *)
Fixpoint transcribeLoop (services : list service) (audioBase64 : string)
    (errorMessages : list string) : M dispatched :=
  match services with
  | [] =>
      let finalError :=
        "Transcription failed. Details: " +:+ String.concat "; " errorMessages in
      handleError finalError ;;;
      ret (Failed finalError)
  | service :: rest =>
      key <- gets apiKey ;;
      tell [Called (name service)] ;;;
      let r := invoke service audioBase64 key in
      tell r.2 ;;;
      match r.1 with
      | returns result =>
          match transcript_of result with
          | Some transcript =>
              if truthy (Some transcript) then
                id <- gets runtime_id ;;
                src <- gets audioSource ;;
                when id (sendMessage (updateTranscript transcript src)) ;;;
                updateStatus "Recording" ;;;
                ret (Transcribed transcript)
              else
                transcribeLoop rest audioBase64
                  (errorMessages ++ [name service +:+ ": Received an empty or invalid response."])
          | None =>
              transcribeLoop rest audioBase64
                (errorMessages ++ [name service +:+ ": Received an empty or invalid response."])
          end
      | throws m =>
          transcribeLoop rest audioBase64
            (errorMessages ++ [name service +:+ ": " +:+ m])
      end
  end.

(** const services = [callGeminiApi, callWhisperApi, callDeepgramApi] *)
Definition services (net : nat -> fetch_result) : list service :=
  [ {| name := "callGeminiApi";
       invoke := fun audio key => callGeminiApi net audio key 3 1000 |};
    {| name := "callWhisperApi"; invoke := callWhisperApi |};
    {| name := "callDeepgramApi"; invoke := callDeepgramApi |} ].

(** async function transcribeAudio(audioBase64) *)
Definition transcribeAudio (net : nat -> fetch_result) (audioBase64 : string)
  : M dispatched :=
  transcribeLoop (services net) audioBase64 [].

(** *** Offline queue *)

(** const { [OFFLINE_QUEUE_KEY]: queue = [] } = await chrome.storage.local.get(...).
    Only [addToOfflineQueue] writes this key, and always a list of chunks. *)
Definition read_queue (st : gmap string stored) : list string :=
  match st !! OFFLINE_QUEUE_KEY with
  | Some (VChunks queue) => queue
  | _ => []
  end.

(** [addToOfflineQueue] up to its first await: the stored queue is read. *)
Definition queue_get : M (list string) :=
  gets (fun s => read_queue (storage s)).

(** [addToOfflineQueue] resumed with the queue it read:
    queue.push(audioBase64); chrome.storage.local.set({ ... }). *)
Definition queue_put (queue : list string) (audioBase64 : string) : M unit :=
  storage_set [(OFFLINE_QUEUE_KEY, VChunks (queue ++ [audioBase64]))].

(** async function addToOfflineQueue(audioBase64), when no other handler
    runs between the read and the write. Arrivals that overlap are
    [BackgroundEvents.arrivals]. *)
Definition addToOfflineQueue (audioBase64 : string) : M unit :=
  queue <- queue_get ;;
  queue_put queue audioBase64.

(** async function handleAudioChunk(audioBase64); [onLine] is
    navigator.onLine. *)
Definition handleAudioChunk (onLine : bool) (net : nat -> fetch_result)
    (audioBase64 : string) : M (option dispatched) :=
  if negb onLine then
    updateStatus "Offline. Buffering audio..." ;;;
    addToOfflineQueue audioBase64 ;;;
    ret None
  else
    updateStatus "Transcribing..." ;;;
    r <- transcribeAudio net audioBase64 ;;
    ret (Some r).

(** A dispatch hands control back to the event loop where it awaits the
    network, after each request, and where it awaits the timer, after
    each backoff is set; everywhere else it runs on. [turns log] cuts the
    effects of one dispatch at these awaits. *)
Fixpoint turns (log : list effect) : list (list effect) :=
  match log with
  | [] => []
  | e :: rest =>
      match e, turns rest with
      | Fetch _ _, ts | Sleep _, ts => [e] :: ts
      | _, [] => [[e]]
      | _, t :: ts => (e :: t) :: ts
      end
  end.

(** The event loop resuming the dispatches that wait. [sched] names, turn
    by turn, the dispatch whose answer or timer comes in next; a name
    that denotes no waiting dispatch is passed over, and when [sched]
    ends the dispatches that still wait are resumed in queue order. *)
Fixpoint interleave (sched : list nat) (waiting : list (list (list effect)))
  : list effect :=
  match sched with
  | [] => concat (concat waiting)
  | k :: sched' =>
      match waiting !! k with
      | Some (turn :: rest) => turn ++ interleave sched' (<[k := rest]> waiting)
      | _ => interleave sched' waiting
      end
  end.

(** A computation with its effects kept apart from the trace. *)
Definition apart {A} (m : M A) : M (A * list effect) :=
  fun s => let r := m s in ((r.1.1, r.2), r.1.2, []).

(** The dispatches of the chunks of [queue], each with its own effects;
    [nets k] is the network as the [k]-th dispatch meets it. *)
Fixpoint dispatchEach (nets : nat -> nat -> fetch_result) (k : nat)
    (queue : list string) : M (list (dispatched * list effect)) :=
  match queue with
  | [] => ret []
  | chunk :: rest =>
      r <- apart (transcribeAudio (nets k) chunk) ;;
      rs <- dispatchEach nets (S k) rest ;;
      ret (r :: rs)
  end.

(** queue.map(chunk => transcribeAudio(chunk)) followed by
    await Promise.all(promises). [map] calls [transcribeAudio] on every
    chunk in turn, and each call runs up to its first await before the
    next call is made; from there on the dispatches are resumed as their
    answers and timers come in, which is [sched]. None of the promises
    can reject. A dispatch reads [apiKey], [audioSource] and
    [chrome.runtime.id], which no dispatch writes, and every dispatch
    that fails writes the same, so the variables are threaded in queue
    order. *)
Definition dispatchAll (sched : list nat) (nets : nat -> nat -> fetch_result)
    (queue : list string) : M (list dispatched) :=
  rs <- dispatchEach nets 0 queue ;;
  let dispatches := map (fun r => turns r.2) rs in
  tell (concat (map (hd []) dispatches) ++ interleave sched (map (tl (A:=_)) dispatches)) ;;;
  ret (map fst rs).

(** async function processOfflineQueue() *)
Definition processOfflineQueue (sched : list nat) (nets : nat -> nat -> fetch_result)
  : M (list dispatched) :=
  queue <- gets (fun s => read_queue (storage s)) ;;
  if (length queue =? 0)%nat then ret []
  else
    updateStatus ("Syncing " +:+ pretty (length queue) +:+ " offline chunk(s)...") ;;;
    rs <- dispatchAll sched nets queue ;;
    storage_remove OFFLINE_QUEUE_KEY ;;;
    updateStatus "Recording" ;;;
    ret rs.

(** *** Message listener *)

Inductive request :=
| startRecordingRequest (key source : string)
| stopRecordingRequest
| pauseRecording
| resumeRecording
| processAudioChunk (audioChunk : string)
| recordingError (text : string).

(** The argument of [sendResponse]. *)
Record response := mkResponse {
  success : bool;
  error_text : option string
}.

(** chrome.runtime.onMessage listener *)
Definition onMessage (c : chrome) (onLine : bool) (net : nat -> fetch_result)
    (m : request) : M (option response) :=
  match m with
  | startRecordingRequest key source =>
      modify (set_request (Some key) source) ;;;
      r <- startRecording c ;;
      match r with
      | returns _ => ret (Some {| success := true; error_text := None |})
      | throws e => ret (Some {| success := false; error_text := Some e |})
      end
  | stopRecordingRequest =>
      stopRecording ;;;
      ret (Some {| success := true; error_text := None |})
  | pauseRecording => sendMessage pauseOffscreenRecording ;;; ret None
  | resumeRecording => sendMessage resumeOffscreenRecording ;;; ret None
  | processAudioChunk audioChunk =>
      handleAudioChunk onLine net audioChunk ;;; ret None
  | recordingError text => handleError text ;;; ret None
  end.

End Providers.

End Background.

(** ** The popup *)
Module Popup.
Import JS Storage.

(** let recordingState = 'idle'; // idle, recording, paused *)
Inductive session := idle | recording | paused.

(** The top-level variables of the script, the two inputs it reads, the
    error it shows and whether [timerInterval] is running. *)
Record popup := mkPopup {
  recordingState : session;
  timerOn : bool;
  secondsElapsed : Z;
  fullTranscript : list entry;
  apiKeyInput : string;
  audioSourceSelect : string;
  errorMessage : option string
}.

Definition set_session (s : session) (timer : bool) (p : popup) : popup :=
  {| recordingState := s; timerOn := timer;
     secondsElapsed := secondsElapsed p; fullTranscript := fullTranscript p;
     apiKeyInput := apiKeyInput p; audioSourceSelect := audioSourceSelect p;
     errorMessage := errorMessage p |}.

(** function displayError(message) *)
Definition displayError (m : option string) (p : popup) : popup :=
  {| recordingState := recordingState p; timerOn := timerOn p;
     secondsElapsed := secondsElapsed p; fullTranscript := fullTranscript p;
     apiKeyInput := apiKeyInput p; audioSourceSelect := audioSourceSelect p;
     errorMessage := m |}.

(** The callback of the timer: secondsElapsed++ *)
Definition tick (p : popup) : popup :=
  if timerOn p then
    {| recordingState := recordingState p; timerOn := true;
       secondsElapsed := secondsElapsed p + 1;
       fullTranscript := fullTranscript p;
       apiKeyInput := apiKeyInput p; audioSourceSelect := audioSourceSelect p;
       errorMessage := errorMessage p |}
  else p.

(** The outcome of a handler: the variables, the storage area and the
    requests sent to the service worker. *)
Record outcome := mkOutcome {
  vars : popup;
  area : gmap string stored;
  sent : list Background.request
}.

(** function handlePauseResume(); [now] is Date.now(). *)
Definition handlePauseResume (now : Z) (p : popup) (st : gmap string stored)
  : outcome :=
  match recordingState p with
  | recording =>
      {| vars := set_session paused false p;
         area := Storage.set [("recordingState", VString "paused");
                              ("secondsElapsed", VNumber (secondsElapsed p));
                              ("pausedTime", VNumber now)] st;
         sent := [Background.pauseRecording] |}
  | paused =>
      {| vars := set_session recording true p;
         area := Storage.set [("recordingState", VString "recording");
                              ("startTime", VNumber now)] st;
         sent := [Background.resumeRecording] |}
  | idle => {| vars := p; area := st; sent := [] |}
  end.

(** The branch of [handleStartStop] taken once the response to the
    start request is in. *)
Definition started (now : Z) (resp : option Background.response)
    (p : popup) (st : gmap string stored) : popup * gmap string stored :=
  match resp with
  | Some {| Background.success := true |} =>
      (displayError None
         {| recordingState := recording; timerOn := true;
            secondsElapsed := 0; fullTranscript := [];
            apiKeyInput := apiKeyInput p;
            audioSourceSelect := audioSourceSelect p;
            errorMessage := errorMessage p |},
       Storage.set [("transcript", VTranscript []);
                    ("startTime", VNumber now);
                    ("secondsElapsed", VNumber 0)] st)
  | Some {| Background.error_text := Some e |} =>
      (displayError (Some (if String.eqb e "" then "Failed to start recording." else e)) p, st)
  | _ => (displayError (Some "Failed to start recording.") p, st)
  end.

(** async function handleStartStop(). [granted] is the answer of the
    permission prompt; [worker] is the service worker handling the start
    request: its response and what it leaves in the storage area. *)
Definition handleStartStop (now : Z) (granted : bool)
    (worker : Background.request -> gmap string stored ->
              option Background.response * gmap string stored)
    (p : popup) (st : gmap string stored) : outcome :=
  match recordingState p with
  | idle =>
      if String.eqb (apiKeyInput p) "" then
        {| vars := displayError (Some "Please enter your Gemini API Key.") p;
           area := st; sent := [] |}
      else
        let source := audioSourceSelect p in
        if String.eqb source "mic" && negb granted then
          {| vars := displayError (Some "Microphone permission is required.") p;
             area := st; sent := [] |}
        else
          let req := Background.startRecordingRequest (apiKeyInput p) source in
          let w := worker req st in
          let r := started now w.1 p w.2 in
          {| vars := r.1; area := r.2; sent := [req] |}
  | _ =>
      {| vars := set_session idle false p;
         area := Storage.set [("recordingState", VString "idle");
                              ("secondsElapsed", VNumber (secondsElapsed p))] st;
         sent := [Background.stopRecordingRequest] |}
  end.

End Popup.

(** ** The service worker: the other listeners *)
Module BackgroundEvents.
Import JS Storage Background.

(** chrome.tabs.onRemoved.addListener((tabId) => { if (tabId === capturedTabId) stopRecording(); }) *)
Definition onRemoved (tabId : Z) : M unit :=
  captured <- gets capturedTabId ;;
  match captured with
  | Some tab => if tabId =? tab then stopRecording else ret tt
  | None => ret tt
  end.

(** self.addEventListener('offline', () => updateStatus("Offline. Buffering...")) *)
Definition onOffline : M unit := updateStatus "Offline. Buffering...".

(** self.addEventListener('online', processOfflineQueue) *)
Definition onOnline (ToString : json -> string) (sched : list nat)
    (nets : nat -> nat -> fetch_result) : M (list dispatched) :=
  processOfflineQueue ToString sched nets.

(** *** Offline arrivals on the event loop

    The listener does not await [handleAudioChunk], and
    [addToOfflineQueue] awaits the read of the queue before it writes the
    queue back: a later chunk can arrive, and read the queue, before an
    earlier one has written. *)
Inductive arrival :=
| Arrives (audioBase64 : string)
| Resumes (k : nat).

(** An arrival: the queue it read, the chunk it carries, and whether it
    still waits to write. *)
Record waiter := mkWaiter {
  seen : list string;
  carried : string;
  suspended : bool
}.

(** One turn of the event loop. [Arrives c]: [handleAudioChunk(c)], with
    [navigator.onLine] false, up to the await in [addToOfflineQueue].
    [Resumes k]: arrival number [k] continues after that await. *)
Definition arrive (a : arrival) (ws : list waiter) : M (list waiter) :=
  match a with
  | Arrives audioBase64 =>
      updateStatus "Offline. Buffering audio..." ;;;
      queue <- queue_get ;;
      ret (ws ++ [{| seen := queue; carried := audioBase64; suspended := true |}])
  | Resumes k =>
      match ws !! k with
      | Some {| seen := queue; carried := audioBase64; suspended := true |} =>
          queue_put queue audioBase64 ;;;
          ret (<[k := {| seen := queue; carried := audioBase64; suspended := false |}]> ws)
      | _ => ret ws
      end
  end.

Fixpoint arrivals (turns : list arrival) (ws : list waiter) : M (list waiter) :=
  match turns with
  | [] => ret ws
  | a :: rest => ws' <- arrive a ws ;; arrivals rest ws'
  end.

End BackgroundEvents.

(** ** offscreen.js: the WAV encoder *)
Module Wav.

(** The decoded audio: [buffer.sampleRate], [buffer.length] (the number of
    sample frames) and the data of the channels ([getChannelData(i)] for
    each [i] below [numberOfChannels]). Samples are finite floats, hence
    rationals. The output is a list of octets. *)
Record AudioBuffer := mkBuffer {
  sampleRate : Z;
  buffer_length : nat;
  channels : list (list Q)
}.

Definition numberOfChannels (buffer : AudioBuffer) : nat := length (channels buffer).

(** view.setUint16(pos, data, true) and view.setUint32(pos, data, true):
    the low octets of [data], least significant first. *)
Definition setUint16 (data : Z) : list Z :=
  [data mod 256; (data / 256) mod 256].
Definition setUint32 (data : Z) : list Z :=
  [data mod 256; (data / 256) mod 256; (data / 65536) mod 256; (data / 16777216) mod 256].

(** view.setInt16(pos, sample, true): two's complement, same octets. *)
Definition setInt16 (sample : Z) : list Z := setUint16 sample.

(** Math.min(a, x) and Math.max(a, x) on finite numbers. *)
Definition Math_min (a x : Q) : Q := if Qlt_le_dec x a then x else a.
Definition Math_max (a x : Q) : Q := if Qlt_le_dec a x then x else a.

(** [x | 0]: truncation toward zero, wrapped to 32 bits. *)
Definition to_int32 (x : Q) : Z :=
  (Z.quot (Qnum x) (Zpos (Qden x)) + 2147483648) mod 4294967296 - 2147483648.

(** The body of the inner loop for one sample:
    let sample = Math.max(-1, Math.min(1, channels[i][offset]));
    sample = (0.5 + sample < 0 ? sample * 32768 : sample * 32767) | 0; *)
Definition quantize (x : Q) : Z :=
  let sample := Math_max (-1) (Math_min 1 x) in
  to_int32 (if Qlt_le_dec (0.5 + sample) 0 then sample * 32768 else sample * 32767)%Q.

(** [channels[i][offset]]; reading past the end of a channel gives
    undefined, which ends up as the sample 0. *)
Definition sample_at (channel : list Q) (offset : nat) : Z :=
  match channel !! offset with
  | Some x => quantize x
  | None => 0
  end.

(** One turn of the [while] loop: the samples of every channel at
    [offset]. *)
Definition frame (buffer : AudioBuffer) (offset : nat) : list Z :=
  flat_map (fun channel => setInt16 (sample_at channel offset)) (channels buffer).

(** const length = buffer.length * numOfChan * 2 + 44 *)
Definition wav_length (buffer : AudioBuffer) : Z :=
  Z.of_nat (buffer_length buffer) * Z.of_nat (numberOfChannels buffer) * 2 + 44.

(** The thirteen header writes; [pos] is 40 when the last one is made. *)
Definition header (buffer : AudioBuffer) : list Z :=
  let numOfChan := Z.of_nat (numberOfChannels buffer) in
  let length := wav_length buffer in
  setUint32 0x46464952 ++ setUint32 (length - 8) ++ setUint32 0x45564157 ++
  setUint32 0x20746d66 ++ setUint32 16 ++ setUint16 1 ++ setUint16 numOfChan ++
  setUint32 (sampleRate buffer) ++ setUint32 (sampleRate buffer * 2 * numOfChan) ++
  setUint16 (numOfChan * 2) ++ setUint16 16 ++ setUint32 0x61746164 ++
  setUint32 (length - 40 - 4).

(** while (pos < length) { ...; offset++ }, with what has been written so
    far in [out]; [pos] is the length of [out]. *)
Fixpoint fill (fuel : nat) (buffer : AudioBuffer) (offset : nat) (out : list Z)
  : list Z :=
  match fuel with
  | O => out
  | S fuel' =>
      if Z.of_nat (length out) <? wav_length buffer
      then fill fuel' buffer (S offset) (out ++ frame buffer offset)
      else out
  end.

(** function bufferToWav(buffer): the octets of the view. Every turn of
    the loop but those of a buffer without channels moves [pos] forward,
    so [length] turns are enough. *)
Definition bufferToWav (buffer : AudioBuffer) : list Z :=
  fill (Z.to_nat (wav_length buffer)) buffer 0 (header buffer).

End Wav.

(** ** The popup: the remaining listeners and the time display *)
Module PopupView.
Import JS Storage Popup.

Definition set_transcript (es : list entry) (p : popup) : popup :=
  {| recordingState := recordingState p; timerOn := timerOn p;
     secondsElapsed := secondsElapsed p; fullTranscript := es;
     apiKeyInput := apiKeyInput p; audioSourceSelect := audioSourceSelect p;
     errorMessage := errorMessage p |}.

Definition set_inputs (key src : string) (p : popup) : popup :=
  {| recordingState := recordingState p; timerOn := timerOn p;
     secondsElapsed := secondsElapsed p; fullTranscript := fullTranscript p;
     apiKeyInput := key; audioSourceSelect := src;
     errorMessage := errorMessage p |}.

(** chrome.runtime.onMessage listener; [now_iso] is
    new Date().toISOString(). A status update only changes the status text
    of the page. *)
Definition onMessage (now_iso : string) (m : Background.message) (p : popup)
    (st : gmap string stored) : popup * gmap string stored :=
  match m with
  | Background.updateTranscript transcript src =>
      let newEntry := {| timestamp := now_iso; text := transcript; source := src |} in
      let p' := set_transcript (fullTranscript p ++ [newEntry]) p in
      (p', Storage.set [("transcript", VTranscript (fullTranscript p'))] st)
  | Background.recordingStopped => (set_session idle false p, st)
  | Background.error e =>
      (displayError (if String.eqb e "" then None else Some e) p, st)
  | _ => (p, st)
  end.

(** apiKeyInput 'change' and audioSourceSelect 'change' *)
Definition onApiKeyChange (v : string) (p : popup) (st : gmap string stored)
  : popup * gmap string stored :=
  (set_inputs v (audioSourceSelect p) p, Storage.set [("apiKey", VString v)] st).
Definition onAudioSourceChange (v : string) (p : popup) (st : gmap string stored)
  : popup * gmap string stored :=
  (set_inputs (apiKeyInput p) v p, Storage.set [("audioSource", VString v)] st).

(** [result.key || fallback] for a stored string. *)
Definition string_or (v : option stored) (fallback : string) : string :=
  match v with
  | Some (VString s) => if String.eqb s "" then fallback else s
  | _ => fallback
  end.

(** The callback of [chrome.storage.local.get] in the DOMContentLoaded
    listener, at time [now]. The only session states ever stored are
    idle, recording and paused. In the recording branch the counter is
    [result.secondsElapsed + elapsedSinceStart]; without a stored
    secondsElapsed that sum is not a number, and the result is [None]. *)
Definition DOMContentLoaded (now : Z) (st : gmap string stored) : option popup :=
  let state := string_or (st !! "recordingState") "idle" in
  let transcript :=
    match st !! "transcript" with Some (VTranscript es) => es | _ => [] end in
  let key := string_or (st !! "apiKey") "" in
  let src := string_or (st !! "audioSource") "tab" in
  let restored (s : session) (timer : bool) (seconds : Z) : popup :=
    {| recordingState := s; timerOn := timer; secondsElapsed := seconds;
       fullTranscript := transcript; apiKeyInput := key;
       audioSourceSelect := src; errorMessage := None |} in
  if String.eqb state "recording" then
    let elapsedSinceStart :=
      match st !! "startTime" with
      | Some (VNumber startTime) =>
          if startTime =? 0 then 0 else (now - startTime) / 1000
      | _ => 0
      end in
    match st !! "secondsElapsed" with
    | Some (VNumber seconds) => Some (restored recording true (seconds + elapsedSinceStart))
    | _ => None
    end
  else if String.eqb state "paused" then
    let seconds :=
      match st !! "secondsElapsed" with Some (VNumber n) => n | _ => 0 end in
    Some (restored paused false seconds)
  else Some (restored idle false 0).

(** s.padStart(2, '0') *)
Definition padStart2 (s : string) : string :=
  match String.length s with
  | O => "00" +:+ s
  | S O => "0" +:+ s
  | _ => s
  end.

(** function formatTime(seconds), on an integer counter. *)
Definition formatTime (seconds : Z) : string :=
  let h := padStart2 (pretty (seconds / 3600)) in
  let m := padStart2 (pretty (Z.rem seconds 3600 / 60)) in
  let s := padStart2 (pretty (Z.rem seconds 60)) in
  h +:+ ":" +:+ m +:+ ":" +:+ s.

(** What happens in the popup while it is open. *)
Inductive event :=
| ClickStartStop (now : Z) (granted : bool)
    (worker : Background.request -> gmap string stored ->
              option Background.response * gmap string stored)
| ClickPauseResume (now : Z)
| TimerTick
| Incoming (now_iso : string) (m : Background.message)
| ApiKeyChange (v : string)
| AudioSourceChange (v : string).

Definition step (ps : popup * gmap string stored) (e : event)
  : popup * gmap string stored :=
  match e with
  | ClickStartStop now granted worker =>
      let o := handleStartStop now granted worker ps.1 ps.2 in (vars o, area o)
  | ClickPauseResume now =>
      let o := handlePauseResume now ps.1 ps.2 in (vars o, area o)
  | TimerTick => (tick ps.1, ps.2)
  | Incoming now_iso m => onMessage now_iso m ps.1 ps.2
  | ApiKeyChange v => onApiKeyChange v ps.1 ps.2
  | AudioSourceChange v => onAudioSourceChange v ps.1 ps.2
  end.

Definition run (ps : popup * gmap string stored) (es : list event)
  : popup * gmap string stored :=
  foldl step ps es.

End PopupView.

(** * Statements *)


(** ** Statements about the capture context *)
Module SegmentationSpec.
Import Offscreen.

Definition silent (db : Q) : Prop := loud db = false.

Inductive phase :=
| Idle
| Speaking (k : nat).

Definition timer_of (ph : phase) : option Z :=
  match ph with
  | Idle | Speaking O => None
  | Speaking k => Some (SPEECH_TIMEOUT - CHECK_PERIOD * Z.of_nat k)
  end.

Definition doc_of (ph : phase) (g : blob) : doc :=
  {| mediaRecorder :=
       Some {| state := match ph with Idle => inactive | Speaking _ => recording end;
               gathered := g |};
     audioChunks := [];
     speechTimeout := timer_of ph;
     intervalOn := true;
     closed := false |}.

Definition hangs (sil : list Q) : Prop :=
  Forall silent sil /\ SPEECH_TIMEOUT <= CHECK_PERIOD * Z.of_nat (length sil).

Definition speech_then_silence (samples : list Q) : Prop :=
  exists pre l sil post,
    samples = pre ++ l :: sil ++ post /\ loud l = true /\ hangs sil.

Definition emits (out : list outgoing) : Prop := out <> [].

Definition pending (ph : phase) (samples : list Q) : Prop :=
  match ph with
  | Idle => False
  | Speaking k =>
      exists sil post,
        samples = sil ++ post /\ Forall silent sil /\
        SPEECH_TIMEOUT <= CHECK_PERIOD * Z.of_nat (k + length sil)
  end.

Definition wf (ph : phase) : Prop :=
  match ph with Idle => True | Speaking k => (k <= 7)%nat end.

Definition frames_nonempty (ps : list (Q * blob)) : Prop :=
  Forall (fun p : Q * blob => p.2 <> []) ps.

Definition speaking_with (g : blob) : doc := doc_of (Speaking 0) g.

Definition data_of (ps : list (Q * blob)) : blob := concat (map snd ps).

Definition chunks_nonempty (d : doc) : Prop :=
  Forall (fun b : blob => (0 < size b)%nat) (audioChunks d).

Definition carries_data (conv : blob -> string) (m : outgoing) : Prop :=
  match m with
  | processAudioChunk x =>
      exists parts, x = conv (Blob parts) /\ (0 < size (Blob parts))%nat
  | recordingError _ => True
  end.

Definition scenario : list (Q * blob) :=
  map (fun z : Z => (inject_Z z, [Byte.x01]))
    [-60; -60; -30; -30; -30; -60; -60; -60; -60; -60; -60; -60; -60].

(** A pause that arrives between two speech segments, followed by speech
    and the hangover. *)
Definition pause_between_segments : list event :=
  Message (startOffscreenRecording stream_ok) ::
  Message pauseOffscreenRecording ::
  concat (map period
    (map (fun z : Z => (inject_Z z, [Byte.x01]))
       [-30; -60; -60; -60; -60; -60; -60; -60; -60])).

(** Speech, one silent sample, then a pause. *)
Definition pause_trace : list event :=
  [ Message (startOffscreenRecording stream_ok);
    Interval (inject_Z (-30)); Encoded [Byte.x01]; Elapse CHECK_PERIOD;
    Interval (inject_Z (-60)); Encoded [Byte.x02]; Elapse CHECK_PERIOD;
    Message pauseOffscreenRecording ].

End SegmentationSpec.

Module DispatchSpec.
Import JS Storage Background.

(** The provider functions invoked, in order. *)
Definition calls (es : list effect) : list string :=
  omap (fun e => match e with Called n => Some n | _ => None end) es.

(** The audio payloads of the requests sent, in order. *)
Definition fetched (es : list effect) : list string :=
  omap (fun e => match e with Fetch _ a => Some a | _ => None end) es.

(** The backoff delays waited, in order. *)
Definition sleeps (es : list effect) : list Z :=
  omap (fun e => match e with Sleep ms => Some ms | _ => None end) es.

(** The keys removed from the storage area, in order. *)
Definition removed (es : list effect) : list string :=
  omap (fun e => match e with StorageRemove k => Some k | _ => None end) es.

(** [n] requests starting at attempt [i], with the backoff
    [delay * 2^attempt] between two requests. *)
Fixpoint schedule (url audio : string) (delay : Z) (i n : nat) : list effect :=
  match n with
  | O => []
  | S O => [Fetch url audio]
  | S n' => Fetch url audio :: Sleep (delay * 2 ^ Z.of_nat i)
              :: schedule url audio delay (S i) n'
  end.

(** The transcript a provider call yields, if it yields one. *)
Definition yields (sv : service) (audio : string) (key : option string)
  : option json :=
  match (invoke sv audio key).1 with
  | returns result =>
      if truthy (transcript_of result) then transcript_of result else None
  | throws _ => None
  end.

(** What a provider call that yields no transcript leaves as its error. *)
Definition last_error (sv : service) (audio : string) (key : option string)
  : string :=
  match (invoke sv audio key).1 with
  | returns _ => "Received an empty or invalid response."
  | throws m => m
  end.

Definition failure_line (audio : string) (key : option string) (sv : service)
  : string :=
  name sv +:+ ": " +:+ last_error sv audio key.

Definition aggregated (lines : list string) : string :=
  "Transcription failed. Details: " +:+ String.concat "; " lines.

(** The effects of invoking one provider. *)
Definition call_log (audio : string) (key : option string) (sv : service)
  : list effect :=
  Called (name sv) :: (invoke sv audio key).2.

(** What a successful dispatch sends on. *)
Definition delivery (s : bg) (t : json) : list effect :=
  (if runtime_id s then [Send (updateTranscript t (audioSource s))] else []) ++
  (if runtime_id s then [Send (statusUpdate "Recording")] else []).

(** The three providers of [services]. *)
Definition gemini (ToString : json -> string) (net : nat -> fetch_result)
  : service :=
  {| name := "callGeminiApi";
     invoke := fun audio key => callGeminiApi ToString net audio key 3 1000 |}.
Definition whisper : service :=
  {| name := "callWhisperApi"; invoke := callWhisperApi |}.
Definition deepgram : service :=
  {| name := "callDeepgramApi"; invoke := callDeepgramApi |}.

(** The attempts of one provider call: at most three requests, the
    backoff 1000 * 2^attempt after each failed one but the last. *)
Definition bounded_backoff (audio : string) (key : option string)
    (log : list effect) : Prop :=
  exists n : nat,
    (n <= 3)%nat /\
    log = schedule (API_URL key) audio 1000 0 n /\
    length (fetched log) = n /\
    sleeps log = map (fun k : nat => 1000 * 2 ^ Z.of_nat k) (seq 0 (n - 1)) /\
    (forall (k : nat) (d d' : Z),
        sleeps log !! k = Some d -> sleeps log !! S k = Some d' ->
        d' = 2 * d /\ d < d').

(** The log of a dispatch that fails with [e]: the effects of [handleError]. *)
Definition failure_report (s : bg) (e : string) : list effect :=
  if runtime_id s then
    [Send (error e); Send stopOffscreenRecording;
     StorageSet [("recordingState", VString "idle")]; Send recordingStopped]
  else [].

(** The worker after [handleError]. *)
Definition stopped (s : bg) : bg :=
  if runtime_id s then
    set_capturedTabId None
      (set_storage (<["recordingState" := VString "idle"]> (storage s)) s)
  else s.

(** The scenario of the specification: provider A answers with malformed
    JSON, provider B with a transcript. *)
Definition hello : json :=
  JObject [("candidates",
    JArray [JObject [("content",
      JObject [("parts", JArray [JObject [("text", JString "hello")]])])]])].
Definition provider_A : service :=
  {| name := "A";
     invoke := fun _ _ => (throws "Unexpected token < in JSON at position 0", []) |}.
Definition provider_B : service :=
  {| name := "B"; invoke := fun _ _ => (returns (Some hello), []) |}.

Definition chunk0 : string := "UklGRg==".

Definition worker0 : bg :=
  {| capturedTabId := Some 7; apiKey := Some "key"; audioSource := "tab";
     storage := ∅; runtime_id := true |}.

(** The string conversion is irrelevant where every error is a string. *)
Definition ToString0 (j : json) : string := "[object Object]".

Definition CHAIN : list string :=
  ["callGeminiApi"; "callWhisperApi"; "callDeepgramApi"].

(** A network on which every request fails. *)
Definition unreachable (i : nat) : fetch_result := fetch_failed "Failed to fetch".

(** What [updateStatus] sends. *)
Definition status (s : bg) (text : string) : list effect :=
  if runtime_id s then [Send (statusUpdate text)] else [].

(** [trace] is a merge of the lists [logs]: it takes the elements of
    each list in that list's order, and says nothing of the order
    between two lists. *)
Inductive interleaving {A : Type} : list (list A) -> list A -> Prop :=
| interleaving_nil logs :
    Forall (fun l => l = []) logs -> interleaving logs []
| interleaving_cons logs k x l trace :
    logs !! k = Some (x :: l) ->
    interleaving (<[k := l]> logs) trace ->
    interleaving logs (x :: trace).

(** The traces and the outcomes of the dispatches of a drain, each one
    taken on its own: dispatch [k] is that of the [k]-th queued chunk on
    the network [nets k]. *)
Definition drain_logs (ToString : json -> string) (nets : nat -> nat -> fetch_result)
    (s : bg) (queue : list string) : list (list effect) :=
  imap (fun k chunk => (transcribeAudio ToString (nets k) chunk s).2) queue.
Definition drain_outcomes (ToString : json -> string)
    (nets : nat -> nat -> fetch_result) (s : bg) (queue : list string)
  : list dispatched :=
  imap (fun k chunk => (transcribeAudio ToString (nets k) chunk s).1.1) queue.

Definition failed (o : dispatched) : bool :=
  match o with Failed _ => true | Transcribed _ => false end.

(** The worker once the stored queue has been removed. *)
Definition drained (s : bg) : bg :=
  set_storage (delete OFFLINE_QUEUE_KEY (storage s)) s.

(** What [updateStatus] sends when a drain of [n] chunks begins. *)
Definition syncing (s : bg) (n : nat) : list effect :=
  status s ("Syncing " +:+ pretty n +:+ " offline chunk(s)...").

(** A network that answers the first request with a transcript. *)
Definition answering (i : nat) : fetch_result :=
  fetch_response 200 (body_json hello).

Definition mixed (k : nat) : nat -> fetch_result :=
  match k with
  | O => answering
  | _ => unreachable
  end.

End DispatchSpec.

(** ** Statements about the session *)
Module SessionSpec.
Import JS Storage.

(** The persisted session is recording or paused. *)
Definition session_active (st : gmap string stored) : Prop :=
  st !! "recordingState" = Some (VString "recording") \/
  st !! "recordingState" = Some (VString "paused").

(** The browser lets a start for [source] go through: the offscreen
    document exists or can be created and, for tab capture, there is an
    active tab with a stream id. *)
Definition start_granted (c : Background.chrome) (source : string) : Prop :=
  (Background.hasOffscreenDocument c = true \/
   Background.createDocument c = returns tt) /\
  (source = "tab" ->
   exists tab streamId,
     Background.activeTab c = Some tab /\
     Background.getMediaStreamId c = returns streamId).

(** What the specification asks of a start request handled in [s]: the
    response reports failure and the persisted session state, start time
    and transcript are the ones of [s]. *)
Definition start_rejected (s : Background.bg)
    (r : option Background.response * Background.bg * list Background.effect)
  : Prop :=
  Background.success <$> r.1.1 = Some false /\
  Background.storage r.1.2 !! "recordingState" = Background.storage s !! "recordingState" /\
  Background.storage r.1.2 !! "startTime" = Background.storage s !! "startTime" /\
  Background.storage r.1.2 !! "transcript" = Background.storage s !! "transcript".

(** A browser that grants everything, at time [t]. *)
Definition chrome_at (t : Z) : Background.chrome :=
  {| Background.hasOffscreenDocument := true;
     Background.createDocument := returns tt;
     Background.activeTab := Some 7;
     Background.getMediaStreamId := returns "stream-1";
     Background.now := t |}.

Definition entry0 : entry :=
  {| timestamp := "2025-01-01T00:00:01.000Z"; text := JString "hello";
     source := "tab" |}.

(** A worker whose session has been recording since time 1000 and has one
    transcript entry. *)
Definition recording_session : Background.bg :=
  {| Background.capturedTabId := Some 7;
     Background.apiKey := Some "key";
     Background.audioSource := "tab";
     Background.storage :=
       <["recordingState" := VString "recording"]>
         (<["startTime" := VNumber 1000]>
            (<["transcript" := VTranscript [entry0]]> ∅));
     Background.runtime_id := true |}.

(** The service worker answering the popup, on a storage area [st]. *)
Definition worker (req : Background.request) (st : gmap string stored)
  : option Background.response * gmap string stored :=
  let r := Background.onMessage DispatchSpec.ToString0 (chrome_at 1000) true
             DispatchSpec.unreachable req
             {| Background.capturedTabId := None; Background.apiKey := None;
                Background.audioSource := "tab"; Background.storage := st;
                Background.runtime_id := true |} in
  (r.1.1, Background.storage r.1.2).

(** A popup that has just been opened, with a key entered. *)
Definition opened : Popup.popup :=
  {| Popup.recordingState := Popup.idle; Popup.timerOn := false;
     Popup.secondsElapsed := 0; Popup.fullTranscript := [];
     Popup.apiKeyInput := "key"; Popup.audioSourceSelect := "tab";
     Popup.errorMessage := None |}.

(** The session is started at time 1000 and the timer ticks five times. *)
Definition after_start : Popup.outcome :=
  Popup.handleStartStop 1000 true worker opened ∅.
Definition five_seconds_in : Popup.popup :=
  Nat.iter 5 Popup.tick (Popup.vars after_start).

(** Pause at [now], then resume at the same [now]. *)
Definition pause_then_resume (now : Z) (p : Popup.popup) (st : gmap string stored)
  : Popup.outcome :=
  let o1 := Popup.handlePauseResume now p st in
  Popup.handlePauseResume now (Popup.vars o1) (Popup.area o1).

(** A capture context whose recorder is recording. *)
Definition capturing : Offscreen.doc :=
  {| Offscreen.mediaRecorder :=
       Some {| Offscreen.state := Offscreen.recording; Offscreen.gathered := [] |};
     Offscreen.audioChunks := []; Offscreen.speechTimeout := None;
     Offscreen.intervalOn := true; Offscreen.closed := false |}.

End SessionSpec.

(** ** Further statements about the capture context *)
Module CaptureSpec.
Import Offscreen SegmentationSpec.

(** The number of silent samples that make up the hangover. *)
Definition HANGOVER_SAMPLES : nat :=
  Z.to_nat ((SPEECH_TIMEOUT + CHECK_PERIOD - 1) / CHECK_PERIOD).

(** After [k] silent samples, the samples ahead complete the hangover. *)
Definition hang_ahead (k : nat) (samples : list Q) : bool :=
  (HANGOVER_SAMPLES - k <=? length samples)%nat &&
  forallb (fun q => negb (loud q)) (take (HANGOVER_SAMPLES - k) samples).

(** The loud samples that are directly followed by a whole hangover. *)
Fixpoint segments (samples : list Q) : nat :=
  match samples with
  | [] => 0
  | x :: rest => (if loud x && hang_ahead 0 rest then 1 else 0) + segments rest
  end.

Definition ahead (ph : phase) (samples : list Q) : bool :=
  match ph with
  | Idle => false
  | Speaking k => hang_ahead k samples
  end.

(** A pending timeout belongs to a recorder that is recording or paused. *)
Definition timeout_guarded (d : doc) : Prop :=
  speechTimeout d <> None ->
  exists r, mediaRecorder d = Some r /\ state r <> inactive.

(** The parts held by the conversions started so far, oldest first. *)
Definition held (p : OffscreenLoop.page) : list (list blob) :=
  map OffscreenLoop.parts (OffscreenLoop.conversions p).

(** Parts that make a Blob with data: there is a part, and no part is
    empty. *)
Definition whole (ps : list blob) : Prop :=
  ps <> [] /\ Forall (fun b : blob => (0 < size b)%nat) ps.

(** [ps] is at most one new recording, alone or after all of [prev]. *)
Definition extends (prev ps : list blob) : Prop :=
  exists new : list blob, (length new <= 1)%nat /\ (ps = new \/ ps = prev ++ new).

(** Each conversion extends the one started before it. *)
Fixpoint chained (prev : list blob) (hs : list (list blob)) : Prop :=
  match hs with
  | [] => True
  | ps :: rest => extends prev ps /\ chained ps rest
  end.

(** A chunk that was sent is the conversion of the parts of a fulfilled
    conversion. *)
Definition sent_from (conv : blob -> string) (p : OffscreenLoop.page)
    (m : outgoing) : Prop :=
  match m with
  | processAudioChunk x =>
      exists c, c ∈ OffscreenLoop.conversions p /\
                OffscreenLoop.settled c = OffscreenLoop.Fulfilled /\
                x = conv (Blob (OffscreenLoop.parts c))
  | recordingError _ => True
  end.

(** What the next recording will be sent with: nothing, or the parts of
    the conversion started last. *)
Definition carried_over (p : OffscreenLoop.page) : Prop :=
  audioChunks (OffscreenLoop.variables p) = [] \/
  last (held p) = Some (audioChunks (OffscreenLoop.variables p)).

(** What holds of the data of every page that can be reached. *)
Definition data_inv (p : OffscreenLoop.page) : Prop :=
  Forall whole (held p) /\ chained [] (held p) /\
  Forall (fun b : blob => (0 < size b)%nat) (audioChunks (OffscreenLoop.variables p)) /\
  carried_over p.

(** Every fulfilled conversion of [p] is still one of [p']. *)
Definition keeps_fulfilled (p p' : OffscreenLoop.page) : Prop :=
  forall c, c ∈ OffscreenLoop.conversions p ->
            OffscreenLoop.settled c = OffscreenLoop.Fulfilled ->
            c ∈ OffscreenLoop.conversions p'.

(** The loop on its own: a sample, data from the encoder, time passing. *)
Definition quiet (e : OffscreenLoop.event) : Prop :=
  match e with
  | OffscreenLoop.Runs (Interval _)
  | OffscreenLoop.Runs (Encoded _)
  | OffscreenLoop.Runs (Elapse _) => True
  | _ => False
  end.

(** A recording stopped by the hangover: speech at level [l] with the
    data [b], then silence at level [q] until the timeout fires. *)
Definition recording_of (l q : Q) (b : blob) : list OffscreenLoop.event :=
  [OffscreenLoop.Runs (Interval l); OffscreenLoop.Runs (Encoded b);
   OffscreenLoop.Runs (Interval q); OffscreenLoop.Runs (Elapse SPEECH_TIMEOUT)].

(** Two recordings one after the other; the conversion of the first one
    settles before the second recording stops ([early]) or after it. *)
Definition two_recordings (l q : Q) (b1 b2 : blob) (early : bool)
  : list OffscreenLoop.event :=
  OffscreenLoop.Runs (Message (startOffscreenRecording stream_ok)) ::
  recording_of l q b1 ++
  (if early then [OffscreenLoop.Settles 0 true] else []) ++
  recording_of l q b2 ++
  (if early then [] else [OffscreenLoop.Settles 0 true]) ++
  [OffscreenLoop.Settles 1 true].

(** A page whose recorder is recording, with some data gathered, no
    timeout pending and a conversion under way. *)
Definition mid_speech : OffscreenLoop.page :=
  {| OffscreenLoop.variables :=
       {| mediaRecorder := Some {| state := recording; gathered := [Byte.x01; Byte.x02] |};
          audioChunks := [[Byte.x07]]; speechTimeout := None;
          intervalOn := true; closed := false |};
     OffscreenLoop.conversions :=
       [{| OffscreenLoop.parts := [[Byte.x07]];
           OffscreenLoop.settled := OffscreenLoop.Pending |}] |}.

End CaptureSpec.

(** ** Further statements about the service worker *)
Module WorkerSpec.
Import JS Storage Background DispatchSpec.

(** The messages sent, in order. *)
Definition sends (es : list effect) : list message :=
  omap (fun e => match e with Send m => Some m | _ => None end) es.

(** The addresses the requests went to, in order. *)
Definition urls (es : list effect) : list string :=
  omap (fun e => match e with Fetch u _ => Some u | _ => None end) es.

(** The storage writes, in order. *)
Definition writes (es : list effect) : list (list (string * stored)) :=
  omap (fun e => match e with StorageSet items => Some items | _ => None end) es.

Definition total (delays : list Z) : Z := foldr Z.add 0 delays.

(** The worker after the chunks [cs] have arrived while offline, each
    one handled to its end before the next one arrives. *)
Definition arrive_offline (ToString : json -> string) (net : nat -> fetch_result)
    (cs : list string) (s : bg) : bg :=
  foldl (fun s c => (handleAudioChunk ToString false net c s).1.2) s cs.

(** The chunks that arrive in a run of the event loop, in order. *)
Definition arrived (turns : list BackgroundEvents.arrival) : list string :=
  omap (fun a => match a with
                 | BackgroundEvents.Arrives c => Some c
                 | BackgroundEvents.Resumes _ => None
                 end) turns.

(** The turns of arrivals that do not overlap: each one writes before
    the next one arrives. [k] is the number of the first arrival. *)
Fixpoint one_by_one (k : nat) (cs : list string) : list BackgroundEvents.arrival :=
  match cs with
  | [] => []
  | c :: rest =>
      BackgroundEvents.Arrives c :: BackgroundEvents.Resumes k :: one_by_one (S k) rest
  end.

(** Two arrivals that overlap: both read the queue before either
    writes. *)
Definition overlapping (c1 c2 : string) : list BackgroundEvents.arrival :=
  [BackgroundEvents.Arrives c1; BackgroundEvents.Arrives c2;
   BackgroundEvents.Resumes 0; BackgroundEvents.Resumes 1].

(** The browser refuses a start for [source] with the error [m]. *)
Definition start_refused (c : chrome) (source : string) (m : string) : Prop :=
  (hasOffscreenDocument c = false /\ createDocument c = throws m) \/
  ((hasOffscreenDocument c = true \/ createDocument c = returns tt) /\
   source = "tab" /\
   ((activeTab c = None /\ m = "Could not find active tab.") \/
    (exists tab, activeTab c = Some tab /\ getMediaStreamId c = throws m))).

(** No start message for the capture context among the effects. *)
Definition no_capture_start (es : list effect) : Prop :=
  forall streamId source, Send (startOffscreenRecording streamId source) ∉ es.

(** What the arrivals so far have read and written: the stored queue and
    every queue read are the queue of the beginning followed by chunks
    that arrived earlier, in arrival order. *)
Definition arrivals_inv (q0 : list string) (arr : list string) (ws : list BackgroundEvents.waiter)
    (s : bg) : Prop :=
  length ws = length arr /\
  (exists kept, sublist kept arr /\ read_queue (storage s) = q0 ++ kept) /\
  (forall k w, ws !! k = Some w ->
     arr !! k = Some (BackgroundEvents.carried w) /\
     exists l, sublist l (take k arr) /\ BackgroundEvents.seen w = q0 ++ l).

(** A network that answers every request with a well-formed body that has
    no transcript. *)
Definition blank (i : nat) : fetch_result := fetch_response 200 (body_json (JObject [])).

(** A browser with no active tab. *)
Definition no_tab : chrome :=
  {| hasOffscreenDocument := true; createDocument := returns tt;
     activeTab := None; getMediaStreamId := returns "stream-1"; now := 5000 |}.

(** A worker whose extension context has been invalidated. *)
Definition orphaned : bg :=
  {| capturedTabId := Some 7; apiKey := Some "key"; audioSource := "tab";
     storage := {[ "recordingState" := VString "recording" ]};
     runtime_id := false |}.

End WorkerSpec.

(** ** Statements about the WAV encoder *)
Module WavSpec.
Import Wav.

(** Reading an unsigned number back, least significant octet first. *)
Definition getUint (octets : list Z) : Z :=
  foldr (fun o acc => o + 256 * acc) 0 octets.

(** Reading a signed 16-bit sample back. *)
Definition getInt16 (octets : list Z) : Z :=
  let u := getUint octets in if u <? 32768 then u else u - 65536.

(** The samples of a run of sample data, two octets each. *)
Fixpoint samples_of (data : list Z) : list Z :=
  match data with
  | lo :: hi :: rest => getInt16 [lo; hi] :: samples_of rest
  | _ => []
  end.

(** The quantized samples, frame after frame, channel after channel. *)
Definition interleaved (buffer : AudioBuffer) : list Z :=
  flat_map (fun offset => map (fun channel => sample_at channel offset) (channels buffer))
    (seq 0 (buffer_length buffer)).

Definition octet (o : Z) : Prop := 0 <= o < 256.

(** Two frames of stereo audio. *)
Definition stereo : AudioBuffer :=
  {| sampleRate := 48000; buffer_length := 2;
     channels := [[1 # 2; - (3 # 4)]; [2; - 5]]%Q |}.

End WavSpec.

(** ** Statements about the popup *)
Module PopupSpec.
Import JS Storage Popup PopupView.

(** The timer runs exactly while the popup is recording. *)
Definition timer_matches (p : popup) : Prop :=
  timerOn p = true <-> recordingState p = recording.

(** The decimal digit [d] as a character. *)
Definition digit (d : Z) : Ascii.ascii :=
  Ascii.ascii_of_nat (48 + Z.to_nat d).

Definition two_digits (n : Z) : string :=
  String (digit (n / 10)) (String (digit (n mod 10)) "").

(** A popup that is recording, 42 seconds in. *)
Definition recording42 : popup :=
  {| recordingState := recording; timerOn := true; secondsElapsed := 42;
     fullTranscript := [SessionSpec.entry0]; apiKeyInput := "key";
     audioSourceSelect := "tab"; errorMessage := None |}.

End PopupSpec.

(** ** Statements about the three contexts together *)
Module SystemSpec.
Import JS Storage.

(** A message of the capture context as the service worker receives it. *)
Definition to_worker (m : Offscreen.outgoing) : Background.request :=
  match m with
  | Offscreen.processAudioChunk audioChunk => Background.processAudioChunk audioChunk
  | Offscreen.recordingError e => Background.recordingError e
  end.

(** The popup receiving the messages [ms], in order, all at [now_iso]. *)
Definition receive (now_iso : string) (ms : list Background.message)
    (ps : Popup.popup * gmap string stored) : Popup.popup * gmap string stored :=
  foldl (fun ps m => PopupView.onMessage now_iso m ps.1 ps.2) ps ms.

(** The message shown for a failed [getUserMedia]. *)
Definition capture_error (name : string) : string :=
  if String.eqb name "NotAllowedError"
  then "Microphone permission was denied. Please allow it in your browser settings and try again."
  else "An unknown error occurred while starting the recording.".

(** No recorder is recording or paused in the document. *)
Definition no_active_recorder (d : Offscreen.doc) : Prop :=
  match Offscreen.mediaRecorder d with
  | Some r => Offscreen.state r = Offscreen.inactive
  | None => True
  end.

(** A network whose first answer carries the transcript [t]. *)
Definition answering_with (t : string) (i : nat) : Background.fetch_result :=
  Background.fetch_response 200 (Background.body_json
    (JObject [("candidates",
       JArray [JObject [("content",
         JObject [("parts", JArray [JObject [("text", JString t)]])])]])])).

End SystemSpec.

(** * Proofs *)

(** ** The capture context: proofs *)
Module Segmentation.
Import Offscreen SegmentationSpec.

Section Proofs.
Variable conv : blob -> string.

Lemma run_app d es1 es2 :
  run conv d (es1 ++ es2) =
  ((run conv (run conv d es1).1 es2).1,
   (run conv d es1).2 ++ (run conv (run conv d es1).1 es2).2).
Proof.
  revert d. induction es1 as [|e es1 IH]; intros d; simpl.
  - by destruct (run conv d es2).
  - destruct (step conv d e) as [d1 o1]. rewrite IH.
    destruct (run conv d1 es1) as [d2 o2]. simpl.
    destruct (run conv d2 es2) as [d3 o3]. simpl. by rewrite app_assoc.
Qed.

Lemma feed_cons d p ps :
  feed conv d (p :: ps) =
  ((feed conv (run conv d (period p)).1 ps).1,
   (run conv d (period p)).2 ++ (feed conv (run conv d (period p)).1 ps).2).
Proof. unfold feed. change (concat (map period (p :: ps))) with (period p ++ concat (map period ps)). apply run_app. Qed.

Lemma feed_app d ps qs :
  feed conv d (ps ++ qs) =
  ((feed conv (feed conv d ps).1 qs).1,
   (feed conv d ps).2 ++ (feed conv (feed conv d ps).1 qs).2).
Proof. unfold feed. rewrite map_app, concat_app. apply run_app. Qed.

Lemma period_loud ph g db fr :
  loud db = true ->
  run conv (doc_of ph g) (period (db, fr)) =
  (doc_of (Speaking 0) (match ph with Idle => fr | _ => g ++ fr end), []).
Proof.
  intros Hl. destruct ph as [|[|k]]; unfold period, doc_of; simpl;
    unfold interval_callback; simpl; rewrite Hl; simpl; reflexivity.
Qed.

Lemma period_silent_idle g db fr :
  loud db = false ->
  run conv (doc_of Idle g) (period (db, fr)) = (doc_of Idle g, []).
Proof.
  intros Hl. unfold period, doc_of; simpl.
  unfold interval_callback; simpl; rewrite Hl; reflexivity.
Qed.

Lemma period_silent_speaking k g db fr :
  loud db = false -> (k < 7)%nat ->
  run conv (doc_of (Speaking k) g) (period (db, fr)) =
  (doc_of (Speaking (S k)) (g ++ fr), []).
Proof.
  intros Hl Hk.
  do 7 (destruct k as [|k];
        [unfold period, doc_of; simpl; unfold interval_callback; simpl;
         rewrite Hl; reflexivity|]).
  lia.
Qed.

Lemma period_silent_fire g db fr :
  loud db = false -> fr <> [] ->
  run conv (doc_of (Speaking 7) g) (period (db, fr)) =
  (doc_of Idle [], [processAudioChunk (conv (Blob [g ++ fr]))]).
Proof.
  intros Hl Hfr.
  assert (Hsz : (0 <? size (g ++ fr))%nat = true).
  { apply Nat.ltb_lt. unfold size. rewrite length_app.
    destruct fr; [done | simpl; lia]. }
  unfold period, doc_of; simpl.
  unfold interval_callback; simpl; rewrite Hl; simpl.
  unfold encoded, step; simpl.
  unfold elapse, timeout_callback, recorder_stop, ondataavailable; simpl.
  rewrite Hsz. reflexivity.
Qed.

Lemma sts_cons_silent db samples :
  loud db = false ->
  speech_then_silence (db :: samples) <-> speech_then_silence samples.
Proof.
  intros Hl. split.
  - intros (pre & l & sil & post & Heq & Hloud & Hh).
    destruct pre as [|x pre]; simpl in Heq; injection Heq as -> Heq.
    + congruence.
    + exists pre, l, sil, post. done.
  - intros (pre & l & sil & post & -> & Hloud & Hh).
    exists (db :: pre), l, sil, post. done.
Qed.

Lemma fires_loud ph db samples :
  wf ph -> loud db = true ->
  (pending ph (db :: samples) \/ speech_then_silence (db :: samples)) <->
  (pending (Speaking 0) samples \/ speech_then_silence samples).
Proof.
  intros Hwf Hl. split.
  - intros [Hp | (pre & l & sil & post & Heq & Hloud & Hh)].
    + destruct ph as [|k]; [done|].
      destruct Hp as (sil & post & Heq & Hsil & Hlen). simpl in Hwf.
      destruct sil as [|x sil].
      * exfalso. simpl in Hlen. unfold SPEECH_TIMEOUT, CHECK_PERIOD in Hlen. lia.
      * simpl in Heq. injection Heq as -> _.
        apply Forall_cons in Hsil as [Hx _]. unfold silent in Hx. congruence.
    + destruct pre as [|x pre]; simpl in Heq; injection Heq as -> Heq.
      * left. exists sil, post. destruct Hh. done.
      * right. exists pre, l, sil, post. done.
  - intros [(sil & post & -> & Hsil & Hlen) | (pre & l & sil & post & -> & Hloud & Hh)].
    + right. exists [], db, sil, post. done.
    + right. exists (db :: pre), l, sil, post. done.
Qed.

Lemma pending_silent k db samples :
  loud db = false -> (k <= 7)%nat ->
  pending (Speaking k) (db :: samples) <-> pending (Speaking (S k)) samples.
Proof.
  intros Hl Hk. split.
  - intros (sil & post & Heq & Hsil & Hlen).
    destruct sil as [|x sil].
    + exfalso. simpl in Hlen. unfold SPEECH_TIMEOUT, CHECK_PERIOD in Hlen. lia.
    + simpl in Heq. injection Heq as -> ->.
      apply Forall_cons in Hsil as [_ Hsil].
      exists sil, post. repeat split; [done|].
      simpl in Hlen. by replace (S k + length sil)%nat with (k + S (length sil))%nat by lia.
  - intros (sil & post & -> & Hsil & Hlen).
    exists (db :: sil), post. repeat split.
    + by apply Forall_cons.
    + simpl. by replace (k + S (length sil))%nat with (S k + length sil)%nat by lia.
Qed.

Lemma emits_iff ps :
  forall ph g,
    wf ph -> Forall (fun p : Q * blob => p.2 <> []) ps ->
    emits (feed conv (doc_of ph g) ps).2 <->
    (pending ph (map fst ps) \/ speech_then_silence (map fst ps)).
Proof.
  induction ps as [|[db fr] ps IH]; intros ph g Hwf Hfr.
  - simpl. unfold emits. split; [done|].
    intros [Hp | (pre & l & sil & post & Heq & _)].
    + destruct ph as [|k]; [done|]. destruct Hp as (sil & post & Heq & _ & Hlen).
      symmetry in Heq. apply app_eq_nil in Heq as [-> _]. simpl in *.
      unfold SPEECH_TIMEOUT, CHECK_PERIOD in Hlen. lia.
    + by destruct pre.
  - apply Forall_cons in Hfr as [Hfr1 Hfr]. simpl in Hfr1.
    rewrite feed_cons. cbn [map fst snd].
    destruct (loud db) eqn:Hl.
    + rewrite period_loud by done. cbn [fst snd app].
      rewrite IH by (simpl; first [lia | done]).
      symmetry. by apply fires_loud.
    + destruct ph as [|k].
      * rewrite period_silent_idle by done. cbn [fst snd app].
        rewrite IH by done. simpl. by rewrite sts_cons_silent.
      * simpl in Hwf. destruct (decide (k = 7%nat)) as [->|Hne].
        -- rewrite period_silent_fire by done. cbn [fst snd app]. unfold emits.
           split; [|done]. intros _. left.
           exists [db], (map fst ps). repeat split.
           ++ by apply Forall_cons.
           ++ done.
        -- rewrite period_silent_speaking by (done || lia). cbn [fst snd app].
           rewrite IH by (simpl; first [lia | done]).
           rewrite sts_cons_silent by done.
           by rewrite (pending_silent k db) by (done || lia).
Qed.


Lemma feed_reach ps :
  forall ph g, wf ph ->
    exists ph' g', wf ph' /\ (feed conv (doc_of ph g) ps).1 = doc_of ph' g'.
Proof.
  induction ps as [|[db fr] ps IH]; intros ph g Hwf.
  - by exists ph, g.
  - rewrite feed_cons. cbn [fst].
    destruct (loud db) eqn:Hl.
    + rewrite period_loud by done. apply IH. simpl. lia.
    + destruct ph as [|k].
      * rewrite period_silent_idle by done. by apply IH.
      * simpl in Hwf. destruct (decide (k = 7%nat)) as [->|Hne].
        -- assert (Hstep : exists out,
             run conv (doc_of (Speaking 7) g) (period (db, fr)) = (doc_of Idle [], out)).
           { unfold period, doc_of; simpl.
             unfold interval_callback; simpl; rewrite Hl; simpl.
             unfold encoded, step; simpl.
             unfold elapse, timeout_callback, recorder_stop, ondataavailable; simpl.
             destruct (0 <? size (g ++ fr))%nat; simpl; eauto. }
           destruct Hstep as [out ->]. by apply IH.
        -- rewrite period_silent_speaking by (done || lia). apply IH. simpl. lia.
Qed.

Lemma feed_gap gap :
  forall k g,
    Forall silent (map fst gap) -> (k + length gap <= 7)%nat ->
    feed conv (doc_of (Speaking k) g) gap =
    (doc_of (Speaking (k + length gap)) (g ++ data_of gap), []).
Proof.
  induction gap as [|[db fr] gap IH]; intros k g Hsil Hlen.
  - unfold data_of. simpl. by rewrite Nat.add_0_r, app_nil_r.
  - simpl in Hsil. apply Forall_cons in Hsil as [Hdb Hsil]. simpl in Hlen.
    rewrite feed_cons, period_silent_speaking by (done || lia).
    cbn [fst snd app]. rewrite IH by (done || lia).
    unfold data_of. simpl. rewrite app_assoc.
    replace (S (k + length gap)) with (k + S (length gap))%nat by lia.
    reflexivity.
Qed.

Lemma ondataavailable_chunks data d :
  chunks_nonempty d -> chunks_nonempty (ondataavailable data d).
Proof.
  intros H. unfold ondataavailable.
  destruct (0 <? size data)%nat eqn:Hsz; [|assumption].
  unfold chunks_nonempty. simpl. apply Forall_app. split; [assumption|].
  apply Forall_cons. split; [by apply Nat.ltb_lt | constructor].
Qed.

Lemma onstop_chunks d :
  chunks_nonempty d ->
  chunks_nonempty (onstop conv d).1 /\ Forall (carries_data conv) (onstop conv d).2.
Proof.
  intros H. unfold onstop.
  destruct (audioChunks d) as [|b bs] eqn:Hcs; simpl.
  - split; [assumption | constructor].
  - split; [constructor|].
    apply Forall_cons. split; [|constructor].
    exists (b :: bs). split; [reflexivity|].
    unfold chunks_nonempty in H. rewrite Hcs in H.
    apply Forall_cons in H as [Hb _].
    unfold Blob, size in *. simpl. rewrite length_app. lia.
Qed.

Lemma recorder_stop_chunks d :
  chunks_nonempty d ->
  chunks_nonempty (recorder_stop conv d).1 /\
  Forall (carries_data conv) (recorder_stop conv d).2.
Proof.
  intros H. unfold recorder_stop.
  destruct (mediaRecorder d) as [r|]; [|split; [assumption | constructor]].
  destruct (state r);
    [split; [assumption | constructor]
    | apply onstop_chunks, ondataavailable_chunks, H
    | apply onstop_chunks, ondataavailable_chunks, H].
Qed.

Lemma step_chunks d e :
  chunks_nonempty d ->
  chunks_nonempty (step conv d e).1 /\ Forall (carries_data conv) (step conv d e).2.
Proof.
  intros Hinv.
  unfold step. destruct (closed d); [split; [assumption | constructor]|].
  destruct e as [a|db|bytes|ms].
  - destruct a as [gum| | | |]; simpl.
    + unfold startRecording.
      destruct (match mediaRecorder d with Some r => _ | None => _ end);
        [split; [assumption | constructor]|].
      destruct gum; simpl; (split; [assumption | repeat constructor]).
    + unfold stopRecording.
      pose proof (recorder_stop_chunks
                    (set_speechTimeout None (set_intervalOn false d)) Hinv) as Hstop.
      destruct (recorder_stop conv (set_speechTimeout None (set_intervalOn false d)))
        as [d3 out].
      simpl in *. exact Hstop.
    + destruct (mediaRecorder d) as [r|]; [|split; [assumption | constructor]].
      destruct (state r); (split; [assumption | constructor]).
    + destruct (mediaRecorder d) as [r|]; [|split; [assumption | constructor]].
      destruct (state r); (split; [assumption | constructor]).
    + split; [assumption | constructor].
  - destruct (intervalOn d); [|split; [assumption | constructor]].
    split; [|constructor]. simpl. unfold interval_callback.
    destruct (mediaRecorder d) as [r|]; [|assumption].
    destruct (state r), (loud db); simpl; try assumption;
      destruct (speechTimeout d); assumption.
  - split; [|constructor]. simpl. unfold encoded.
    destruct (mediaRecorder d) as [r|]; [|assumption].
    destruct (state r); assumption.
  - unfold elapse. destruct (speechTimeout d) as [t|]; [|split; [assumption | constructor]].
    destruct (t <=? ms); [|split; [assumption | constructor]].
    unfold timeout_callback.
    pose proof (recorder_stop_chunks d Hinv) as Hstop.
    destruct (recorder_stop conv d) as [d1 out]. simpl in *. exact Hstop.
Qed.

Lemma run_chunks es :
  forall d, chunks_nonempty d ->
    chunks_nonempty (run conv d es).1 /\ Forall (carries_data conv) (run conv d es).2.
Proof.
  induction es as [|e es IH]; intros d Hinv; [split; [assumption | constructor]|].
  simpl. destruct (step_chunks d e Hinv) as [H1 H2].
  destruct (step conv d e) as [d1 o1]. simpl in *.
  destruct (IH d1 H1) as [H3 H4].
  destruct (run conv d1 es) as [d2 o2]. simpl in *.
  split; [done|]. by apply Forall_app.
Qed.


(** While the recorder is paused the interval callback returns at once:
    no classification has any effect. *)
Lemma paused_ignores_classification db d r :
  mediaRecorder d = Some r -> state r = paused ->
  interval_callback db d = d.
Proof. intros Hr Hs. unfold interval_callback. by rewrite Hr, Hs. Qed.

(** The scenario of the specification: two silent samples, three loud
    ones and eight silent ones give exactly one chunk, holding the data
    encoded from the first loud sample to the end of the hangover. *)
Example scenario_one_chunk :
  (feed conv started scenario).2 =
  [processAudioChunk (conv (repeat Byte.x01 11))].
Proof. reflexivity. Qed.

(** C1: fed one sample per 200 ms period, the loop emits a chunk exactly
    when some loud sample is directly followed by a run of silent
    samples lasting at least the 1500 ms hangover; across a shorter
    silent gap between two loud samples nothing is emitted and the same
    recording goes on, keeping the data of the gap. *)
Theorem hangover_decides_chunk ps :
  frames_nonempty ps ->
  (emits (feed conv started ps).2 <-> speech_then_silence (map fst ps)) /\
  (forall pre l gap l' post,
      ps = pre ++ l :: gap ++ l' :: post ->
      loud l.1 = true -> Forall silent (map fst gap) -> loud l'.1 = true ->
      CHECK_PERIOD * Z.of_nat (length gap) < SPEECH_TIMEOUT ->
      exists g,
        (feed conv started (pre ++ [l])).1 = speaking_with g /\
        feed conv (speaking_with g) (gap ++ [l']) =
        (speaking_with (g ++ data_of (gap ++ [l'])), [])).
Proof.
  intros Hfr. split.
  - change started with (doc_of Idle []).
    rewrite emits_iff by done. simpl. tauto.
  - intros pre [dbl frl] gap [dbl' frl'] post -> Hl Hgap Hl' Hshort.
    simpl in Hl, Hl'.
    change started with (doc_of Idle []).
    destruct (feed_reach pre Idle [] I) as (ph & g0 & Hwf & Hpre).
    rewrite feed_app, Hpre. cbn [fst].
    rewrite feed_cons, period_loud by done. cbn [fst].
    eexists. split; [reflexivity|].
    unfold speaking_with. rewrite feed_app.
    rewrite feed_gap by (first [done | unfold SPEECH_TIMEOUT, CHECK_PERIOD in Hshort; lia]).
    cbn [fst snd]. rewrite feed_cons, period_loud by done.
    cbn [fst snd]. unfold data_of. rewrite map_app, concat_app. simpl.
    rewrite !app_nil_r. by rewrite <- app_assoc.
Qed.

(** C5, evaluated: a session is started, speech begins, one silent
    sample arms the hangover timer and the session is paused. The
    recorder is then paused with the timer still pending, and 1300 ms
    later, during the pause, the timer stops the recorder and the chunk
    is emitted. *)
Theorem pending_timeout_fires_while_paused :
  let d := (run conv initial pause_trace).1 in
  (run conv initial pause_trace).2 = [] /\
  state <$> mediaRecorder d = Some paused /\
  speechTimeout d = Some 1300 /\
  (run conv d [Elapse 1300]).2 = [processAudioChunk (conv [Byte.x01; Byte.x02])] /\
  state <$> mediaRecorder (run conv d [Elapse 1300]).1 = Some inactive.
Proof. repeat split. Qed.

(** A pause that arrives while the recorder is inactive is dropped by
    [handleMessages]: the loop goes on starting the recorder and emitting
    chunks. *)
Example pause_dropped_between_segments :
  (run conv initial pause_between_segments).2 =
  [processAudioChunk (conv (repeat Byte.x01 9))].
Proof. reflexivity. Qed.

(** C6: whatever the document is made to run, every chunk it sends is
    the conversion of buffered data of at least one byte. *)
Theorem emitted_chunk_has_bytes es :
  Forall (carries_data conv) (run conv initial es).2.
Proof. apply run_chunks. constructor. Qed.

End Proofs.

Lemma hangover_decides_chunk_witness :
  frames_nonempty scenario /\
  ((emits (feed (fun _ => "wav") started scenario).2 <->
    speech_then_silence (map fst scenario)) /\
   (forall pre l gap l' post,
       scenario = pre ++ l :: gap ++ l' :: post ->
       loud l.1 = true -> Forall silent (map fst gap) -> loud l'.1 = true ->
       CHECK_PERIOD * Z.of_nat (length gap) < SPEECH_TIMEOUT ->
       exists g,
         (feed (fun _ => "wav") started (pre ++ [l])).1 = speaking_with g /\
         feed (fun _ => "wav") (speaking_with g) (gap ++ [l']) =
         (speaking_with (g ++ data_of (gap ++ [l'])), []))).
Proof.
  assert (H : frames_nonempty scenario).
  { unfold frames_nonempty, scenario. simpl.
    repeat (constructor; [discriminate|]). constructor. }
  split; [exact H | exact (hangover_decides_chunk (fun _ => "wav") scenario H)].
Defined.
End Segmentation.

Module Dispatch.
Import JS Storage Background DispatchSpec.

Section Proofs.
Variable ToString : json -> string.

Lemma loop_step_fail sv rest audio errs s :
  yields sv audio (apiKey s) = None ->
  transcribeLoop (sv :: rest) audio errs s =
  ((transcribeLoop rest audio (errs ++ [failure_line audio (apiKey s) sv]) s).1,
   call_log audio (apiKey s) sv ++
   (transcribeLoop rest audio (errs ++ [failure_line audio (apiKey s) sv]) s).2).
Proof.
  intros Hy. unfold yields, failure_line, last_error, call_log in *.
  cbn [transcribeLoop]. unfold bind, gets, tell, ret. cbn [fst snd].
  destruct (invoke sv audio (apiKey s)) as [[result|m] log]; cbn [fst snd] in *.
  - change (": " +:+ "Received an empty or invalid response.")
      with ": Received an empty or invalid response.".
    destruct (transcript_of result) as [t|] eqn:Ht.
    + destruct (truthy (Some t)); [done|].
      by destruct (transcribeLoop rest audio _ s) as [[o s'] l].
    + by destruct (transcribeLoop rest audio _ s) as [[o s'] l].
  - by destruct (transcribeLoop rest audio _ s) as [[o s'] l].
Qed.

Lemma loop_step_success sv rest audio errs s t :
  yields sv audio (apiKey s) = Some t ->
  transcribeLoop (sv :: rest) audio errs s =
  (Transcribed t, s, call_log audio (apiKey s) sv ++ delivery s t).
Proof.
  intros Hy. unfold yields, call_log, delivery in *.
  cbn [transcribeLoop]. unfold bind, gets, tell, ret. cbn [fst snd].
  destruct (invoke sv audio (apiKey s)) as [[result|m] log]; cbn [fst snd] in *;
    [|done].
  destruct (transcript_of result) as [t'|] eqn:Ht; [|done].
  destruct (truthy (Some t')); [|done]. injection Hy as ->.
  unfold updateStatus, when, sendMessage, bind, gets, tell, ret. cbn [fst snd].
  destruct (runtime_id s) eqn:Hid; cbn [fst snd app]; rewrite ?Hid;
    cbn [fst snd app]; by rewrite ?app_nil_r.
Qed.

(** No provider yields a transcript: every one is invoked, in order, and
    the error path is taken with the aggregated message. *)
Lemma loop_all_fail svs :
  forall audio errs s,
    Forall (fun sv => yields sv audio (apiKey s) = None) svs ->
    transcribeLoop svs audio errs s =
    (Failed (aggregated (errs ++ map (failure_line audio (apiKey s)) svs)),
     (handleError (aggregated (errs ++ map (failure_line audio (apiKey s)) svs)) s).1.2,
     concat (map (call_log audio (apiKey s)) svs) ++
     (handleError (aggregated (errs ++ map (failure_line audio (apiKey s)) svs)) s).2).
Proof.
  induction svs as [|sv svs IH]; intros audio errs s Hall.
  - cbn [transcribeLoop map concat]. unfold bind, ret, aggregated. cbn [fst snd].
    by rewrite !app_nil_r.
  - apply Forall_cons in Hall as [Hsv Hall].
    rewrite loop_step_fail by done. rewrite IH by done.
    cbn [fst snd map concat]. by rewrite <- !app_assoc.
Qed.

(** The first provider that yields a transcript ends the loop. *)
Lemma loop_first_success pre :
  forall sv post audio errs s t,
    Forall (fun p => yields p audio (apiKey s) = None) pre ->
    yields sv audio (apiKey s) = Some t ->
    transcribeLoop (pre ++ sv :: post) audio errs s =
    (Transcribed t, s,
     concat (map (call_log audio (apiKey s)) pre) ++
     call_log audio (apiKey s) sv ++ delivery s t).
Proof.
  induction pre as [|p pre IH]; intros sv post audio errs s t Hpre Hsv.
  - by apply loop_step_success.
  - apply Forall_cons in Hpre as [Hp Hpre]. cbn [app].
    rewrite loop_step_fail by done. rewrite (IH sv post _ _ s t) by done.
    cbn [fst snd map concat]. by rewrite <- !app_assoc.
Qed.


Lemma attempts_spec net url audio retries delay :
  forall todo i,
    (i + todo = retries)%nat -> (1 <= todo)%nat ->
    exists n,
      (1 <= n <= todo)%nat /\
      (attempts ToString net url audio retries delay todo i).2 =
        schedule url audio delay i n /\
      (forall j, (i <= j < i + n - 1)%nat -> exists m, attempt ToString (net j) = throws m) /\
      ((exists r, attempt ToString (net (i + n - 1)%nat) = returns r /\
                  (attempts ToString net url audio retries delay todo i).1 = returns (Some r)) \/
       (n = todo /\
        exists m, attempt ToString (net (i + n - 1)%nat) = throws m /\
                  (attempts ToString net url audio retries delay todo i).1 = throws m)).
Proof.
  induction todo as [|todo IH]; intros i Hsum Hpos; [lia|].
  cbn [attempts].
  destruct (attempt ToString (net i)) as [r|m] eqn:Hatt.
  - exists 1%nat. repeat split; [lia | lia | intros j Hj; lia |].
    left. exists r. by rewrite Nat.add_sub.
  - destruct (i =? retries - 1)%nat eqn:Hlast.
    + apply Nat.eqb_eq in Hlast.
      exists 1%nat. repeat split; [lia | lia | intros j Hj; lia |].
      right. split; [lia|]. exists m. by rewrite Nat.add_sub.
    + apply Nat.eqb_neq in Hlast.
      destruct (IH (S i)) as (n & Hn & Hlog & Hfail & Hres); [lia | lia |].
      exists (S n). cbn [fst snd]. repeat split; [lia | lia | | |].
      * rewrite Hlog. destruct n; [lia | done].
      * intros j Hj. destruct (decide (j = i)) as [->|Hne]; [by eexists|].
        apply Hfail. lia.
      * replace (i + S n - 1)%nat with (S i + n - 1)%nat by lia.
        destruct Hres as [Hres | [Hn' Hres]]; [by left | right].
        split; [lia | done].
Qed.

Lemma schedule_fetched url audio delay n :
  forall i, length (fetched (schedule url audio delay i n)) = n.
Proof.
  induction n as [|[|n] IH]; intros i; [done | done |].
  change (schedule url audio delay i (S (S n)))
    with (Fetch url audio :: Sleep (delay * 2 ^ Z.of_nat i)
            :: schedule url audio delay (S i) (S n)).
  change (fetched (Fetch url audio :: Sleep (delay * 2 ^ Z.of_nat i)
            :: schedule url audio delay (S i) (S n)))
    with (audio :: fetched (schedule url audio delay (S i) (S n))).
  cbn [length]. by rewrite IH.
Qed.

Lemma schedule_sleeps url audio delay n :
  forall i,
    sleeps (schedule url audio delay i n) =
    map (fun k : nat => delay * 2 ^ Z.of_nat k) (seq i (n - 1)).
Proof.
  induction n as [|[|n] IH]; intros i; [done | done |].
  change (schedule url audio delay i (S (S n)))
    with (Fetch url audio :: Sleep (delay * 2 ^ Z.of_nat i)
            :: schedule url audio delay (S i) (S n)).
  change (sleeps (Fetch url audio :: Sleep (delay * 2 ^ Z.of_nat i)
            :: schedule url audio delay (S i) (S n)))
    with (delay * 2 ^ Z.of_nat i :: sleeps (schedule url audio delay (S i) (S n))).
  rewrite IH.
  replace (S (S n) - 1)%nat with (S (S n - 1)) by lia. done.
Qed.

Lemma schedule_quiet url audio delay n :
  forall i,
    calls (schedule url audio delay i n) = [] /\
    removed (schedule url audio delay i n) = [].
Proof.
  induction n as [|[|n] IH]; intros i; [done | done |].
  change (schedule url audio delay i (S (S n)))
    with (Fetch url audio :: Sleep (delay * 2 ^ Z.of_nat i)
            :: schedule url audio delay (S i) (S n)).
  change (calls (Fetch url audio :: Sleep (delay * 2 ^ Z.of_nat i)
            :: schedule url audio delay (S i) (S n)))
    with (calls (schedule url audio delay (S i) (S n))).
  change (removed (Fetch url audio :: Sleep (delay * 2 ^ Z.of_nat i)
            :: schedule url audio delay (S i) (S n)))
    with (removed (schedule url audio delay (S i) (S n))).
  apply IH.
Qed.

Lemma doubling (n : nat) (k : nat) (d d' : Z) :
  map (fun k : nat => 1000 * 2 ^ Z.of_nat k) (seq 0 n) !! k = Some d ->
  map (fun k : nat => 1000 * 2 ^ Z.of_nat k) (seq 0 n) !! S k = Some d' ->
  d' = 2 * d /\ d < d'.
Proof.
  rewrite !list_lookup_fmap. intros H1 H2.
  destruct (seq 0 n !! k) as [a|] eqn:Ha; [|done].
  destruct (seq 0 n !! S k) as [b|] eqn:Hb; [|done].
  apply lookup_seq in Ha as [-> _]. apply lookup_seq in Hb as [-> _].
  simpl in H1, H2. injection H1 as <-. injection H2 as <-.
  replace (Z.of_nat (S k)) with (Z.succ (Z.of_nat k)) by lia.
  rewrite Z.pow_succ_r by lia.
  assert (0 < 2 ^ Z.of_nat k) by (apply Z.pow_pos_nonneg; lia). lia.
Qed.

Lemma gemini_bounded net audio key :
  bounded_backoff audio key (callGeminiApi ToString net audio key 3 1000).2.
Proof.
  unfold callGeminiApi.
  destruct (attempts_spec net (API_URL key) audio 3 1000 3 0)
    as (n & Hn & Hlog & _); [lia | lia |].
  exists n. rewrite Hlog. split; [lia|]. split; [done|]. split; [|split].
  - apply schedule_fetched.
  - apply schedule_sleeps.
  - intros k d d'. rewrite schedule_sleeps. apply doubling.
Qed.

Lemma placeholder_bounded audio key : bounded_backoff audio key [].
Proof.
  exists 0%nat. split; [lia|]. split; [done|]. split; [done|]. split; [done|].
  intros k d d' H. done.
Qed.


Lemma handleError_run e s :
  handleError e s = (tt, stopped s, failure_report s e).
Proof.
  unfold handleError, stopRecording, storage_set, sendMessage, when,
    bind, gets, tell, modify, ret, stopped, failure_report.
  cbn [fst snd]. destruct (runtime_id s) eqn:Hid; cbn [fst snd app]; [|done].
  rewrite ?Hid. cbn [fst snd app]. by rewrite ?Hid.
Qed.

Lemma text_truthy (t : string) :
  truthy (Some (JString t)) = true <-> t <> "".
Proof.
  simpl. rewrite negb_true_iff. split.
  - intros H ->. done.
  - intros H. by apply String.eqb_neq.
Qed.

(** The two ways a dispatch over the configured chain can go. *)
Lemma transcribe_cases net audio s :
  match yields (gemini ToString net) audio (apiKey s) with
  | Some t =>
      transcribeAudio ToString net audio s =
      (Transcribed t, s,
       call_log audio (apiKey s) (gemini ToString net) ++ delivery s t)
  | None =>
      let e := aggregated (map (failure_line audio (apiKey s))
                             [gemini ToString net; whisper; deepgram]) in
      transcribeAudio ToString net audio s =
      (Failed e, stopped s,
       concat (map (call_log audio (apiKey s))
                 [gemini ToString net; whisper; deepgram]) ++
       failure_report s e)
  end.
Proof.
  unfold transcribeAudio.
  change (services ToString net) with ([] ++ gemini ToString net :: [whisper; deepgram]).
  destruct (yields (gemini ToString net) audio (apiKey s)) as [t|] eqn:Hy.
  - by rewrite (loop_first_success [] _ _ audio [] s t).
  - cbn [app]. rewrite loop_all_fail.
    + by rewrite handleError_run.
    + repeat (constructor; [done|]). constructor.
Qed.


Lemma calls_app (a b : list effect) : calls (a ++ b) = calls a ++ calls b.
Proof. apply omap_app. Qed.
Lemma fetched_app (a b : list effect) : fetched (a ++ b) = fetched a ++ fetched b.
Proof. apply omap_app. Qed.

Lemma gemini_quiet net audio key :
  calls (callGeminiApi ToString net audio key 3 1000).2 = [] /\
  removed (callGeminiApi ToString net audio key 3 1000).2 = [].
Proof.
  destruct (gemini_bounded net audio key) as (n & _ & -> & _).
  apply schedule_quiet.
Qed.

Lemma delivery_quiet s t :
  calls (delivery s t) = [] /\ fetched (delivery s t) = [] /\
  removed (delivery s t) = [].
Proof. unfold delivery. by destruct (runtime_id s). Qed.

Lemma failure_report_quiet s e :
  calls (failure_report s e) = [] /\ fetched (failure_report s e) = [] /\
  removed (failure_report s e) = [].
Proof. unfold failure_report. by destruct (runtime_id s). Qed.

Lemma gemini_last_error net audio key m :
  (callGeminiApi ToString net audio key 3 1000).1 = throws m ->
  attempt ToString (net 2%nat) = throws m.
Proof.
  unfold callGeminiApi. intros Hthrow.
  destruct (attempts_spec net (API_URL key) audio 3 1000 3 0)
    as (n & Hn & _ & _ & [(r & _ & Hres) | (-> & m' & Hatt & Hres)]); [lia | lia | |].
  - congruence.
  - simpl in Hatt. congruence.
Qed.

Lemma calls_call_log audio key sv :
  calls (call_log audio key sv) = name sv :: calls (invoke sv audio key).2.
Proof. reflexivity. Qed.

Lemma fetched_call_log audio key sv :
  fetched (call_log audio key sv) = fetched (invoke sv audio key).2.
Proof. reflexivity. Qed.


Lemma chain_calls net audio key :
  calls (call_log audio key (gemini ToString net)) = ["callGeminiApi"] /\
  calls (concat (map (call_log audio key) [gemini ToString net; whisper; deepgram]))
  = CHAIN.
Proof.
  destruct (gemini_quiet net audio key) as [Hg _].
  cbn [map concat]. rewrite !calls_app, !calls_call_log.
  unfold gemini, whisper, deepgram. cbn [name invoke]. by rewrite Hg.
Qed.

Lemma chain_fetched net audio key :
  (length (fetched (call_log audio key (gemini ToString net))) <= 3)%nat /\
  (length (fetched (concat (map (call_log audio key)
                              [gemini ToString net; whisper; deepgram]))) <= 3)%nat.
Proof.
  destruct (gemini_bounded net audio key) as (n & Hn & _ & Hlen & _).
  cbn [map concat]. rewrite !fetched_app, !fetched_call_log.
  unfold gemini, whisper, deepgram. cbn [name invoke].
  rewrite !length_app, Hlen. simpl. lia.
Qed.

Lemma dispatch_chain_calls net audio s :
  calls (transcribeAudio ToString net audio s).2 = ["callGeminiApi"] \/
  calls (transcribeAudio ToString net audio s).2 = CHAIN.
Proof.
  pose proof (transcribe_cases net audio s) as Hc.
  destruct (chain_calls net audio (apiKey s)) as [Hg Hall].
  destruct (yields (gemini ToString net) audio (apiKey s)) as [t|].
  - left. rewrite Hc. cbn [snd]. rewrite calls_app, Hg.
    destruct (delivery_quiet s t) as (-> & _). done.
  - right. cbn zeta in Hc. rewrite Hc. cbn [snd]. rewrite calls_app, Hall.
    destruct (failure_report_quiet s
      (aggregated (map (failure_line audio (apiKey s))
         [gemini ToString net; whisper; deepgram]))) as (-> & _).
    by rewrite app_nil_r.
Qed.

(** C2: over the configured chain the providers are invoked in the
    order Gemini, Whisper, Deepgram; and in any chain, as soon as a
    provider yields a transcript the dispatch ends with it: the
    providers before it were invoked in order, the transcript is sent
    on, and nothing after it is invoked. *)
Theorem dispatch_in_order_first_success net audio s :
  (calls (transcribeAudio ToString net audio s).2 `prefix_of` CHAIN /\
   calls (transcribeAudio ToString net audio s).2 <> []) /\
  (forall pre sv post t errs,
      Forall (fun p => yields p audio (apiKey s) = None) pre ->
      yields sv audio (apiKey s) = Some t ->
      transcribeLoop (pre ++ sv :: post) audio errs s =
      (Transcribed t, s,
       concat (map (call_log audio (apiKey s)) pre) ++
       call_log audio (apiKey s) sv ++ delivery s t)).
Proof.
  split.
  - destruct (dispatch_chain_calls net audio s) as [-> | ->].
    + split; [|done]. by exists ["callWhisperApi"; "callDeepgramApi"].
    + split; [|done]. by exists [].
  - intros pre sv post t errs Hpre Hsv. by apply loop_first_success.
Qed.

(** C7: a dispatch invokes each provider at most once; a provider call
    makes at most three requests, waits 1000 * 2^attempt ms after a
    failed request before the next one, so each wait is twice the one
    before; a whole dispatch sends at most three requests. *)
Theorem bounded_attempts_doubling_backoff net audio s :
  Forall (fun sv => bounded_backoff audio (apiKey s) (invoke sv audio (apiKey s)).2)
    (services ToString net) /\
  NoDup (calls (transcribeAudio ToString net audio s).2) /\
  (length (fetched (transcribeAudio ToString net audio s).2) <= 3)%nat.
Proof.
  split; [|split].
  - unfold services. repeat constructor; cbn [invoke].
    + apply gemini_bounded.
    + apply placeholder_bounded.
    + apply placeholder_bounded.
  - destruct (dispatch_chain_calls net audio s) as [-> | ->];
      apply (bool_decide_unpack _); by vm_compute.
  - pose proof (transcribe_cases net audio s) as Hc.
    destruct (chain_fetched net audio (apiKey s)) as [Hg Hall].
    destruct (yields (gemini ToString net) audio (apiKey s)) as [t|].
    + rewrite Hc. cbn [snd]. rewrite fetched_app.
      destruct (delivery_quiet s t) as (_ & -> & _). by rewrite app_nil_r.
    + cbn zeta in Hc. rewrite Hc. cbn [snd]. rewrite fetched_app.
      destruct (failure_report_quiet s
        (aggregated (map (failure_line audio (apiKey s))
           [gemini ToString net; whisper; deepgram]))) as (_ & -> & _).
      by rewrite app_nil_r.
Qed.


(** C8: when no provider of the chain yields a transcript, every
    provider was invoked, and the dispatch takes the error path with a
    single message that joins one line per provider, in order, each
    line being the provider's name and its error. For Gemini the error
    thrown is the one of its last attempt. *)
Theorem exhausted_chain_aggregates svs audio s :
  Forall (fun sv => yields sv audio (apiKey s) = None) svs ->
  transcribeLoop svs audio [] s =
    (Failed (aggregated (map (failure_line audio (apiKey s)) svs)),
     stopped s,
     concat (map (call_log audio (apiKey s)) svs) ++
     failure_report s (aggregated (map (failure_line audio (apiKey s)) svs))) /\
  length (map (failure_line audio (apiKey s)) svs) = length svs /\
  (forall net m,
      (callGeminiApi ToString net audio (apiKey s) 3 1000).1 = throws m ->
      attempt ToString (net 2%nat) = throws m).
Proof.
  intros Hall. split; [|split].
  - rewrite loop_all_fail by done. by rewrite handleError_run.
  - apply length_map.
  - intros net m. apply gemini_last_error.
Qed.

(** C10: the Whisper and Deepgram providers always throw; so a dispatch
    over the configured chain ends with a transcript exactly when
    Gemini yields one, after invoking Gemini only, and otherwise ends on
    the error path with the three lines of the chain. *)
Theorem success_only_through_gemini net audio s :
  (forall a k,
      callWhisperApi a k = (throws "Whisper API not implemented.", []) /\
      callDeepgramApi a k = (throws "Deepgram API not implemented.", [])) /\
  match yields (gemini ToString net) audio (apiKey s) with
  | Some t =>
      (transcribeAudio ToString net audio s).1.1 = Transcribed t /\
      calls (transcribeAudio ToString net audio s).2 = ["callGeminiApi"]
  | None =>
      (transcribeAudio ToString net audio s).1.1 =
        Failed (aggregated
          ["callGeminiApi: " +:+ last_error (gemini ToString net) audio (apiKey s);
           "callWhisperApi: Whisper API not implemented.";
           "callDeepgramApi: Deepgram API not implemented."]) /\
      calls (transcribeAudio ToString net audio s).2 = CHAIN
  end.
Proof.
  split; [done|].
  pose proof (transcribe_cases net audio s) as Hc.
  destruct (chain_calls net audio (apiKey s)) as [Hg Hall].
  destruct (yields (gemini ToString net) audio (apiKey s)) as [t|].
  - rewrite Hc. cbn [fst snd]. split; [done|].
    rewrite calls_app, Hg. by destruct (delivery_quiet s t) as (-> & _).
  - cbn zeta in Hc. rewrite Hc. cbn [fst snd]. split; [done|].
    rewrite calls_app, Hall.
    destruct (failure_report_quiet s
      (aggregated (map (failure_line audio (apiKey s))
         [gemini ToString net; whisper; deepgram]))) as (-> & _).
    by rewrite app_nil_r.
Qed.


Lemma stopped_reads s :
  apiKey (stopped s) = apiKey s /\ audioSource (stopped s) = audioSource s /\
  runtime_id (stopped s) = runtime_id s.
Proof. unfold stopped. by destruct (runtime_id s) eqn:Hid. Qed.

Lemma stopped_idem s : stopped (stopped s) = stopped s.
Proof.
  unfold stopped. destruct (runtime_id s) eqn:Hid; [|by rewrite Hid].
  cbn [runtime_id set_capturedTabId set_storage]. rewrite Hid.
  unfold set_capturedTabId, set_storage. cbn. by rewrite insert_insert_eq.
Qed.

(** A dispatch leaves the variables as they were, or as [handleError]
    leaves them. *)
Lemma transcribe_state net audio s :
  (transcribeAudio ToString net audio s).1.2 =
  if failed (transcribeAudio ToString net audio s).1.1 then stopped s else s.
Proof.
  pose proof (transcribe_cases net audio s) as Hc.
  destruct (yields (gemini ToString net) audio (apiKey s)) as [t|].
  - by rewrite Hc.
  - cbn zeta in Hc. by rewrite Hc.
Qed.

(** What a dispatch does and how it ends do not depend on what an
    earlier failed dispatch has written. *)
Lemma transcribe_on_stopped net audio s :
  transcribeAudio ToString net audio (stopped s) =
  ((transcribeAudio ToString net audio s).1.1, stopped s,
   (transcribeAudio ToString net audio s).2).
Proof.
  pose proof (transcribe_cases net audio s) as Hc.
  pose proof (transcribe_cases net audio (stopped s)) as Hc'.
  destruct (stopped_reads s) as (Hk & Hsrc & Hid).
  rewrite Hk in Hc'.
  assert (Hrep : forall e, failure_report (stopped s) e = failure_report s e)
    by (intros e; unfold failure_report; by rewrite Hid).
  assert (Hdel : forall t, delivery (stopped s) t = delivery s t)
    by (intros t; unfold delivery; by rewrite Hid, Hsrc).
  destruct (yields (gemini ToString net) audio (apiKey s)) as [t|].
  - rewrite Hc, Hc'. cbn [fst snd]. by rewrite Hdel.
  - cbn zeta in Hc, Hc'. rewrite Hc, Hc'. cbn [fst snd].
    by rewrite Hrep, stopped_idem.
Qed.

Lemma dispatchEach_spec nets s queue :
  forall k s0,
    s0 = s \/ s0 = stopped s ->
    (dispatchEach ToString nets k queue s0).1.1 =
      imap (fun i chunk =>
              ((transcribeAudio ToString (nets (k + i)%nat) chunk s).1.1,
               (transcribeAudio ToString (nets (k + i)%nat) chunk s).2)) queue /\
    (dispatchEach ToString nets k queue s0).1.2 =
      (if existsb failed (map fst (dispatchEach ToString nets k queue s0).1.1)
       then stopped s else s0) /\
    (dispatchEach ToString nets k queue s0).2 = [].
Proof.
  induction queue as [|chunk queue IH]; intros k s0 Hs0; [done|].
  cbn [dispatchEach]. unfold bind, ret, apart. cbn [fst snd].
  set (t := transcribeAudio ToString (nets k) chunk s).
  assert (Ht : (transcribeAudio ToString (nets k) chunk s0).1.1 = t.1.1 /\
               (transcribeAudio ToString (nets k) chunk s0).2 = t.2 /\
               ((transcribeAudio ToString (nets k) chunk s0).1.2 = s \/
                (transcribeAudio ToString (nets k) chunk s0).1.2 = stopped s) /\
               (transcribeAudio ToString (nets k) chunk s0).1.2 =
                 if failed t.1.1 then stopped s else s0).
  { destruct Hs0 as [-> | ->].
    - fold t. split; [done|]. split; [done|].
      pose proof (transcribe_state (nets k) chunk s) as Hst. fold t in Hst.
      rewrite Hst. split; [|done]. destruct (failed t.1.1); auto.
    - rewrite transcribe_on_stopped. fold t. cbn [fst snd].
      split; [done|]. split; [done|]. split; [by right|]. by destruct (failed t.1.1). }
  destruct Ht as (Ho & Hl & Hs1 & Hst).
  destruct (IH (S k) _ Hs1) as (Hrs & Hs2 & Hnil).
  rewrite Ho, Hl, Hnil. cbn [app]. split; [|split; [|done]].
  - rewrite imap_cons, Hrs. replace (k + 0)%nat with k by lia. fold t.
    f_equal. apply imap_ext. intros i c _. cbn.
    by replace (k + S i)%nat with (S (k + i)) by lia.
  - rewrite Hs2. cbn [map fst existsb].
    destruct (existsb failed _); [by rewrite orb_true_r|].
    rewrite orb_false_r. by rewrite Hst.
Qed.

Lemma concat_turns log : concat (turns log) = log.
Proof.
  induction log as [|e log IH]; [done|].
  cbn [turns]. destruct e; destruct (turns log) as [|t ts]; cbn in *;
    try (by rewrite <- IH); by subst.
Qed.

Lemma interleaving_block {A} (logs : list (list A)) k t l trace :
  logs !! k = Some (t ++ l) ->
  interleaving (<[k := l]> logs) trace ->
  interleaving logs (t ++ trace).
Proof.
  revert logs. induction t as [|x t IH]; intros logs Hk Htr.
  - cbn in *. by rewrite list_insert_id in Htr.
  - cbn [app]. eapply interleaving_cons; [exact Hk|].
    apply IH.
    + apply list_lookup_insert_eq. by eapply lookup_lt_Some.
    + by rewrite list_insert_insert_eq.
Qed.

Lemma interleaving_rest {A} (logs : list (list A)) :
  forall pre, Forall (fun l => l = []) pre -> interleaving (pre ++ logs) (concat logs).
Proof.
  induction logs as [|l logs IH]; intros pre Hpre.
  - rewrite app_nil_r. by constructor.
  - cbn [concat]. apply (interleaving_block _ (length pre) l []).
    + rewrite app_nil_r. by rewrite lookup_app_r, Nat.sub_diag by lia.
    + rewrite insert_app_r_alt, Nat.sub_diag by lia. cbn [insert list_insert].
      change (pre ++ [] :: logs) with (pre ++ [[]] ++ logs). rewrite app_assoc.
      apply IH. apply Forall_app. split; [done|]. by repeat constructor.
Qed.

Lemma concat_concat {A} (w : list (list (list A))) :
  concat (concat w) = concat (map (concat (A:=_)) w).
Proof.
  induction w as [|t w IH]; [done|]. cbn [concat map]. by rewrite concat_app, IH.
Qed.

(** Whatever the order in which the answers come in, each dispatch keeps
    its own order. *)
Lemma interleave_interleaving sched :
  forall waiting, interleaving (map (concat (A:=_)) waiting) (interleave sched waiting).
Proof.
  induction sched as [|k sched IH]; intros waiting.
  - cbn [interleave]. rewrite concat_concat. by apply (interleaving_rest _ []).
  - cbn [interleave]. destruct (waiting !! k) as [[|turn rest]|] eqn:Hk; try apply IH.
    apply (interleaving_block _ k turn (concat rest)).
    + change (map (concat (A:=_)) waiting) with (concat (A:=_) <$> waiting).
      by rewrite list_lookup_fmap, Hk.
    + change (map (concat (A:=_)) waiting) with (concat (A:=_) <$> waiting).
      rewrite <- list_fmap_insert. apply IH.
Qed.

Lemma interleaving_first_turns {A} (threads : list (list (list A))) trace :
  forall pre,
    interleaving (pre ++ map (concat (A:=_)) (map (tl (A:=_)) threads)) trace ->
    interleaving (pre ++ map (concat (A:=_)) threads) (concat (map (hd []) threads) ++ trace).
Proof.
  induction threads as [|t threads IH]; intros pre Htr; [done|].
  cbn [map concat]. rewrite <- app_assoc.
  apply (interleaving_block _ (length pre) (hd [] t) (concat (tl t))).
  - rewrite lookup_app_r, Nat.sub_diag by lia. cbn. by destruct t.
  - rewrite insert_app_r_alt, Nat.sub_diag by lia. cbn [insert list_insert].
    change (pre ++ concat (tl t) :: map (concat (A:=_)) threads)
      with (pre ++ [concat (tl t)] ++ map (concat (A:=_)) threads).
    rewrite app_assoc. apply IH. by rewrite <- app_assoc.
Qed.

Lemma interleaving_Permutation {A} (logs : list (list A)) trace :
  interleaving logs trace -> trace ≡ₚ concat logs.
Proof.
  induction 1 as [logs Hall | logs k x l trace Hk _ IH].
  - induction Hall as [|l logs -> _ IH]; [done|]. by cbn.
  - rewrite IH. rewrite <- (take_drop_middle logs k (x :: l)) at 2 by done.
    rewrite insert_take_drop by (by eapply lookup_lt_Some).
    rewrite !concat_app. cbn [concat app].
    apply Permutation_middle.
Qed.


(** The effects of the dispatches of a drain, as the event loop orders
    them: the first turn of every dispatch, then the others as [sched]
    has them. *)
Lemma dispatchAll_run sched nets queue s :
  dispatchAll ToString sched nets queue s =
  (drain_outcomes ToString nets s queue,
   (if existsb failed (drain_outcomes ToString nets s queue) then stopped s else s),
   concat (map (hd []) (map turns (drain_logs ToString nets s queue))) ++
   interleave sched (map (tl (A:=_)) (map turns (drain_logs ToString nets s queue)))).
Proof.
  unfold dispatchAll, bind, tell, ret. cbn [fst snd].
  destruct (dispatchEach_spec nets s queue 0 s) as (Hrs & Hs & Hnil); [by left|].
  assert (Ho : map fst (dispatchEach ToString nets 0 queue s).1.1 =
               drain_outcomes ToString nets s queue).
  { rewrite Hrs. unfold drain_outcomes.
    change (map fst ?l) with (fst <$> l). by rewrite fmap_imap. }
  assert (Hl : map (fun r : dispatched * list effect => turns r.2)
                 (dispatchEach ToString nets 0 queue s).1.1 =
               map turns (drain_logs ToString nets s queue)).
  { rewrite Hrs. unfold drain_logs.
    change (map ?g ?l) with (g <$> l). by rewrite !fmap_imap. }
  rewrite Hs, Ho, Hl, Hnil. cbn [app]. by rewrite app_nil_r.
Qed.

Lemma dispatchAll_interleaving sched nets queue s :
  interleaving (drain_logs ToString nets s queue) (dispatchAll ToString sched nets queue s).2.
Proof.
  rewrite dispatchAll_run. cbn [snd].
  set (threads := map turns (drain_logs ToString nets s queue)).
  assert (Hc : map (concat (A:=_)) threads = drain_logs ToString nets s queue).
  { subst threads. rewrite map_map. rewrite <- (map_id (drain_logs _ _ _ _)) at 2.
    apply map_ext. intros l. apply concat_turns. }
  rewrite <- Hc. apply (interleaving_first_turns threads _ []).
  apply interleave_interleaving.
Qed.


Lemma handleAudioChunk_offline net audio s :
  handleAudioChunk ToString false net audio s =
  (None,
   set_storage (<[OFFLINE_QUEUE_KEY := VChunks (read_queue (storage s) ++ [audio])]>
                  (storage s)) s,
   status s "Offline. Buffering audio..." ++
   [StorageSet [(OFFLINE_QUEUE_KEY, VChunks (read_queue (storage s) ++ [audio]))]]).
Proof.
  unfold handleAudioChunk, addToOfflineQueue, queue_get, queue_put, updateStatus,
    storage_set, sendMessage, when, bind, gets, tell, modify, ret, status.
  cbn [negb fst snd]. destruct (runtime_id s); cbn [fst snd app]; by rewrite ?app_nil_r.
Qed.

Lemma updateStatus_run text s : updateStatus text s = (tt, s, status s text).
Proof.
  unfold updateStatus, sendMessage, when, bind, gets, tell, ret, status.
  cbn [fst snd]. by destruct (runtime_id s).
Qed.

Lemma storage_remove_run key s :
  storage_remove key s =
  (tt, set_storage (delete key (storage s)) s, [StorageRemove key]).
Proof. reflexivity. Qed.

Lemma stopped_queue s :
  storage (stopped s) !! OFFLINE_QUEUE_KEY = storage s !! OFFLINE_QUEUE_KEY.
Proof. unfold stopped. destruct (runtime_id s); [|done]. cbn. by rewrite lookup_insert_ne. Qed.

Lemma processOfflineQueue_empty sched nets s :
  read_queue (storage s) = [] ->
  processOfflineQueue ToString sched nets s = ([], s, []).
Proof.
  intros He. unfold processOfflineQueue, bind, gets, ret. cbn [fst snd].
  rewrite He. by cbn [length Nat.eqb fst snd app].
Qed.

Lemma processOfflineQueue_run sched nets s :
  read_queue (storage s) <> [] ->
  processOfflineQueue ToString sched nets s =
  (drain_outcomes ToString nets s (read_queue (storage s)),
   drained (if existsb failed (drain_outcomes ToString nets s (read_queue (storage s)))
            then stopped s else s),
   syncing s (length (read_queue (storage s))) ++
   (dispatchAll ToString sched nets (read_queue (storage s)) s).2 ++
   StorageRemove OFFLINE_QUEUE_KEY :: status s "Recording").
Proof.
  intros Hne. unfold processOfflineQueue, bind, gets, ret. cbn [fst snd].
  destruct (read_queue (storage s)) as [|c q] eqn:Hq; [done|].
  cbn [length Nat.eqb]. rewrite updateStatus_run. cbn [fst snd].
  rewrite dispatchAll_run. cbn [fst snd].
  rewrite storage_remove_run. cbn [fst snd]. rewrite updateStatus_run.
  cbn [fst snd]. unfold syncing, drained.
  assert (Hid : forall b : bool,
             runtime_id (set_storage (delete OFFLINE_QUEUE_KEY
                           (storage (if b then stopped s else s)))
                           (if b then stopped s else s)) = runtime_id s).
  { intros [|]; [|done]. cbn. by destruct (stopped_reads s) as (_ & _ & ->). }
  unfold status at 2. rewrite Hid. fold (status s "Recording").
  by rewrite ?app_nil_r, <- ?app_assoc.
Qed.


End Proofs.

(** The scenario of the specification: provider A fails, provider B
    answers with "hello"; the dispatch sends "hello" on and the provider
    after B is never invoked. *)
Lemma dispatch_in_order_first_success_witness :
  Forall (fun p => yields p chunk0 (apiKey worker0) = None) [provider_A] /\
  yields provider_B chunk0 (apiKey worker0) = Some (JString "hello") /\
  transcribeLoop ([provider_A] ++ provider_B :: [deepgram]) chunk0 [] worker0 =
  (Transcribed (JString "hello"), worker0,
   [Called "A"; Called "B"; Send (updateTranscript (JString "hello") "tab");
    Send (statusUpdate "Recording")]).
Proof.
  assert (H1 : Forall (fun p => yields p chunk0 (apiKey worker0) = None) [provider_A])
    by (repeat constructor).
  assert (H2 : yields provider_B chunk0 (apiKey worker0) = Some (JString "hello"))
    by reflexivity.
  split; [exact H1|]. split; [exact H2|].
  exact (proj2 (dispatch_in_order_first_success ToString0 unreachable chunk0 worker0)
           [provider_A] provider_B [deepgram] (JString "hello") [] H1 H2).
Defined.

(** On a network where every request fails, the configured chain ends
    with the three lines joined in provider order. *)
Lemma exhausted_chain_aggregates_witness :
  Forall (fun sv => yields sv chunk0 (apiKey worker0) = None)
    (services ToString0 unreachable) /\
  (transcribeLoop (services ToString0 unreachable) chunk0 [] worker0).1.1 =
    Failed "Transcription failed. Details: callGeminiApi: Failed to fetch; callWhisperApi: Whisper API not implemented.; callDeepgramApi: Deepgram API not implemented.".
Proof.
  assert (H : Forall (fun sv => yields sv chunk0 (apiKey worker0) = None)
                (services ToString0 unreachable))
    by (repeat constructor).
  split; [exact H|].
  pose proof (proj1 (exhausted_chain_aggregates ToString0
                       (services ToString0 unreachable) chunk0 worker0 H)) as Hrun.
  rewrite Hrun. reflexivity.
Defined.


End Dispatch.

Module Session.
Import JS Storage SessionSpec.

(** The state in which pause and resume are examined below is reached by
    starting a session and letting the timer tick five times. *)
Example five_seconds_in_state :
  Popup.recordingState five_seconds_in = Popup.recording /\
  Popup.secondsElapsed five_seconds_in = 5 /\
  Popup.area after_start !! "secondsElapsed" = Some (VNumber 0).
Proof. by vm_compute. Qed.

Section Proofs.
Variable ToString : json -> string.

Lemma startRecording_granted c s :
  start_granted c (Background.audioSource s) ->
  exists t streamId,
    Background.startRecording c s =
    (returns tt,
     Background.set_storage
       (Storage.set [("recordingState", VString "recording");
                     ("startTime", VNumber (Background.now c));
                     ("transcript", VTranscript [])]
          (Background.storage s))
       (Background.set_capturedTabId t s),
     (if Background.hasOffscreenDocument c then [] else [Background.CreateDocument]) ++
     [Background.Send (Background.startOffscreenRecording streamId (Background.audioSource s));
      Background.StorageSet
        [("recordingState", VString "recording");
         ("startTime", VNumber (Background.now c));
         ("transcript", VTranscript [])]]).
Proof.
  destruct s as [tabid key src st id]. cbn [Background.audioSource].
  intros [Hdoc Htab].
  unfold Background.startRecording, Background.setupOffscreenDocument,
    Background.acquire, Background.storage_set, Background.sendMessage,
    Background.bind, Background.gets, Background.tell, Background.modify,
    Background.ret.
  assert (Hsetup : (if negb (Background.hasOffscreenDocument c)
                    then Background.createDocument c else returns tt) = returns tt).
  { destruct Hdoc as [-> | Hc]; [done|].
    destruct (Background.hasOffscreenDocument c); [done | by rewrite Hc]. }
  destruct (String.eqb src "tab") eqn:Hsrc.
  - apply String.eqb_eq in Hsrc. subst src.
    destruct (Htab eq_refl) as (tab & streamId & Ha & Hg).
    exists (Some tab), (Some streamId).
    destruct (Background.hasOffscreenDocument c);
      cbn [negb fst snd Background.audioSource] in *;
      rewrite ?Hsetup; cbn [fst snd Background.audioSource String.eqb Ascii.eqb Bool.eqb];
      rewrite Ha; cbn [fst snd]; rewrite Hg; cbn [fst snd];
      reflexivity.
  - exists tabid, None.
    destruct (Background.hasOffscreenDocument c);
      cbn [negb fst snd Background.audioSource] in *;
      rewrite ?Hsetup; cbn [fst snd Background.audioSource]; rewrite ?Hsrc;
      cbn [fst snd]; reflexivity.
Qed.

(** C4, as the code has it: a start request handled while the persisted
    session is recording or paused is answered with success whenever
    the browser grants the capture, and the persisted state becomes
    recording, started now, with an empty transcript. A second start is
    kept away on both sides instead: from recording or paused the
    popup's control sends a stop request, never a start request, and
    the capture context ignores a start while its recorder is recording
    or paused. *)
Theorem start_overwrites_active_session :
  (forall c onLine net key source s,
      session_active (Background.storage s) ->
      start_granted c source ->
      let r := Background.onMessage ToString c onLine net
                 (Background.startRecordingRequest key source) s in
      r.1.1 = Some {| Background.success := true; Background.error_text := None |} /\
      Background.storage r.1.2 =
        <["transcript" := VTranscript []]>
          (<["startTime" := VNumber (Background.now c)]>
             (<["recordingState" := VString "recording"]> (Background.storage s)))) /\
  (forall now granted worker p st,
      Popup.recordingState p <> Popup.idle ->
      Popup.sent (Popup.handleStartStop now granted worker p st) =
        [Background.stopRecordingRequest]) /\
  (forall gum d r,
      Offscreen.mediaRecorder d = Some r ->
      Offscreen.state r <> Offscreen.inactive ->
      Offscreen.startRecording gum d = (d, [])).
Proof.
  split; [|split].
  - intros c onLine net key source s _ Hgrant r. subst r.
    unfold Background.onMessage, Background.bind, Background.modify, Background.ret.
    cbn [fst snd].
    destruct (startRecording_granted c (Background.set_request (Some key) source s))
      as (t & streamId & Hrun); [exact Hgrant|].
    rewrite Hrun. cbn [fst snd]. split; reflexivity.
  - intros now granted worker p st Hp. unfold Popup.handleStartStop.
    by destruct (Popup.recordingState p).
  - intros gum d r Hr Hs. unfold Offscreen.startRecording. rewrite Hr.
    by destruct (Offscreen.state r).
Qed.

(** C9, as the code has it: pausing a recording session and resuming it
    at the same instant leaves the popup's counter of elapsed seconds
    unchanged; the persisted secondsElapsed is then that counter, as
    written by the pause and left alone by the resume, so it is
    unchanged exactly when it already equalled the counter. *)
Theorem pause_resume_keeps_counter now p st :
  Popup.recordingState p = Popup.recording ->
  let o1 := Popup.handlePauseResume now p st in
  let o2 := pause_then_resume now p st in
  Popup.recordingState (Popup.vars o2) = Popup.recording /\
  Popup.secondsElapsed (Popup.vars o2) = Popup.secondsElapsed p /\
  Popup.area o2 !! "secondsElapsed" = Some (VNumber (Popup.secondsElapsed p)) /\
  Popup.area o2 !! "secondsElapsed" = Popup.area o1 !! "secondsElapsed" /\
  (Popup.area o2 !! "secondsElapsed" = st !! "secondsElapsed" <->
   st !! "secondsElapsed" = Some (VNumber (Popup.secondsElapsed p))).
Proof.
  intros Hrec o1 o2. subst o1 o2.
  unfold pause_then_resume, Popup.handlePauseResume. rewrite Hrec.
  cbn [Popup.vars Popup.area Popup.recordingState Popup.set_session
       Popup.secondsElapsed].
  unfold Storage.set. cbn [foldl fst snd].
  assert (Hlook : forall v1 v2 v3 v4 : stored,
    <["startTime" := v1]> (<["recordingState" := v2]>
      (<["pausedTime" := v3]> (<["secondsElapsed" := VNumber (Popup.secondsElapsed p)]>
        (<["recordingState" := v4]> st)))) !! "secondsElapsed"
    = Some (VNumber (Popup.secondsElapsed p))).
  { intros. by simplify_map_eq. }
  assert (Hlook1 : forall v3 v4 : stored,
      (<["pausedTime" := v3]> (<["secondsElapsed" := VNumber (Popup.secondsElapsed p)]>
        (<["recordingState" := v4]> st))) !! "secondsElapsed"
    = Some (VNumber (Popup.secondsElapsed p))).
  { intros. by simplify_map_eq. }
  rewrite Hlook, Hlook1. repeat split; congruence.
Qed.

End Proofs.

(** A start request handled while the session is recording is answered
    with success, and it replaces the persisted start time and
    transcript. *)
Lemma start_while_recording_not_rejected :
  session_active (Background.storage recording_session) /\
  ~ start_rejected recording_session
      (Background.onMessage DispatchSpec.ToString0 (chrome_at 5000) true
         DispatchSpec.unreachable
         (Background.startRecordingRequest "key" "tab") recording_session).
Proof.
  split; [by left; vm_compute|].
  intros (Hfail & _). vm_compute in Hfail. discriminate.
Qed.

Lemma start_overwrites_active_session_witness :
  (session_active (Background.storage recording_session) /\
   start_granted (chrome_at 5000) "tab" /\
   Background.storage
     (Background.onMessage DispatchSpec.ToString0 (chrome_at 5000) true
        DispatchSpec.unreachable
        (Background.startRecordingRequest "key" "tab") recording_session).1.2
   !! "startTime" = Some (VNumber 5000)) /\
  (Popup.recordingState five_seconds_in <> Popup.idle /\
   Popup.sent (Popup.handleStartStop 6000 true worker five_seconds_in
                 (Popup.area after_start)) = [Background.stopRecordingRequest]) /\
  (Offscreen.state {| Offscreen.state := Offscreen.recording; Offscreen.gathered := [] |}
     <> Offscreen.inactive /\
   Offscreen.startRecording Offscreen.stream_ok capturing = (capturing, [])).
Proof.
  assert (H1 : session_active (Background.storage recording_session))
    by (left; by vm_compute).
  assert (H2 : start_granted (chrome_at 5000) "tab").
  { split; [by left|]. intros _. by exists 7, "stream-1". }
  assert (H3 : Popup.recordingState five_seconds_in <> Popup.idle) by (by vm_compute).
  assert (H4 : Offscreen.state {| Offscreen.state := Offscreen.recording;
                                  Offscreen.gathered := [] |} <> Offscreen.inactive)
    by discriminate.
  pose proof (start_overwrites_active_session DispatchSpec.ToString0) as (T1 & T2 & T3).
  split; [|split].
  - split; [exact H1|]. split; [exact H2|].
    destruct (T1 (chrome_at 5000) true DispatchSpec.unreachable "key" "tab"
                recording_session H1 H2) as [_ Hst].
    rewrite Hst. by simplify_map_eq.
  - split; [exact H3|]. exact (T2 6000 true worker five_seconds_in _ H3).
  - split; [exact H4|]. exact (T3 Offscreen.stream_ok capturing _ eq_refl H4).
Defined.

(** Five seconds into a recording the persisted secondsElapsed is still
    the 0 written at start; after pause and immediate resume it is 5. *)
Lemma pause_resume_changes_persisted_seconds :
  Popup.recordingState five_seconds_in = Popup.recording /\
  Popup.area (pause_then_resume 6000 five_seconds_in (Popup.area after_start))
    !! "secondsElapsed"
  <> Popup.area after_start !! "secondsElapsed".
Proof.
  split; [by vm_compute|].
  intros H. vm_compute in H. discriminate.
Qed.

Lemma pause_resume_keeps_counter_witness :
  Popup.recordingState five_seconds_in = Popup.recording /\
  Popup.secondsElapsed
    (Popup.vars (pause_then_resume 6000 five_seconds_in (Popup.area after_start))) = 5 /\
  Popup.area (pause_then_resume 6000 five_seconds_in (Popup.area after_start))
    !! "secondsElapsed" = Some (VNumber 5).
Proof.
  assert (H : Popup.recordingState five_seconds_in = Popup.recording) by (by vm_compute).
  split; [exact H|].
  destruct (pause_resume_keeps_counter 6000 five_seconds_in (Popup.area after_start) H)
    as (_ & H2 & H3 & _).
  split; [exact H2 | exact H3].
Defined.

End Session.

(** ** The capture context: further properties *)
Module Capture.
Import Offscreen SegmentationSpec CaptureSpec Segmentation.

Section Proofs.
Variable conv : blob -> string.

Lemma HANGOVER_SAMPLES_8 : HANGOVER_SAMPLES = 8%nat.
Proof. reflexivity. Qed.

Lemma segments_from ps :
  forall ph g,
    wf ph -> frames_nonempty ps ->
    length (feed conv (doc_of ph g) ps).2 =
    ((if ahead ph (map fst ps) then 1 else 0) + segments (map fst ps))%nat.
Proof.
  induction ps as [|[db fr] ps IH]; intros ph g Hwf Hfr.
  - simpl. destruct ph as [|k]; [done|]. simpl in Hwf.
    unfold ahead, hang_ahead. rewrite HANGOVER_SAMPLES_8.
    do 8 (destruct k as [|k]; [done|]). lia.
  - apply Forall_cons in Hfr as [Hfr1 Hfr]. simpl in Hfr1.
    rewrite feed_cons. cbn [map fst snd segments].
    destruct (loud db) eqn:Hl.
    + rewrite period_loud by done. cbn [fst snd app].
      rewrite IH by (simpl; first [lia | done]).
      assert (Hno : ahead ph (db :: map fst ps) = false).
      { destruct ph as [|k]; [done|]. simpl in Hwf.
        unfold ahead, hang_ahead. rewrite HANGOVER_SAMPLES_8.
        do 8 (destruct k as [|k];
              [simpl; rewrite Hl; simpl; by rewrite ?andb_false_r|]).
        lia. }
      rewrite Hno. cbn [ahead andb]. lia.
    + cbn [andb]. destruct ph as [|k].
      * rewrite period_silent_idle by done. cbn [fst snd app].
        rewrite IH by done. done.
      * simpl in Hwf. destruct (decide (k = 7%nat)) as [->|Hne].
        -- rewrite period_silent_fire by done. cbn [fst snd app length].
           rewrite (IH Idle []) by done.
           unfold ahead, hang_ahead. rewrite HANGOVER_SAMPLES_8. simpl.
           by rewrite Hl.
        -- rewrite period_silent_speaking by (done || lia). cbn [fst snd app].
           rewrite IH by (simpl; first [lia | done]).
           f_equal. f_equal. unfold ahead, hang_ahead. rewrite HANGOVER_SAMPLES_8.
           do 7 (destruct k as [|k]; [simpl; by rewrite Hl|]). lia.
Qed.

(** Fed one sample per period, the loop sends exactly one chunk for every
    loud sample that is directly followed by a whole hangover of silent
    samples, and no other chunk. *)
Theorem one_chunk_per_segment ps :
  frames_nonempty ps ->
  length (feed conv started ps).2 = segments (map fst ps).
Proof.
  intros Hfr. change started with (doc_of Idle []).
  by rewrite segments_from.
Qed.

End Proofs.

Lemma one_chunk_per_segment_witness :
  frames_nonempty scenario /\
  length (feed (fun _ => "wav") started scenario).2 = segments (map fst scenario).
Proof.
  assert (H : frames_nonempty scenario).
  { unfold frames_nonempty, scenario. simpl.
    repeat (constructor; [discriminate|]). constructor. }
  split; [exact H | exact (one_chunk_per_segment (fun _ => "wav") scenario H)].
Defined.

End Capture.

(** ** The capture context on the event loop *)
Module CaptureLoop.
Import Offscreen OffscreenLoop CaptureSpec.

Section Proofs.
Variable conv : blob -> string.

Lemma page_run_app p es1 es2 :
  run conv p (es1 ++ es2) =
  let r1 := run conv p es1 in
  let r2 := run conv r1.1 es2 in
  (r2.1, r1.2 ++ r2.2).
Proof.
  revert p. induction es1 as [|e es1 IH]; intros p.
  - cbn. by destruct (run conv p es2).
  - cbn [app run]. destruct (step conv p e) as [p1 o1]. rewrite IH. cbn zeta.
    destruct (run conv p1 es1) as [p2 o2]. cbn [fst snd].
    destruct (run conv p2 es2) as [p3 o3]. cbn [fst snd]. by rewrite app_assoc.
Qed.

(** *** The pending timeout *)

Lemma onstop_begin_variables p : variables (onstop_begin p) = variables p.
Proof. unfold onstop_begin. by destruct (audioChunks (variables p)). Qed.

Lemma ondataavailable_fields data d :
  mediaRecorder (ondataavailable data d) = mediaRecorder d /\
  speechTimeout (ondataavailable data d) = speechTimeout d /\
  intervalOn (ondataavailable data d) = intervalOn d /\
  closed (ondataavailable data d) = closed d.
Proof. unfold ondataavailable. by destruct (0 <? size data)%nat. Qed.

Lemma recorder_stop_timeout p :
  speechTimeout (variables (recorder_stop p)) = speechTimeout (variables p).
Proof.
  unfold recorder_stop.
  destruct (mediaRecorder (variables p)) as [[st g]|]; [|done].
  destruct st; cbn [state gathered]; [done | |];
    rewrite onstop_begin_variables; cbn [variables with_variables];
    by destruct (ondataavailable_fields g
         (set_recorder (Some {| state := inactive; gathered := [] |}) (variables p)))
      as (_ & -> & _).
Qed.

Ltac pending_ok :=
  unfold timeout_guarded in *; cbn in *;
  first [ done
        | intros _; eexists; split; [reflexivity | done]
        | intros Hne; exfalso; by apply Hne
        | eauto ].

Lemma guarded_interval db d :
  timeout_guarded d -> timeout_guarded (interval_callback db d).
Proof.
  intros Hg. unfold interval_callback.
  destruct d as [[[st g]|] cs [t|] io cl]; cbn; try exact Hg;
    destruct st; cbn; try exact Hg; destruct (loud db); cbn; try exact Hg; pending_ok.
Qed.

Lemma guarded_encoded bytes d :
  timeout_guarded d -> timeout_guarded (encoded bytes d).
Proof.
  intros Hg. unfold encoded.
  destruct d as [[[st g]|] cs [t|] io cl]; cbn; try exact Hg;
    destruct st; cbn; try exact Hg; pending_ok.
Qed.

Lemma guarded_handle a d :
  a <> stopOffscreenRecording ->
  timeout_guarded d -> timeout_guarded (Offscreen.handleMessages conv a d).1.
Proof.
  intros Ha Hg. destruct a as [gum | | | |]; [|done| | |exact Hg].
  - cbn [Offscreen.handleMessages]. unfold startRecording.
    destruct d as [[[st g]|] cs [t|] io cl]; cbn; try exact Hg;
      try (destruct st; cbn; try exact Hg); destruct gum; cbn; try exact Hg; pending_ok.
    all: intros _; exfalso; destruct (Hg ltac:(done)) as (r & Hr & Hs);
      first [ by injection Hr as <- | done ].
  - destruct d as [[[st g]|] cs [t|] io cl]; cbn; try exact Hg;
      destruct st; cbn; try exact Hg; pending_ok.
  - destruct d as [[[st g]|] cs [t|] io cl]; cbn; try exact Hg;
      destruct st; cbn; try exact Hg; pending_ok.
Qed.

Lemma guarded_step p e :
  timeout_guarded (variables p) -> timeout_guarded (variables (step conv p e).1).
Proof.
  intros Hg. destruct e as [e | k b].
  - cbn [step]. destruct (closed (variables p)) eqn:Hcl; [done|].
    destruct e as [a | db | bytes | ms]; cbn [fst].
    + destruct a as [gum | | | |];
        try (cbn [handleMessages fst variables with_variables];
             by apply guarded_handle).
      cbn [handleMessages fst]. unfold stopRecording.
      cbn [variables with_variables]. intros Hne.
      cbn [speechTimeout set_closed] in Hne.
      rewrite recorder_stop_timeout in Hne. done.
    + destruct (intervalOn (variables p)); [|done].
      cbn [variables with_variables]. by apply guarded_interval.
    + cbn [variables with_variables]. by apply guarded_encoded.
    + unfold elapse. destruct (speechTimeout (variables p)) as [t|] eqn:Hsp; [|done].
      destruct (t <=? ms).
      * unfold timeout_callback. cbn [variables with_variables]. by intros Hne.
      * cbn [variables with_variables]. intros _. apply Hg. by rewrite Hsp.
  - cbn [step]. unfold onstop_resume.
    destruct (conversions p !! k) as [[ps [| |]]|]; try done. by destruct b.
Qed.

(** *** The data held *)

Lemma chained_snoc hs :
  forall prev ps,
    chained prev hs -> extends (default prev (last hs)) ps -> chained prev (hs ++ [ps]).
Proof.
  induction hs as [|h hs IH]; intros prev ps Hc He.
  - cbn in *. done.
  - cbn [app chained] in *. destruct Hc as [Hh Hc]. split; [done|].
    apply IH; [done|].
    destruct hs as [|h' hs]; [done|].
    change (last (h :: h' :: hs)) with (last (h' :: hs)) in He.
    destruct (last (h' :: hs)) eqn:E; [done|]. by apply last_None in E.
Qed.

Lemma held_insert p k ps st st' :
  conversions p !! k = Some {| parts := ps; settled := st |} ->
  map parts (<[k := {| parts := ps; settled := st' |}]> (conversions p)) = held p.
Proof.
  intros Hk. unfold held. change (map parts ?l) with (parts <$> l).
  rewrite list_fmap_insert. cbn [parts]. apply list_insert_id.
  by rewrite list_lookup_fmap, Hk.
Qed.

Lemma data_same p p' :
  audioChunks (variables p') = audioChunks (variables p) ->
  held p' = held p ->
  data_inv p -> data_inv p'.
Proof.
  intros Ha Hc (H1 & H2 & H3 & H4). unfold data_inv, carried_over in *.
  rewrite Ha, Hc. done.
Qed.

Lemma recorder_stop_cases p :
  recorder_stop p = p \/
  exists r,
    mediaRecorder (variables p) = Some r /\ state r <> inactive /\
    let chunks := audioChunks (variables p) ++
                  (if (0 <? size (gathered r))%nat then [gathered r] else []) in
    audioChunks (variables (recorder_stop p)) = chunks /\
    conversions (recorder_stop p) =
      conversions p ++
      match chunks with [] => [] | _ => [{| parts := chunks; settled := Pending |}] end.
Proof.
  unfold recorder_stop.
  destruct (mediaRecorder (variables p)) as [[st g]|] eqn:Hr; [|by left].
  destruct st; [by left | right | right];
    (eexists; split; [reflexivity|]; split; [done|]);
    cbn [state gathered]; unfold onstop_begin, ondataavailable;
    cbn [variables with_variables conversions];
    destruct (0 <? size g)%nat; cbn [audioChunks set_audioChunks set_recorder];
    rewrite ?app_nil_r;
    match goal with
    | |- context [match ?l with [] => _ | _ :: _ => _ end] => destruct l eqn:E
    end; cbn [variables conversions audioChunks set_audioChunks set_recorder];
    rewrite ?app_nil_r; try rewrite E; done.
Qed.

Lemma recorder_stop_data p : data_inv p -> data_inv (recorder_stop p).
Proof.
  intros Hinv. destruct (recorder_stop_cases p) as [-> | (r & Hr & Hs & Hac & Hcs)]; [done|].
  cbn zeta in Hac, Hcs. destruct Hinv as (Hw & Hch & Hne & Hco).
  set (new := if (0 <? size (gathered r))%nat then [gathered r] else []) in *.
  assert (Hnew : Forall (fun b : blob => (0 < size b)%nat) new /\ (length new <= 1)%nat).
  { subst new. destruct (0 <? size (gathered r))%nat eqn:Hsz;
      [|split; [constructor | simpl; lia]].
    apply Nat.ltb_lt in Hsz. split; [by repeat constructor | simpl; lia]. }
  destruct Hnew as [Hnew Hlen].
  unfold data_inv, carried_over, held. rewrite Hac, Hcs.
  destruct (audioChunks (variables p) ++ new) as [|b chunks] eqn:E.
  - rewrite app_nil_r. split; [done|]. split; [done|]. split; [done|]. by left.
  - rewrite <- E. change (map parts ?l) with (parts <$> l). rewrite fmap_app.
    change (parts <$> conversions p) with (held p). cbn [fmap list_fmap parts].
    split; [|split; [|split]].
    + apply Forall_app. split; [done|]. constructor; [|done].
      split; [by rewrite E|]. apply Forall_app. by split.
    + apply chained_snoc; [done|]. exists new. split; [done|].
      destruct Hco as [Hempty | Hlast].
      * left. by rewrite Hempty.
      * right. by rewrite Hlast.
    + apply Forall_app. by split.
    + right. by rewrite last_snoc.
Qed.

Lemma resume_data k b p : data_inv p -> data_inv (onstop_resume conv k b p).1.
Proof.
  intros Hinv. unfold onstop_resume.
  destruct (conversions p !! k) as [[ps [| |]]|] eqn:Hk; try done.
  destruct b; cbn [fst].
  - destruct Hinv as (Hw & Hch & _ & _).
    unfold data_inv, carried_over, held. cbn [variables conversions].
    erewrite held_insert by done. cbn [audioChunks set_audioChunks].
    split; [done|]. split; [done|]. split; [done|]. by left.
  - eapply data_same; [| |exact Hinv]; [done|].
    unfold held at 1. cbn [conversions]. by erewrite held_insert.
Qed.

Lemma chunks_interval db d : audioChunks (interval_callback db d) = audioChunks d.
Proof.
  unfold interval_callback.
  destruct d as [[[st g]|] cs [t|] io cl]; cbn; try done;
    destruct st; cbn; try done; by destruct (loud db).
Qed.

Lemma chunks_encoded bytes d : audioChunks (encoded bytes d) = audioChunks d.
Proof.
  unfold encoded. destruct d as [[[st g]|] cs [t|] io cl]; cbn; try done; by destruct st.
Qed.

Lemma handle_quiet a d :
  a <> stopOffscreenRecording ->
  audioChunks (Offscreen.handleMessages conv a d).1 = audioChunks d /\
  Forall (fun m => exists e, m = recordingError e) (Offscreen.handleMessages conv a d).2.
Proof.
  intros Ha. destruct a as [gum | | | |]; [|done| | |by split].
  - cbn [Offscreen.handleMessages]. unfold startRecording.
    destruct (match mediaRecorder d with Some r => _ | None => _ end); [by split|].
    destruct gum; cbn; [by split|]. split; [done|]. constructor; [by eexists|done].
  - cbn. destruct (mediaRecorder d) as [[st g]|]; [|by split]. by destruct st.
  - cbn. destruct (mediaRecorder d) as [[st g]|]; [|by split]. by destruct st.
Qed.

Lemma step_data p e : data_inv p -> data_inv (step conv p e).1.
Proof.
  intros Hinv. destruct e as [e | k b]; [|by apply resume_data].
  cbn [step]. destruct (closed (variables p)); [done|].
  destruct e as [a | db | bytes | ms]; cbn [fst].
  - destruct a as [gum | | | |];
      try (cbn [handleMessages fst]; eapply data_same; [| |exact Hinv]; [|done];
           cbn [variables with_variables]; by apply handle_quiet).
    cbn [handleMessages fst]. unfold stopRecording.
    eapply data_same; [| |apply recorder_stop_data]; [done | done |].
    eapply data_same; [| |exact Hinv]; done.
  - destruct (intervalOn (variables p)); [|done].
    eapply data_same; [| |exact Hinv]; [|done].
    cbn [variables with_variables]. apply chunks_interval.
  - eapply data_same; [| |exact Hinv]; [|done].
    cbn [variables with_variables]. apply chunks_encoded.
  - unfold elapse. destruct (speechTimeout (variables p)) as [t|]; [|done].
    destruct (t <=? ms).
    + unfold timeout_callback.
      eapply data_same; [| |apply recorder_stop_data, Hinv]; done.
    + eapply data_same; [| |exact Hinv]; done.
Qed.

(** *** The chunks sent *)

Lemma recorder_stop_appends p :
  exists extra, conversions (recorder_stop p) = conversions p ++ extra.
Proof.
  destruct (recorder_stop_cases p) as [-> | (r & _ & _ & _ & Hcs)].
  - exists []. by rewrite app_nil_r.
  - by eexists.
Qed.

Lemma runs_appends p e :
  exists extra, conversions (step conv p (Runs e)).1 = conversions p ++ extra.
Proof.
  cbn [step]. destruct (closed (variables p)); [exists []; by rewrite app_nil_r|].
  destruct e as [a | db | bytes | ms]; cbn [fst].
  - destruct a as [gum | | | |]; try (exists []; by rewrite app_nil_r).
    cbn [handleMessages fst]. unfold stopRecording. cbn [conversions with_variables].
    apply (recorder_stop_appends (with_variables _ p)).
  - exists []. rewrite app_nil_r. by destruct (intervalOn (variables p)).
  - exists []. by rewrite app_nil_r.
  - unfold elapse. destruct (speechTimeout (variables p)) as [t|];
      [|exists []; by rewrite app_nil_r].
    destruct (t <=? ms); [|exists []; by rewrite app_nil_r].
    unfold timeout_callback. cbn [conversions with_variables].
    apply recorder_stop_appends.
Qed.

Lemma step_keeps p e : keeps_fulfilled p (step conv p e).1.
Proof.
  intros c Hc Hf. destruct e as [e | k b].
  - destruct (runs_appends p e) as (extra & ->). apply elem_of_app. by left.
  - cbn [step]. unfold onstop_resume.
    destruct (conversions p !! k) as [[ps [| |]]|] eqn:Hk; try done.
    apply list_elem_of_lookup in Hc as (j & Hj).
    assert (j <> k) by (intros ->; rewrite Hk in Hj; injection Hj as <-; done).
    destruct b; cbn [fst conversions];
      apply (list_elem_of_lookup_2 _ j); by rewrite list_lookup_insert_ne.
Qed.

Lemma sent_from_keeps p p' m :
  keeps_fulfilled p p' -> sent_from conv p m -> sent_from conv p' m.
Proof.
  intros Hk. destruct m as [x|e]; [|done]. intros (c & Hc & Hf & ->).
  exists c. split; [by apply Hk | done].
Qed.

Lemma step_sent p e : Forall (sent_from conv (step conv p e).1) (step conv p e).2.
Proof.
  destruct e as [e | k b].
  - cbn [step]. destruct (closed (variables p)); [done|].
    destruct e as [a | db | bytes | ms]; cbn [snd]; try done.
    destruct a as [gum | | | |]; [|done| | |done];
      cbn [handleMessages snd];
      (eapply Forall_impl; [by apply handle_quiet|]); by intros m (e & ->).
  - cbn [step]. unfold onstop_resume.
    destruct (conversions p !! k) as [[ps [| |]]|] eqn:Hk; try done.
    destruct b; [|done]. cbn [fst snd]. constructor; [|done].
    exists {| parts := ps; settled := Fulfilled |}. split; [|done].
    cbn [conversions]. apply (list_elem_of_lookup_2 _ k).
    apply list_lookup_insert_eq. by eapply lookup_lt_Some.
Qed.

Lemma run_inv es :
  forall p,
    timeout_guarded (variables p) -> data_inv p ->
    timeout_guarded (variables (run conv p es).1) /\
    data_inv (run conv p es).1 /\
    keeps_fulfilled p (run conv p es).1 /\
    Forall (sent_from conv (run conv p es).1) (run conv p es).2.
Proof.
  induction es as [|e es IH]; intros p Hg Hd.
  - cbn [run fst snd]. split; [done|]. split; [done|]. split; [by intros c|done].
  - cbn [run].
    pose proof (guarded_step p e Hg) as Hg1. pose proof (step_data p e Hd) as Hd1.
    pose proof (step_keeps p e) as Hk1. pose proof (step_sent p e) as Hs1.
    destruct (step conv p e) as [p1 o1]. cbn [fst snd] in *.
    destruct (IH p1 Hg1 Hd1) as (Hg2 & Hd2 & Hk2 & Hs2).
    destruct (run conv p1 es) as [p2 o2]. cbn [fst snd] in *.
    split; [done|]. split; [done|]. split.
    + intros c Hc Hf. apply Hk2; [|done]. by apply Hk1.
    + apply Forall_app. split; [|done].
      eapply Forall_impl; [exact Hs1|]. intros m. by apply sent_from_keeps.
Qed.

Lemma opened_inv : timeout_guarded (variables opened) /\ data_inv opened.
Proof.
  split; [by intros Hne|]. unfold data_inv, carried_over, held. cbn.
  split; [constructor|]. split; [done|]. split; [constructor | by left].
Qed.


(** What a chunk holds. Whatever the page has run, every chunk that was
    sent is the conversion of the parts of a fulfilled conversion; the
    parts of a conversion are never empty; and each conversion holds the
    recording that was stopped, alone or after all the parts of the
    conversion started before it. The parts of that earlier conversion
    are in [audioChunks] until a conversion is fulfilled: a recording
    stopped before then is sent with them in front. *)
Theorem chunk_holds_unsettled_data_again es :
  let r := run conv opened es in
  Forall (sent_from conv r.1) r.2 /\
  Forall whole (held r.1) /\
  chained [] (held r.1) /\
  carried_over r.1.
Proof.
  intros r. subst r. destruct opened_inv as [Hg Hd].
  destruct (run_inv es opened Hg Hd) as (_ & (H1 & H2 & _ & H4) & _ & H5). done.
Qed.

(** *** Pause and resume *)

Lemma with_variables_same p : with_variables (variables p) p = p.
Proof. by destruct p. Qed.

Lemma paused_quiet es :
  forall p r,
    mediaRecorder (variables p) = Some r -> state r = paused ->
    closed (variables p) = false -> speechTimeout (variables p) = None ->
    Forall quiet es ->
    run conv p es = (p, []).
Proof.
  induction es as [|e es IH]; intros p r Hr Hs Hc Ht Hes; [done|].
  apply Forall_cons in Hes as [He Hes].
  assert (Hstep : step conv p e = (p, [])).
  { destruct e as [[a | db | bytes | ms] | k b]; try done; cbn [step]; rewrite Hc.
    - destruct (intervalOn (variables p)); [|done].
      unfold interval_callback. rewrite Hr, Hs. by rewrite with_variables_same.
    - unfold encoded. rewrite Hr, Hs. by rewrite with_variables_same.
    - unfold elapse. by rewrite Ht. }
  cbn [run]. rewrite Hstep. by rewrite (IH p r).
Qed.

(** A pause that reaches a recording recorder while no hangover timeout
    is pending, followed later by a resume, brings the page back exactly
    as it was: the samples taken, the data encoded and the time that
    passes in between leave no trace, and nothing is sent. *)
Theorem pause_resume_restores p r es :
  mediaRecorder (variables p) = Some r -> state r = recording ->
  closed (variables p) = false -> speechTimeout (variables p) = None ->
  Forall quiet es ->
  run conv p (Runs (Message pauseOffscreenRecording) :: es ++
              [Runs (Message resumeOffscreenRecording)])
  = (p, []).
Proof.
  intros Hr Hs Hc Ht Hes.
  destruct p as [[rec cs tm io cl] convs]. destruct r as [st g]. cbn in *. subst.
  cbn [run step variables closed handleMessages Offscreen.handleMessages
       mediaRecorder state gathered fst snd with_variables conversions].
  rewrite page_run_app. cbn zeta.
  rewrite (paused_quiet es _ {| state := paused; gathered := g |}) by done.
  reflexivity.
Qed.

(** *** Two recordings *)

Lemma page_run_cons p e es :
  run conv p (e :: es) =
  let r1 := step conv p e in
  let r2 := run conv r1.1 es in
  (r2.1, r1.2 ++ r2.2).
Proof.
  cbn [run]. destruct (step conv p e) as [p1 o1]. cbn zeta. cbn [fst snd].
  by destruct (run conv p1 es).
Qed.

Lemma onstop_begin_whole p :
  audioChunks (variables p) <> [] ->
  onstop_begin p =
  {| variables := variables p;
     conversions := conversions p ++
       [{| parts := audioChunks (variables p); settled := Pending |}] |}.
Proof. intros Hne. unfold onstop_begin. by destruct (audioChunks (variables p)). Qed.

Lemma recording_run l q b ac g0 cs :
  loud l = true -> loud q = false -> b <> [] ->
  run conv
    {| variables :=
         {| mediaRecorder := Some {| state := inactive; gathered := g0 |};
            audioChunks := ac; speechTimeout := None; intervalOn := true;
            closed := false |};
       conversions := cs |}
    (recording_of l q b) =
  ({| variables :=
        {| mediaRecorder := Some {| state := inactive; gathered := [] |};
           audioChunks := ac ++ [b]; speechTimeout := None; intervalOn := true;
           closed := false |};
      conversions := cs ++ [{| parts := ac ++ [b]; settled := Pending |}] |},
   []).
Proof.
  intros Hl Hq Hb.
  assert (Hsz : (0 <? size b)%nat = true)
    by (destruct b; [done | reflexivity]).
  assert (Hne : ac ++ [b] <> []) by (destruct ac; discriminate).
  set (rec st g tm :=
         {| variables :=
              {| mediaRecorder := Some {| state := st; gathered := g |};
                 audioChunks := ac; speechTimeout := tm; intervalOn := true;
                 closed := false |};
            conversions := cs |}).
  assert (H1 : step conv (rec inactive g0 None) (Runs (Interval l)) =
               (rec recording [] None, [])).
  { subst rec. cbv beta. cbn [step variables closed intervalOn]. unfold interval_callback.
    cbn [mediaRecorder state]. by rewrite Hl. }
  assert (H2 : step conv (rec recording [] None) (Runs (Encoded b)) =
               (rec recording b None, [])) by reflexivity.
  assert (H3 : step conv (rec recording b None) (Runs (Interval q)) =
               (rec recording b (Some SPEECH_TIMEOUT), [])).
  { subst rec. cbv beta. cbn [step variables closed intervalOn]. unfold interval_callback.
    cbn [mediaRecorder state]. by rewrite Hq. }
  assert (H4 : step conv (rec recording b (Some SPEECH_TIMEOUT))
                 (Runs (Elapse SPEECH_TIMEOUT)) =
               ({| variables :=
                     {| mediaRecorder := Some {| state := inactive; gathered := [] |};
                        audioChunks := ac ++ [b]; speechTimeout := None;
                        intervalOn := true; closed := false |};
                   conversions := cs ++ [{| parts := ac ++ [b]; settled := Pending |}] |},
                [])).
  { subst rec. cbv beta. cbn [step variables closed]. unfold elapse.
    cbn [variables speechTimeout].
    change (SPEECH_TIMEOUT <=? SPEECH_TIMEOUT) with true. cbn iota.
    unfold timeout_callback, recorder_stop.
    cbn [variables mediaRecorder state gathered with_variables conversions].
    unfold ondataavailable. rewrite Hsz.
    rewrite onstop_begin_whole by done. reflexivity. }
  subst rec. cbv beta in H1, H2, H3, H4. unfold recording_of.
  rewrite page_run_cons, H1. cbn zeta. cbn [fst snd].
  rewrite page_run_cons, H2. cbn zeta. cbn [fst snd].
  rewrite page_run_cons, H3. cbn zeta. cbn [fst snd].
  rewrite page_run_cons, H4. cbn zeta. cbn [fst snd run app]. reflexivity.
Qed.

(** Two recordings stopped by the hangover, one after the other. When the
    conversion of the first one is fulfilled before the second recording
    stops, each chunk is one recording. When it is still under way at
    that moment, the second chunk is the data of the first recording
    once more, followed by the second. *)
Theorem second_chunk_repeats_first l q b1 b2 :
  loud l = true -> loud q = false -> b1 <> [] -> b2 <> [] ->
  (run conv opened (two_recordings l q b1 b2 true)).2 =
    [processAudioChunk (conv (Blob [b1])); processAudioChunk (conv (Blob [b2]))] /\
  (run conv opened (two_recordings l q b1 b2 false)).2 =
    [processAudioChunk (conv (Blob [b1])); processAudioChunk (conv (Blob [b1; b2]))].
Proof.
  intros Hl Hq Hb1 Hb2. unfold two_recordings.
  assert (H0 : step conv opened (Runs (Message (startOffscreenRecording stream_ok))) =
               ({| variables :=
                     {| mediaRecorder := Some {| state := inactive; gathered := [] |};
                        audioChunks := []; speechTimeout := None; intervalOn := true;
                        closed := false |};
                   conversions := [] |}, [])) by reflexivity.
  assert (Hs0 : forall d ps rest,
             step conv {| variables := d;
                          conversions := {| parts := ps; settled := Pending |} :: rest |}
               (Settles 0 true) =
             ({| variables := set_audioChunks [] d;
                 conversions := {| parts := ps; settled := Fulfilled |} :: rest |},
              [processAudioChunk (conv (Blob ps))])) by reflexivity.
  assert (Hs1 : forall d c ps rest,
             step conv {| variables := d;
                          conversions := c :: {| parts := ps; settled := Pending |} :: rest |}
               (Settles 1 true) =
             ({| variables := set_audioChunks [] d;
                 conversions := c :: {| parts := ps; settled := Fulfilled |} :: rest |},
              [processAudioChunk (conv (Blob ps))])) by reflexivity.
  split; rewrite page_run_cons, H0; cbn zeta; cbn [fst snd];
    rewrite page_run_app, recording_run by done; cbn zeta; cbn [fst snd app].
  - rewrite page_run_cons, Hs0. cbn zeta. cbn [fst snd]. unfold set_audioChunks.
    cbn [mediaRecorder speechTimeout intervalOn closed].
    rewrite page_run_app, recording_run by done. cbn zeta. cbn [fst snd app].
    rewrite page_run_cons, Hs1. cbn zeta. cbn [fst snd run app]. reflexivity.
  - rewrite page_run_app, recording_run by done. cbn zeta. cbn [fst snd app].
    rewrite page_run_cons, Hs0. cbn zeta. cbn [fst snd].
    rewrite page_run_cons, Hs1. cbn zeta. cbn [fst snd run app]. reflexivity.
Qed.

(** *** The page and the document of [Offscreen] *)

Lemma resume_none p k :
  conversions p !! k = None -> onstop_resume conv k true p = (p, []).
Proof. intros Hk. unfold onstop_resume. by rewrite Hk. Qed.

Lemma recorder_stop_at_once p :
  let p1 := recorder_stop p in
  let r2 := onstop_resume conv (length (conversions p)) true p1 in
  (variables r2.1, r2.2) = Offscreen.recorder_stop conv (variables p) /\
  intervalOn (variables p1) = intervalOn (variables p) /\
  closed (variables p1) = closed (variables p).
Proof.
  destruct p as [[rec ac tm io cl] cs]. cbn zeta.
  assert (Hnone : cs !! length cs = None) by (apply lookup_ge_None_2; lia).
  unfold recorder_stop, Offscreen.recorder_stop. cbn [variables mediaRecorder].
  destruct rec as [[st g]|]; [|by rewrite resume_none].
  destruct st; cbn [state gathered]; [by rewrite resume_none | |];
    unfold ondataavailable, onstop_begin, onstop;
    destruct (0 <? size g)%nat; cbn [variables with_variables conversions set_recorder
      set_audioChunks audioChunks mediaRecorder speechTimeout intervalOn closed];
    try (destruct ac as [|a ac]; cbn [app]);
    try (by rewrite resume_none);
    unfold onstop_resume; cbn [conversions];
    rewrite list_lookup_middle by done; done.
Qed.

(** A handler of the page whose conversion, if it starts one, is
    fulfilled at once does what [Offscreen] has it do in one step. *)
Lemma settled_at_once p e :
  let r1 := step conv p (Runs e) in
  let r2 := step conv r1.1 (Settles (length (conversions p)) true) in
  (variables r2.1, r1.2 ++ r2.2) = Offscreen.step conv (variables p) e.
Proof.
  cbn zeta. cbn [step]. unfold Offscreen.step.
  assert (Hnone : conversions p !! length (conversions p) = None)
    by (apply lookup_ge_None_2; lia).
  destruct (closed (variables p)) eqn:Hcl; [by rewrite resume_none|].
  destruct e as [a | db | bytes | ms]; cbn [fst snd app].
  - destruct a as [gum | | | |];
      try (cbn [handleMessages fst snd]; rewrite resume_none by done;
           cbn [fst snd variables with_variables]; rewrite app_nil_r;
           by destruct (Offscreen.handleMessages conv _ (variables p))).
    cbn [handleMessages Offscreen.handleMessages fst snd app].
    unfold stopRecording, Offscreen.stopRecording.
    set (p0 := with_variables (set_speechTimeout None (set_intervalOn false (variables p))) p).
    destruct (recorder_stop_at_once p0) as (Heq & _). cbn zeta in Heq.
    change (variables p0) with (set_speechTimeout None (set_intervalOn false (variables p))) in Heq.
    change (conversions p0) with (conversions p) in Heq.
    rewrite <- Heq. unfold onstop_resume. cbn [conversions with_variables].
    destruct (conversions (recorder_stop p0) !! length (conversions p))
      as [[ps [| |]]|]; done.
  - rewrite resume_none by (by destruct (intervalOn (variables p))).
    by destruct (intervalOn (variables p)).
  - by rewrite resume_none.
  - unfold elapse, Offscreen.elapse.
    destruct (speechTimeout (variables p)) as [t|]; [|by rewrite resume_none].
    destruct (t <=? ms); [|by rewrite resume_none].
    unfold timeout_callback, Offscreen.timeout_callback.
    destruct (recorder_stop_at_once p) as (Heq & _). cbn zeta in Heq.
    rewrite <- Heq. unfold onstop_resume. cbn [conversions with_variables].
    destruct (conversions (recorder_stop p) !! length (conversions p))
      as [[ps [| |]]|]; done.
Qed.

End Proofs.

Lemma pause_resume_restores_witness :
  (mediaRecorder (variables mid_speech) =
     Some {| state := recording; gathered := [Byte.x01; Byte.x02] |} /\
   state {| state := recording; gathered := [Byte.x01; Byte.x02] |} = recording /\
   closed (variables mid_speech) = false /\
   speechTimeout (variables mid_speech) = None /\
   Forall quiet [Runs (Interval (inject_Z (-30))); Runs (Encoded [Byte.x03]);
                 Runs (Elapse 5000)]) /\
  run (fun _ => "wav") mid_speech
    (Runs (Message pauseOffscreenRecording) ::
     [Runs (Interval (inject_Z (-30))); Runs (Encoded [Byte.x03]); Runs (Elapse 5000)] ++
     [Runs (Message resumeOffscreenRecording)])
  = (mid_speech, []).
Proof.
  assert (H : Forall quiet [Runs (Interval (inject_Z (-30))); Runs (Encoded [Byte.x03]);
                            Runs (Elapse 5000)])
    by (repeat constructor).
  split; [by repeat split|].
  exact (pause_resume_restores (fun _ => "wav") mid_speech _ _
           eq_refl eq_refl eq_refl eq_refl H).
Defined.

Lemma second_chunk_repeats_first_witness :
  (loud (inject_Z (-30)) = true /\ loud (inject_Z (-60)) = false /\
   [Byte.x01] <> [] /\ [Byte.x02] <> []) /\
  (run (fun b => pretty (size b)) opened
     (two_recordings (inject_Z (-30)) (inject_Z (-60)) [Byte.x01] [Byte.x02] false)).2 =
    [processAudioChunk "1"; processAudioChunk "2"].
Proof.
  assert (H1 : loud (inject_Z (-30)) = true) by reflexivity.
  assert (H2 : loud (inject_Z (-60)) = false) by reflexivity.
  assert (H3 : [Byte.x01] <> ([] : blob)) by discriminate.
  assert (H4 : [Byte.x02] <> ([] : blob)) by discriminate.
  split; [by repeat split|].
  exact (proj2 (second_chunk_repeats_first (fun b => pretty (size b)) _ _ _ _ H1 H2 H3 H4)).
Defined.


End CaptureLoop.

(** ** The service worker: further properties *)
Module Worker.
Import JS Storage Background BackgroundEvents DispatchSpec WorkerSpec Dispatch.

Section Proofs.
Variable ToString : json -> string.

Lemma schedule_total url audio delay n :
  forall i,
    total (sleeps (schedule url audio delay i n)) =
    delay * (2 ^ Z.of_nat (i + n - 1) - 2 ^ Z.of_nat i) \/ n = 0%nat.
Proof.
  induction n as [|[|n] IH]; intros i; [by right | left | left].
  - simpl. replace (i + 1 - 1)%nat with i by lia. lia.
  - change (schedule url audio delay i (S (S n)))
      with (Fetch url audio :: Sleep (delay * 2 ^ Z.of_nat i)
              :: schedule url audio delay (S i) (S n)).
    change (sleeps (Fetch url audio :: Sleep (delay * 2 ^ Z.of_nat i)
              :: schedule url audio delay (S i) (S n)))
      with (delay * 2 ^ Z.of_nat i :: sleeps (schedule url audio delay (S i) (S n))).
    cbn [total foldr]. fold (total (sleeps (schedule url audio delay (S i) (S n)))).
    destruct (IH (S i)) as [-> | ?]; [|lia].
    replace (S i + S n - 1)%nat with (i + S (S n) - 1)%nat by lia.
    replace (Z.of_nat (S i)) with (Z.succ (Z.of_nat i)) by lia.
    rewrite Z.pow_succ_r by lia. lia.
Qed.

Lemma schedule_requests url audio delay n :
  forall i,
    fetched (schedule url audio delay i n) = repeat audio n /\
    urls (schedule url audio delay i n) = repeat url n.
Proof.
  induction n as [|[|n] IH]; intros i; [done | done |].
  change (schedule url audio delay i (S (S n)))
    with (Fetch url audio :: Sleep (delay * 2 ^ Z.of_nat i)
            :: schedule url audio delay (S i) (S n)).
  change (fetched (Fetch url audio :: Sleep (delay * 2 ^ Z.of_nat i)
            :: schedule url audio delay (S i) (S n)))
    with (audio :: fetched (schedule url audio delay (S i) (S n))).
  change (urls (Fetch url audio :: Sleep (delay * 2 ^ Z.of_nat i)
            :: schedule url audio delay (S i) (S n)))
    with (url :: urls (schedule url audio delay (S i) (S n))).
  destruct (IH (S i)) as [-> ->]. done.
Qed.

(** [callGeminiApi] with any [retries] and [delay]. With [retries = 0] it
    returns undefined without any request. Otherwise it sends between one
    and [retries] requests, with the backoff [delay * 2^i] after failed
    attempt [i], so after [n] requests it has waited
    [delay * (2^(n-1) - 1)] in all; it returns the body of the first
    attempt that succeeds, and it throws, with the error of the last
    attempt, only after all [retries] attempts have failed. *)
Theorem retry_schedule net audio key retries delay :
  let r := callGeminiApi ToString net audio key retries delay in
  (retries = 0%nat -> r = (returns undefined, [])) /\
  ((1 <= retries)%nat ->
   exists n,
     (1 <= n <= retries)%nat /\
     r.2 = schedule (API_URL key) audio delay 0 n /\
     total (sleeps r.2) = delay * (2 ^ Z.of_nat (n - 1) - 1) /\
     (forall j, (j < n - 1)%nat -> exists m, attempt ToString (net j) = throws m) /\
     match r.1 with
     | returns v => exists j, v = Some j /\ attempt ToString (net (n - 1)%nat) = returns j
     | throws m => n = retries /\ attempt ToString (net (n - 1)%nat) = throws m
     end).
Proof.
  intros r. subst r. split; [by intros ->|].
  intros Hpos. unfold callGeminiApi.
  destruct (attempts_spec ToString net (API_URL key) audio retries delay retries 0)
    as (n & Hn & Hlog & Hfail & Hres); [lia | lia |].
  exists n. split; [lia|]. split; [done|]. split; [|split].
  - rewrite Hlog. destruct (schedule_total (API_URL key) audio delay n 0) as [-> | ?]; [|lia].
    simpl. replace (Z.of_nat (n - 1)) with (Z.of_nat (0 + n - 1)) by lia. lia.
  - intros j Hj. apply Hfail. lia.
  - simpl in Hres. destruct Hres as [(j & Hj & ->) | (-> & m & Hm & ->)].
    + by exists j.
    + done.
Qed.

Lemma sends_app (a b : list effect) : sends (a ++ b) = sends a ++ sends b.
Proof. apply omap_app. Qed.
Lemma urls_app (a b : list effect) : urls (a ++ b) = urls a ++ urls b.
Proof. apply omap_app. Qed.
Lemma writes_app (a b : list effect) : writes (a ++ b) = writes a ++ writes b.
Proof. apply omap_app. Qed.
Lemma sleeps_app (a b : list effect) : sleeps (a ++ b) = sleeps a ++ sleeps b.
Proof. apply omap_app. Qed.

Lemma gemini_requests net audio key :
  exists n,
    (1 <= n <= 3)%nat /\
    (callGeminiApi ToString net audio key 3 1000).2 = schedule (API_URL key) audio 1000 0 n.
Proof.
  destruct (attempts_spec ToString net (API_URL key) audio 3 1000 3 0)
    as (n & Hn & Hlog & _); [lia | lia |].
  by exists n.
Qed.

Lemma schedule_silent url audio delay n i :
  sends (schedule url audio delay i n) = [] /\
  writes (schedule url audio delay i n) = [].
Proof.
  revert i. induction n as [|[|n] IH]; intros i; [done | done |].
  change (schedule url audio delay i (S (S n)))
    with (Fetch url audio :: Sleep (delay * 2 ^ Z.of_nat i)
            :: schedule url audio delay (S i) (S n)).
  apply (IH (S i)).
Qed.

Lemma dispatch_fetches net audio s :
  exists n,
    (1 <= n <= 3)%nat /\
    fetched (transcribeAudio ToString net audio s).2 = repeat audio n /\
    urls (transcribeAudio ToString net audio s).2 = repeat (API_URL (apiKey s)) n.
Proof.
  pose proof (transcribe_cases ToString net audio s) as Hc.
  destruct (gemini_requests net audio (apiKey s)) as (n & Hn & Hlog).
  destruct (schedule_requests (API_URL (apiKey s)) audio 1000 n 0) as [Hf Hu].
  exists n. split; [done|].
  destruct (yields (gemini ToString net) audio (apiKey s)) as [t|].
  - rewrite Hc. cbn [snd]. unfold call_log, gemini, delivery. cbn [name invoke].
    rewrite Hlog, fetched_app, urls_app.
    change (fetched (Called "callGeminiApi" :: ?l)) with (fetched l).
    change (urls (Called "callGeminiApi" :: ?l)) with (urls l).
    rewrite Hf, Hu. destruct (runtime_id s); by rewrite !app_nil_r.
  - cbn zeta in Hc. rewrite Hc. cbn [snd map concat].
    unfold call_log, gemini, whisper, deepgram, failure_report. cbn [name invoke].
    rewrite Hlog, !fetched_app, !urls_app.
    change (fetched (Called "callGeminiApi" :: ?l)) with (fetched l).
    change (urls (Called "callGeminiApi" :: ?l)) with (urls l).
    rewrite Hf, Hu. destruct (runtime_id s); cbn; by rewrite !app_nil_r.
Qed.

(** A dispatch sends its requests to the Gemini address built from the
    stored key and to no other address, between one and three of them, and
    each one carries the chunk being dispatched. *)
Theorem dispatch_requests net audio s :
  exists n,
    (1 <= n <= 3)%nat /\
    fetched (transcribeAudio ToString net audio s).2 = repeat audio n /\
    urls (transcribeAudio ToString net audio s).2 = repeat (API_URL (apiKey s)) n.
Proof. apply dispatch_fetches. Qed.

Lemma gemini_first_answer net audio key j :
  attempt ToString (net 0%nat) = returns j ->
  callGeminiApi ToString net audio key 3 1000 =
  (returns (Some j), [Fetch (API_URL key) audio]).
Proof. intros H. unfold callGeminiApi. cbn [attempts]. by rewrite H. Qed.

(** A response that is well-formed JSON but has no usable transcript is
    not retried: the dispatch sends that single request, waits for no
    backoff, and fails with Gemini's line saying that the response was
    empty or invalid, followed by the lines of the two placeholders. *)
Theorem invalid_response_not_retried net audio s j :
  attempt ToString (net 0%nat) = returns j ->
  truthy (transcript_of (Some j)) = false ->
  let r := transcribeAudio ToString net audio s in
  r.1.1 = Failed (aggregated
            ["callGeminiApi: Received an empty or invalid response.";
             "callWhisperApi: Whisper API not implemented.";
             "callDeepgramApi: Deepgram API not implemented."]) /\
  fetched r.2 = [audio] /\
  sleeps r.2 = [].
Proof.
  intros Hatt Hbad r. subst r.
  pose proof (transcribe_cases ToString net audio s) as Hc.
  pose proof (gemini_first_answer net audio (apiKey s) j Hatt) as Hg.
  assert (Hy : yields (gemini ToString net) audio (apiKey s) = None).
  { unfold yields, gemini. cbn [invoke]. rewrite Hg. cbn [fst]. by rewrite Hbad. }
  rewrite Hy in Hc. cbn zeta in Hc. rewrite Hc. cbn [fst snd map concat].
  unfold failure_line, last_error, call_log, gemini, whisper, deepgram, failure_report.
  cbn [name invoke]. rewrite Hg. cbn [fst snd].
  split; [done|]. destruct (runtime_id s); done.
Qed.

Lemma arrive_offline_queue net cs :
  forall s,
    read_queue (storage (arrive_offline ToString net cs s)) = read_queue (storage s) ++ cs /\
    runtime_id (arrive_offline ToString net cs s) = runtime_id s.
Proof.
  induction cs as [|c cs IH]; intros s.
  - simpl. by rewrite app_nil_r.
  - change (arrive_offline ToString net (c :: cs) s)
      with (arrive_offline ToString net cs (handleAudioChunk ToString false net c s).1.2).
    destruct (IH (handleAudioChunk ToString false net c s).1.2) as [-> ->].
    rewrite handleAudioChunk_offline. cbn [fst snd storage set_storage runtime_id].
    unfold read_queue at 1. rewrite lookup_insert_eq. by rewrite <- app_assoc.
Qed.

Lemma arrive_Arrives c ws s :
  arrive (Arrives c) ws s =
  (ws ++ [{| seen := read_queue (storage s); carried := c; suspended := true |}],
   s, status s "Offline. Buffering audio...").
Proof.
  unfold arrive, queue_get, bind, gets, ret. rewrite updateStatus_run.
  cbn [fst snd]. by rewrite app_nil_r.
Qed.

Lemma arrive_Resumes k ws s q c :
  ws !! k = Some {| seen := q; carried := c; suspended := true |} ->
  arrive (Resumes k) ws s =
  (<[k := {| seen := q; carried := c; suspended := false |}]> ws,
   set_storage (<[OFFLINE_QUEUE_KEY := VChunks (q ++ [c])]> (storage s)) s,
   [StorageSet [(OFFLINE_QUEUE_KEY, VChunks (q ++ [c]))]]).
Proof. intros Hk. unfold arrive. by rewrite Hk. Qed.

Lemma arrive_Resumes_idle k ws s :
  (forall q c, ws !! k <> Some {| seen := q; carried := c; suspended := true |}) ->
  arrive (Resumes k) ws s = (ws, s, []).
Proof.
  intros Hk. unfold arrive. destruct (ws !! k) as [[q c [|]]|] eqn:Hw; try done.
  by destruct (Hk q c).
Qed.

Lemma arrive_inv q0 a arr ws s :
  arrivals_inv q0 arr ws s ->
  arrivals_inv q0 (arr ++ arrived [a]) (arrive a ws s).1.1 (arrive a ws s).1.2.
Proof.
  intros (Hlen & (kept & Hkept & Hq) & Hws). destruct a as [c|k].
  - rewrite arrive_Arrives. cbn [fst snd arrived omap]. split; [|split].
    + rewrite !length_app. simpl. lia.
    + exists kept. split; [by apply sublist_inserts_r | done].
    + intros k w Hk. apply lookup_app_Some in Hk as [Hk | [Hge Hk]].
      * destruct (Hws k w Hk) as (Ha & l & Hl & Hs).
        pose proof (lookup_lt_Some _ _ _ Ha) as Hlt.
        split; [by rewrite lookup_app_l|].
        exists l. split; [|done]. rewrite take_app_le by lia. done.
      * apply list_lookup_singleton_Some in Hk as [Hk <-].
        assert (k = length arr) as -> by lia. cbn [carried seen].
        split; [by rewrite lookup_app_r, Nat.sub_diag by lia|].
        exists kept. split; [|done]. by rewrite take_app_length.
  - cbn [arrived omap]. rewrite app_nil_r.
    destruct (ws !! k) as [[q c [|]]|] eqn:Hk.
    + rewrite (arrive_Resumes k ws s q c Hk). cbn [fst snd].
      destruct (Hws k _ Hk) as (Ha & l & Hl & Hs). cbn [carried seen] in Ha, Hs.
      split; [|split].
      * by rewrite length_insert.
      * exists (l ++ [c]). split.
        -- rewrite <- (take_drop_middle arr k c Ha).
           apply sublist_app; [done|]. apply sublist_skip. apply sublist_nil_l.
        -- unfold read_queue. cbn [storage set_storage]. rewrite lookup_insert_eq.
           by rewrite Hs, <- app_assoc.
      * intros j w Hj. destruct (decide (j = k)) as [->|Hne].
        -- rewrite list_lookup_insert_eq in Hj by (by eapply lookup_lt_Some).
           injection Hj as <-. cbn [carried seen]. split; [done|]. by exists l.
        -- rewrite list_lookup_insert_ne in Hj by done. by apply Hws.
    + rewrite arrive_Resumes_idle by (intros q' c'; by rewrite Hk).
      cbn [fst snd]. split; [done|]. split; [by exists kept | done].
    + rewrite arrive_Resumes_idle by (intros q' c'; by rewrite Hk).
      cbn [fst snd]. split; [done|]. split; [by exists kept | done].
Qed.

Lemma arrivals_inv_run q0 turns :
  forall arr ws s,
    arrivals_inv q0 arr ws s ->
    arrivals_inv q0 (arr ++ arrived turns) (arrivals turns ws s).1.1 (arrivals turns ws s).1.2.
Proof.
  induction turns as [|a turns IH]; intros arr ws s Hinv.
  - cbn. by rewrite app_nil_r.
  - cbn [arrivals]. unfold bind. cbn [fst snd].
    pose proof (arrive_inv q0 a arr ws s Hinv) as H1.
    pose proof (IH _ _ _ H1) as H2.
    replace (arr ++ arrived (a :: turns)) with ((arr ++ arrived [a]) ++ arrived turns); [done|].
    rewrite <- app_assoc. f_equal. unfold arrived.
    change (a :: turns) with ([a] ++ turns). by rewrite omap_app.
Qed.

Lemma one_by_one_run net cs :
  forall ws s,
    (arrivals (one_by_one (length ws) cs) ws s).1.2 = arrive_offline ToString net cs s.
Proof.
  induction cs as [|c cs IH]; intros ws s; [done|].
  cbn [one_by_one arrivals]. unfold bind. cbn [fst snd].
  rewrite arrive_Arrives. cbn [fst snd].
  rewrite (arrive_Resumes (length ws) _ s (read_queue (storage s)) c)
    by (by rewrite lookup_app_r, Nat.sub_diag by lia).
  cbn [fst snd].
  change (arrive_offline ToString net (c :: cs) s)
    with (arrive_offline ToString net cs (handleAudioChunk ToString false net c s).1.2).
  rewrite handleAudioChunk_offline. cbn [fst snd].
  match goal with |- context [arrivals _ ?w _] => set (ws' := w) end.
  replace (S (length ws)) with (length ws')
    by (subst ws'; rewrite length_insert, length_app; simpl; lia).
  apply IH.
Qed.

(** Chunks that arrive while offline. Whatever the order in which the
    arrivals read and write the stored queue, the queue afterwards is the
    queue of before followed by arrived chunks in arrival order: no chunk
    is queued twice, out of order, or without having arrived. Arrivals
    that do not overlap are all queued, and are what [handleAudioChunk]
    run chunk by chunk gives. Of two arrivals that both read before
    either writes, only the second is queued: the first chunk is lost. *)
Theorem offline_queue_keeps_order_not_chunks s :
  (forall turns,
      exists kept,
        sublist kept (arrived turns) /\
        read_queue (storage (arrivals turns [] s).1.2) = read_queue (storage s) ++ kept) /\
  (forall net cs,
      (arrivals (one_by_one 0 cs) [] s).1.2 = arrive_offline ToString net cs s /\
      read_queue (storage (arrive_offline ToString net cs s)) = read_queue (storage s) ++ cs) /\
  (forall c1 c2,
      read_queue (storage (arrivals (overlapping c1 c2) [] s).1.2)
      = read_queue (storage s) ++ [c2]).
Proof.
  split; [|split].
  - intros turns.
    destruct (arrivals_inv_run (read_queue (storage s)) turns [] [] s) as (_ & Hk & _).
    + split; [done|]. split; [|done]. exists []. split; [done|]. by rewrite app_nil_r.
    + done.
  - intros net cs. split; [apply (one_by_one_run net cs [] s)|].
    by destruct (arrive_offline_queue net cs s).
  - intros c1 c2. unfold overlapping. cbn [arrivals]. unfold bind, ret. cbn [fst snd].
    rewrite !arrive_Arrives. cbn [fst snd app].
    rewrite (arrive_Resumes 0 _ s (read_queue (storage s)) c1) by done.
    cbn [fst snd insert list_insert].
    rewrite (arrive_Resumes 1 _ _ (read_queue (storage s)) c2) by done.
    cbn [fst snd]. unfold read_queue at 1. cbn [storage set_storage].
    by rewrite lookup_insert_eq.
Qed.

(** A drain right after a drain finds nothing: it dispatches nothing,
    writes nothing and sends nothing, so no chunk is dispatched twice. *)
Theorem second_drain_does_nothing sched sched' nets nets' s :
  let s1 := (processOfflineQueue ToString sched nets s).1.2 in
  processOfflineQueue ToString sched' nets' s1 = ([], s1, []).
Proof.
  intros s1. apply processOfflineQueue_empty.
  subst s1. destruct (decide (read_queue (storage s) = [])) as [He|Hne].
  - by rewrite processOfflineQueue_empty.
  - rewrite processOfflineQueue_run by done. cbn [fst snd].
    unfold read_queue, drained. cbn [storage set_storage]. by rewrite lookup_delete_eq.
Qed.

(** A chunk handled while online never touches the offline queue. When
    Gemini yields a transcript the worker's variables and storage are left
    as they were; when the dispatch fails and the extension context is
    valid, the session is stopped: idle is persisted, the captured tab is
    forgotten, and the error is sent before the stop messages. *)
Theorem online_chunk_outcome net audio s :
  let r := handleAudioChunk ToString true net audio s in
  storage r.1.2 !! OFFLINE_QUEUE_KEY = storage s !! OFFLINE_QUEUE_KEY /\
  match r.1.1 with
  | Some (Transcribed t) =>
      r.1.2 = s /\ yields (gemini ToString net) audio (apiKey s) = Some t
  | Some (Failed e) =>
      (runtime_id s = true ->
       storage r.1.2 !! "recordingState" = Some (VString "idle") /\
       capturedTabId r.1.2 = None /\
       sends r.2 = [statusUpdate "Transcribing..."; error e; stopOffscreenRecording;
                    recordingStopped])
  | None => False
  end.
Proof.
  intros r. subst r. unfold handleAudioChunk. cbn [negb]. unfold bind, ret.
  rewrite updateStatus_run. cbn [fst snd].
  pose proof (transcribe_cases ToString net audio s) as Hc.
  destruct (gemini_requests net audio (apiKey s)) as (n & _ & Hlog).
  destruct (schedule_silent (API_URL (apiKey s)) audio 1000 n 0) as [Hs _].
  destruct (yields (gemini ToString net) audio (apiKey s)) as [t|].
  - rewrite Hc. cbn [fst snd]. done.
  - cbn zeta in Hc. rewrite Hc. cbn [fst snd]. split.
    + unfold stopped. destruct (runtime_id s); [|done]. simpl. by rewrite lookup_insert_ne.
    + intros Hid. unfold stopped, failure_report, status. rewrite Hid.
      cbn [storage set_storage set_capturedTabId capturedTabId].
      split; [by rewrite lookup_insert_eq|]. split; [done|].
      cbn [map concat]. unfold call_log, gemini, whisper, deepgram. cbn [name invoke].
      rewrite Hlog, !sends_app.
      change (sends (Called "callGeminiApi" :: ?l)) with (sends l).
      by rewrite Hs.
Qed.

Lemma turns_head n u a rest :
  hd [] (turns (Called n :: Fetch u a :: rest)) = [Called n; Fetch u a].
Proof. cbn [turns]. by destruct (turns rest). Qed.

Lemma first_turn net audio s :
  hd [] (turns (transcribeAudio ToString net audio s).2) =
  [Called "callGeminiApi"; Fetch (API_URL (apiKey s)) audio].
Proof.
  pose proof (transcribe_cases ToString net audio s) as Hc.
  destruct (gemini_requests net audio (apiKey s)) as (n & Hn & Hlog).
  assert (Hsch : exists rest,
             schedule (API_URL (apiKey s)) audio 1000 0 n =
             Fetch (API_URL (apiKey s)) audio :: rest).
  { destruct n as [|[|n]]; [lia | by eexists | by eexists]. }
  destruct Hsch as (rest & Hsch).
  assert (Hshape : exists X,
             (transcribeAudio ToString net audio s).2 =
             Called "callGeminiApi" :: Fetch (API_URL (apiKey s)) audio :: X).
  { destruct (yields (gemini ToString net) audio (apiKey s)) as [t|].
    - rewrite Hc. cbn [snd]. unfold call_log, gemini. cbn [name invoke].
      rewrite Hlog, Hsch. cbn [app]. by eexists.
    - cbn zeta in Hc. rewrite Hc. cbn [snd map concat].
      unfold call_log, gemini, whisper, deepgram. cbn [name invoke].
      rewrite Hlog, Hsch. cbn [app]. by eexists. }
  destruct Hshape as (X & ->). apply turns_head.
Qed.

Lemma first_turns_fetched (f : nat -> string -> list effect) url :
  forall queue,
    (forall i c, hd [] (turns (f i c)) = [Called "callGeminiApi"; Fetch url c]) ->
    fetched (concat (map (hd []) (map turns (imap f queue)))) = queue.
Proof.
  intros queue. revert f. induction queue as [|c queue IH]; intros f Hf; [done|].
  rewrite imap_cons. cbn [map concat]. rewrite fetched_app, Hf.
  rewrite IH by (intros i c'; apply Hf). done.
Qed.

Lemma logs_fetched (f : nat -> string -> list effect) :
  forall queue,
    (forall i c, exists n, (1 <= n <= 3)%nat /\ fetched (f i c) = repeat c n) ->
    exists ns,
      length ns = length queue /\
      Forall (fun n => (1 <= n <= 3)%nat) ns /\
      fetched (concat (imap f queue)) = concat (zip_with (fun c n => repeat c n) queue ns).
Proof.
  intros queue. revert f. induction queue as [|c queue IH]; intros f Hf.
  - by exists [].
  - destruct (Hf 0%nat c) as (n & Hn & Hfn).
    destruct (IH (f ∘ S)) as (ns & Hlen & Hns & Hfs); [intros i c'; apply Hf|].
    exists (n :: ns). split; [simpl; by rewrite Hlen|]. split; [by constructor|].
    rewrite imap_cons. cbn [concat zip_with]. by rewrite fetched_app, Hfn, Hfs.
Qed.

(** The requests of a drain. The first requests are one for each queued
    chunk, in queue order: every dispatch sends its first request before
    any answer is handled. In all, each queued chunk is requested from
    one to three times and nothing that was not queued is requested; the
    order of the later requests is that of the answers and timers. *)
Theorem drain_requests_every_chunk sched nets s :
  let queue := read_queue (storage s) in
  let requests := fetched (processOfflineQueue ToString sched nets s).2 in
  take (length queue) requests = queue /\
  exists ns,
    length ns = length queue /\
    Forall (fun n => (1 <= n <= 3)%nat) ns /\
    requests ≡ₚ concat (zip_with (fun c n => repeat c n) queue ns).
Proof.
  intros queue requests. subst queue requests.
  destruct (decide (read_queue (storage s) = [])) as [He|Hne].
  - rewrite processOfflineQueue_empty by done. rewrite He. split; [done|]. by exists [].
  - rewrite processOfflineQueue_run by done. cbn [snd].
    assert (Hst : forall t, fetched (status s t) = [])
      by (intros t; unfold status; by destruct (runtime_id s)).
    rewrite !fetched_app. unfold syncing. rewrite Hst. cbn [app].
    change (fetched (StorageRemove OFFLINE_QUEUE_KEY :: ?l)) with (fetched l).
    rewrite Hst, app_nil_r. split.
    + rewrite dispatchAll_run. cbn [snd]. rewrite fetched_app. unfold drain_logs.
      rewrite (first_turns_fetched _ (API_URL (apiKey s)))
        by (intros i c; apply first_turn).
      apply take_app_length.
    + destruct (logs_fetched
                  (fun k c => (transcribeAudio ToString (nets k) c s).2)
                  (read_queue (storage s))) as (ns & Hlen & Hns & Hf).
      { intros i c. destruct (dispatch_fetches (nets i) c s) as (n & Hn & Hfn & _).
        by exists n. }
      exists ns. split; [done|]. split; [done|].
      rewrite <- Hf. unfold fetched at 1.
      rewrite (interleaving_Permutation _ _
                 (dispatchAll_interleaving ToString sched nets (read_queue (storage s)) s)).
      done.
Qed.

Lemma transcribe_orphaned net audio s :
  runtime_id s = false ->
  (transcribeAudio ToString net audio s).1.2 = s /\
  sends (transcribeAudio ToString net audio s).2 = [] /\
  writes (transcribeAudio ToString net audio s).2 = [].
Proof.
  intros Hid.
  pose proof (transcribe_cases ToString net audio s) as Hc.
  destruct (gemini_requests net audio (apiKey s)) as (n & _ & Hlog).
  destruct (schedule_silent (API_URL (apiKey s)) audio 1000 n 0) as [Hs Hw].
  destruct (yields (gemini ToString net) audio (apiKey s)) as [t|].
  - rewrite Hc. cbn [fst snd]. split; [done|].
    unfold call_log, gemini, delivery. cbn [name invoke]. rewrite Hlog, Hid.
    rewrite sends_app, writes_app.
    change (sends (Called "callGeminiApi" :: ?l)) with (sends l).
    change (writes (Called "callGeminiApi" :: ?l)) with (writes l).
    by rewrite Hs, Hw.
  - cbn zeta in Hc. rewrite Hc. cbn [fst snd map concat].
    unfold stopped, failure_report. rewrite Hid. split; [done|].
    unfold call_log, gemini, whisper, deepgram. cbn [name invoke].
    rewrite Hlog, !sends_app, !writes_app.
    change (sends (Called "callGeminiApi" :: ?l)) with (sends l).
    change (writes (Called "callGeminiApi" :: ?l)) with (writes l).
    by rewrite Hs, Hw.
Qed.

Lemma interleaving_sends logs trace :
  interleaving logs trace ->
  Forall (fun l => sends l = []) logs ->
  sends trace = [].
Proof.
  intros Htr Hall.
  assert (Hc : sends (concat logs) = []).
  { clear Htr. induction Hall as [|l logs Hl _ IH]; [done|].
    cbn [concat]. by rewrite sends_app, Hl, IH. }
  apply Permutation_nil_r. rewrite <- Hc. unfold sends.
  by rewrite (interleaving_Permutation _ _ Htr).
Qed.

Lemma dispatchAll_orphaned sched nets queue s :
  runtime_id s = false ->
  (dispatchAll ToString sched nets queue s).1.2 = s /\
  sends (dispatchAll ToString sched nets queue s).2 = [].
Proof.
  intros Hid. split.
  - rewrite dispatchAll_run. cbn [fst snd]. unfold stopped. rewrite Hid.
    by destruct (existsb _ _).
  - eapply interleaving_sends; [apply dispatchAll_interleaving|].
    unfold drain_logs. apply list.Forall_forall. intros l Hl.
    apply elem_of_lookup_imap in Hl as (k & c & -> & _).
    by destruct (transcribe_orphaned (nets k) c s Hid) as (_ & -> & _).
Qed.

(** Once the extension context is invalid ([chrome.runtime.id] is gone),
    stopping and error handling do nothing at all, and neither chunk
    handling nor a drain sends any message; a dispatch that fails then
    leaves the persisted session as it was. *)
Theorem orphaned_worker_is_silent s :
  runtime_id s = false ->
  stopRecording s = (tt, s, []) /\
  (forall e, handleError e s = (tt, s, [])) /\
  (forall onLine net audio, sends (handleAudioChunk ToString onLine net audio s).2 = []) /\
  (forall net audio, (transcribeAudio ToString net audio s).1.2 = s) /\
  (forall sched nets, sends (processOfflineQueue ToString sched nets s).2 = []).
Proof.
  intros Hid. split; [|split; [|split; [|split]]].
  - unfold stopRecording, bind, gets, when, ret. cbn [fst snd]. by rewrite Hid.
  - intros e. rewrite handleError_run. unfold stopped, failure_report. by rewrite Hid.
  - intros [|] net audio.
    + unfold handleAudioChunk. cbn [negb]. unfold bind, ret.
      rewrite updateStatus_run. cbn [fst snd].
      destruct (transcribe_orphaned net audio s Hid) as (_ & Hm & _).
      rewrite !sends_app, Hm. unfold status. by rewrite Hid.
    + rewrite handleAudioChunk_offline. cbn [snd]. rewrite sends_app.
      unfold status. by rewrite Hid.
  - intros net audio. by apply transcribe_orphaned.
  - intros sched nets.
    destruct (decide (read_queue (storage s) = [])) as [He|Hne].
    + by rewrite processOfflineQueue_empty.
    + rewrite processOfflineQueue_run by done. cbn [snd].
      destruct (dispatchAll_orphaned sched nets (read_queue (storage s)) s Hid) as [_ Hm].
      rewrite !sends_app, Hm. unfold syncing, status. by rewrite Hid.
Qed.

Lemma stopRecording_run s :
  stopRecording s =
  (tt, stopped s,
   if runtime_id s then
     [Send stopOffscreenRecording; StorageSet [("recordingState", VString "idle")];
      Send recordingStopped]
   else []).
Proof.
  unfold stopRecording, storage_set, sendMessage, when, bind, gets, tell, modify,
    ret, stopped.
  cbn [fst snd]. destruct (runtime_id s) eqn:Hid; cbn [fst snd app]; [|done].
  rewrite ?Hid. cbn [fst snd app]. by rewrite ?Hid.
Qed.

(** Stopping persists idle and forgets the captured tab, and nothing else:
    the transcript, the start time, the offline queue, the key and the
    source are kept. Stopping again changes nothing more, although the
    stop messages are sent again. *)
Theorem stop_keeps_session_data s :
  runtime_id s = true ->
  let s1 := (stopRecording s).1.2 in
  storage s1 = <["recordingState" := VString "idle"]> (storage s) /\
  (forall k, k <> "recordingState" -> storage s1 !! k = storage s !! k) /\
  capturedTabId s1 = None /\ apiKey s1 = apiKey s /\ audioSource s1 = audioSource s /\
  (stopRecording s1).1.2 = s1 /\
  sends (stopRecording s1).2 = [stopOffscreenRecording; recordingStopped].
Proof.
  intros Hid s1. subst s1. rewrite !stopRecording_run. cbn [fst snd].
  unfold stopped. rewrite Hid. cbn [storage set_storage set_capturedTabId capturedTabId
    apiKey audioSource runtime_id]. rewrite Hid.
  split; [done|]. split; [intros k Hk; by rewrite lookup_insert_ne|].
  split; [done|]. split; [done|]. split; [done|].
  split; [|done]. cbn [storage set_storage set_capturedTabId capturedTabId
    apiKey audioSource runtime_id]. by rewrite insert_insert_eq.
Qed.

Lemma start_dichotomy c source :
  SessionSpec.start_granted c source \/ exists m, start_refused c source m.
Proof.
  unfold SessionSpec.start_granted, start_refused.
  destruct (hasOffscreenDocument c) eqn:Hdoc.
  - destruct (String.eqb source "tab") eqn:Hsrc.
    + apply String.eqb_eq in Hsrc.
      destruct (activeTab c) as [tab|] eqn:Ha.
      * destruct (getMediaStreamId c) as [sid|m] eqn:Hg.
        -- left. split; [by left|]. intros _. by exists tab, sid.
        -- right. exists m. right. split; [by left|]. split; [done|]. right. by exists tab.
      * right. eexists. right. split; [by left|]. split; [done|]. by left.
    + apply String.eqb_neq in Hsrc. left. split; [by left|]. done.
  - destruct (createDocument c) as [[]|m] eqn:Hc.
    + destruct (String.eqb source "tab") eqn:Hsrc.
      * apply String.eqb_eq in Hsrc.
        destruct (activeTab c) as [tab|] eqn:Ha.
        -- destruct (getMediaStreamId c) as [sid|m] eqn:Hg.
           ++ left. split; [by right|]. intros _. by exists tab, sid.
           ++ right. exists m. right. split; [by right|]. split; [done|]. right. by exists tab.
        -- right. eexists. right. split; [by right|]. split; [done|]. by left.
      * apply String.eqb_neq in Hsrc. left. split; [by right|]. done.
    + right. exists m. by left.
Qed.

Lemma startRecording_refused c s m :
  start_refused c (audioSource s) m ->
  exists t,
    startRecording c s =
    (throws m, stopped (set_capturedTabId t s),
     (if hasOffscreenDocument c then [] else [CreateDocument]) ++
     failure_report s m).
Proof.
  destruct s as [tabid key src st id]. cbn [audioSource].
  unfold startRecording, setupOffscreenDocument, acquire, bind, gets, tell, modify, ret.
  intros [[Hdoc Hc] | (Hsetup & -> & Htab)].
  - exists tabid. rewrite Hdoc, Hc. cbn [negb fst snd]. rewrite handleError_run.
    cbn [fst snd app]. by destruct id.
  - assert (Hs : (if negb (hasOffscreenDocument c) then createDocument c else returns tt)
                 = returns tt).
    { destruct Hsetup as [-> | Hc]; [done|].
      destruct (hasOffscreenDocument c); [done | by rewrite Hc]. }
    destruct Htab as [[Ha ->] | (tab & Ha & Hg)].
    + exists tabid.
      destruct (hasOffscreenDocument c); cbn [negb fst snd audioSource] in *;
        rewrite ?Hs; cbn [fst snd audioSource String.eqb Ascii.eqb Bool.eqb];
        rewrite Ha; cbn [fst snd]; rewrite handleError_run; cbn [fst snd app];
        by destruct id.
    + exists (Some tab).
      destruct (hasOffscreenDocument c); cbn [negb fst snd audioSource] in *;
        rewrite ?Hs; cbn [fst snd audioSource String.eqb Ascii.eqb Bool.eqb];
        rewrite Ha; cbn [fst snd]; rewrite Hg; cbn [fst snd];
        rewrite handleError_run; cbn [fst snd app]; by destruct id.
Qed.

(** A start goes one of two ways. Either the browser grants it, or it
    refuses it with some error; then the request is answered with failure
    and that error, no start message reaches the capture context, the
    persisted transcript and start time are not touched and, with a valid
    extension context, the error is reported and idle is persisted. *)
Theorem refused_start_reports_and_stops c onLine net key source s :
  (SessionSpec.start_granted c source \/ exists m, start_refused c source m) /\
  (forall m,
      start_refused c source m ->
      let r := onMessage ToString c onLine net (startRecordingRequest key source) s in
      r.1.1 = Some {| success := false; error_text := Some m |} /\
      no_capture_start r.2 /\
      storage r.1.2 !! "transcript" = storage s !! "transcript" /\
      storage r.1.2 !! "startTime" = storage s !! "startTime" /\
      (runtime_id s = true ->
       storage r.1.2 !! "recordingState" = Some (VString "idle") /\
       sends r.2 = [error m; stopOffscreenRecording; recordingStopped])).
Proof.
  split; [apply start_dichotomy|].
  intros m Href r. subst r.
  unfold onMessage, bind, modify, ret. cbn [fst snd].
  destruct (startRecording_refused c (set_request (Some key) source s) m Href)
    as (t & Hrun).
  rewrite Hrun. cbn [fst snd app]. split; [done|].
  unfold stopped, failure_report.
  cbn [runtime_id set_request set_capturedTabId storage set_storage].
  split; [|split; [|split]].
  - intros sid src Hin. destruct (hasOffscreenDocument c), (runtime_id s);
      cbn [app] in Hin;
      repeat (apply elem_of_cons in Hin as [Hin|Hin]; [done|]);
      by apply elem_of_nil in Hin.
  - destruct (runtime_id s); [|done]. cbn [storage set_storage set_capturedTabId].
    by rewrite lookup_insert_ne.
  - destruct (runtime_id s); [|done]. cbn [storage set_storage set_capturedTabId].
    by rewrite lookup_insert_ne.
  - intros ->. cbn [storage set_storage set_capturedTabId].
    split; [by rewrite lookup_insert_eq|].
    by destruct (hasOffscreenDocument c).
Qed.

Lemma startRecording_tab c s tab sid :
  audioSource s = "tab" ->
  (hasOffscreenDocument c = true \/ createDocument c = returns tt) ->
  activeTab c = Some tab -> getMediaStreamId c = returns sid ->
  (startRecording c s).1.1 = returns tt /\
  capturedTabId (startRecording c s).1.2 = Some tab /\
  runtime_id (startRecording c s).1.2 = runtime_id s /\
  storage (startRecording c s).1.2 !! "recordingState" = Some (VString "recording").
Proof.
  destruct s as [tabid key src st id]. cbn [audioSource]. intros -> Hsetup Ha Hg.
  unfold startRecording, setupOffscreenDocument, acquire, storage_set, sendMessage,
    bind, gets, tell, modify, ret.
  assert (Hs : (if negb (hasOffscreenDocument c) then createDocument c else returns tt)
               = returns tt).
  { destruct Hsetup as [-> | Hc]; [done|].
    destruct (hasOffscreenDocument c); [done | by rewrite Hc]. }
  destruct (hasOffscreenDocument c); cbn [negb fst snd audioSource] in *;
    rewrite ?Hs; cbn [fst snd audioSource String.eqb Ascii.eqb Bool.eqb];
    rewrite Ha; cbn [fst snd]; rewrite Hg; cbn [fst snd];
    (repeat split; by simplify_map_eq).
Qed.

(** Closing a tab stops the session exactly when it is the captured tab:
    any other tab, or any tab when none is captured, changes nothing and
    sends nothing. After a tab session has been started, closing that tab
    persists idle and forgets the tab, so closing it once more does
    nothing. *)
Theorem tab_removal_stops_captured_tab :
  (forall tabId s, capturedTabId s <> Some tabId -> onRemoved tabId s = (tt, s, [])) /\
  (forall tabId s, capturedTabId s = Some tabId -> onRemoved tabId s = stopRecording s) /\
  (forall c s tab sid,
      audioSource s = "tab" -> runtime_id s = true ->
      (hasOffscreenDocument c = true \/ createDocument c = returns tt) ->
      activeTab c = Some tab -> getMediaStreamId c = returns sid ->
      let s1 := (startRecording c s).1.2 in
      let s2 := (onRemoved tab s1).1.2 in
      storage s2 !! "recordingState" = Some (VString "idle") /\
      capturedTabId s2 = None /\
      onRemoved tab s2 = (tt, s2, [])).
Proof.
  split; [|split].
  - intros tabId s Hne. unfold onRemoved, bind, gets, ret. cbn [fst snd].
    destruct (capturedTabId s) as [tab|]; [|done].
    destruct (tabId =? tab) eqn:He; [|done].
    apply Z.eqb_eq in He. by subst.
  - intros tabId s He. unfold onRemoved, bind, gets. cbn [fst snd]. rewrite He.
    rewrite Z.eqb_refl. by destruct (stopRecording s) as [[[] s'] l].
  - intros c s tab sid Hsrc Hid Hsetup Ha Hg s1 s2.
    destruct (startRecording_tab c s tab sid Hsrc Hsetup Ha Hg) as (_ & Hcap & Hid1 & _).
    fold s1 in Hcap, Hid1. rewrite Hid in Hid1.
    assert (Hs2 : s2 = stopped s1).
    { subst s2. unfold onRemoved, bind, gets. cbn [fst snd]. rewrite Hcap, Z.eqb_refl.
      by rewrite stopRecording_run. }
    rewrite Hs2. unfold stopped. rewrite Hid1.
    cbn [storage set_storage set_capturedTabId capturedTabId].
    split; [by rewrite lookup_insert_eq|]. split; [done|].
    unfold onRemoved, bind, gets, ret. by cbn [fst snd capturedTabId set_capturedTabId].
Qed.

End Proofs.

Lemma retry_schedule_witness :
  ((0 = 0)%nat /\
   callGeminiApi ToString0 unreachable chunk0 (Some "key") 0 1000 = (returns undefined, [])) /\
  ((1 <= 3)%nat /\
   total (sleeps (callGeminiApi ToString0 unreachable chunk0 (Some "key") 3 1000).2) = 3000).
Proof.
  pose proof (retry_schedule ToString0 unreachable chunk0 (Some "key") 0 1000) as [H0 _].
  pose proof (retry_schedule ToString0 unreachable chunk0 (Some "key") 3 1000) as [_ H3].
  split; [split; [reflexivity | exact (H0 eq_refl)]|].
  assert (Hle : (1 <= 3)%nat) by lia.
  split; [exact Hle|].
  destruct (H3 Hle) as (n & Hn & _ & Htot & _ & Hres).
  cbn in Hres. destruct Hres as [-> _]. exact Htot.
Defined.

Lemma invalid_response_not_retried_witness :
  (attempt ToString0 (blank 0%nat) = returns (JObject []) /\
   truthy (transcript_of (Some (JObject []))) = false) /\
  fetched (transcribeAudio ToString0 blank chunk0 worker0).2 = [chunk0] /\
  sleeps (transcribeAudio ToString0 blank chunk0 worker0).2 = [].
Proof.
  split; [by split|].
  exact (proj2 (invalid_response_not_retried ToString0 blank chunk0 worker0 (JObject [])
                  eq_refl eq_refl)).
Defined.

Lemma online_chunk_outcome_witness :
  runtime_id worker0 = true /\
  storage (handleAudioChunk ToString0 true unreachable chunk0 worker0).1.2
    !! "recordingState" = Some (VString "idle").
Proof.
  split; [reflexivity|].
  pose proof (proj2 (online_chunk_outcome ToString0 unreachable chunk0 worker0)) as H.
  cbn in H. exact (proj1 (H eq_refl)).
Defined.

Lemma orphaned_worker_is_silent_witness :
  runtime_id orphaned = false /\
  stopRecording orphaned = (tt, orphaned, []) /\
  sends (processOfflineQueue ToString0 [1; 0]%nat mixed orphaned).2 = [].
Proof.
  split; [reflexivity|].
  destruct (orphaned_worker_is_silent ToString0 orphaned eq_refl) as (H1 & _ & _ & _ & H5).
  split; [exact H1 | exact (H5 [1; 0]%nat mixed)].
Defined.

Lemma stop_keeps_session_data_witness :
  runtime_id SessionSpec.recording_session = true /\
  storage (stopRecording SessionSpec.recording_session).1.2 !! "transcript" =
    Some (VTranscript [SessionSpec.entry0]).
Proof.
  split; [reflexivity|].
  destruct (stop_keeps_session_data SessionSpec.recording_session eq_refl)
    as (_ & Hk & _).
  rewrite (Hk "transcript") by done. by vm_compute.
Defined.

Lemma refused_start_reports_and_stops_witness :
  start_refused no_tab "tab" "Could not find active tab." /\
  (onMessage ToString0 no_tab true unreachable (startRecordingRequest "key" "tab")
     SessionSpec.recording_session).1.1
  = Some {| success := false; error_text := Some "Could not find active tab." |}.
Proof.
  assert (H : start_refused no_tab "tab" "Could not find active tab.").
  { right. split; [by left|]. split; [done|]. by left. }
  split; [exact H|].
  exact (proj1 (proj2 (refused_start_reports_and_stops ToString0 no_tab true unreachable
                         "key" "tab" SessionSpec.recording_session)
                  "Could not find active tab." H)).
Defined.

Lemma tab_removal_stops_captured_tab_witness :
  (capturedTabId worker0 <> Some 8 /\ onRemoved 8 worker0 = (tt, worker0, [])) /\
  (capturedTabId worker0 = Some 7 /\ onRemoved 7 worker0 = stopRecording worker0) /\
  (audioSource worker0 = "tab" /\ runtime_id worker0 = true /\
   storage (onRemoved 7 (startRecording (SessionSpec.chrome_at 5000) worker0).1.2).1.2
     !! "recordingState" = Some (VString "idle")).
Proof.
  destruct tab_removal_stops_captured_tab as (T1 & T2 & T3).
  assert (H1 : capturedTabId worker0 <> Some 8) by discriminate.
  split; [split; [exact H1 | exact (T1 8 worker0 H1)]|].
  split; [split; [reflexivity | exact (T2 7 worker0 eq_refl)]|].
  split; [reflexivity|]. split; [reflexivity|].
  exact (proj1 (T3 (SessionSpec.chrome_at 5000) worker0 7 "stream-1"
                  eq_refl eq_refl (or_introl eq_refl) eq_refl eq_refl)).
Defined.

End Worker.

(** ** The WAV encoder: properties *)
Module WavProofs.
Import Wav WavSpec.

Lemma frame_length buffer offset :
  length (frame buffer offset) = (2 * numberOfChannels buffer)%nat.
Proof.
  unfold frame, numberOfChannels.
  induction (channels buffer) as [|c cs IH]; [done|].
  simpl. rewrite IH. lia.
Qed.

Lemma fill_frames fuel buffer :
  forall offset out,
    Z.of_nat (length out) =
      44 + 2 * Z.of_nat (numberOfChannels buffer) * Z.of_nat offset ->
    (offset <= buffer_length buffer)%nat ->
    (buffer_length buffer - offset <= fuel)%nat ->
    fill fuel buffer offset out =
    out ++ flat_map (frame buffer) (seq offset (buffer_length buffer - offset)).
Proof.
  induction fuel as [|fuel IH]; intros offset out Hpos Hle Hfuel.
  - simpl. replace (buffer_length buffer - offset)%nat with 0%nat by lia.
    simpl. by rewrite app_nil_r.
  - cbn [fill]. destruct (Z.of_nat (length out) <? wav_length buffer) eqn:Hlt.
    + apply Z.ltb_lt in Hlt. unfold wav_length in Hlt.
      assert (Hoff : (offset < buffer_length buffer)%nat) by nia.
      rewrite IH.
      * replace (buffer_length buffer - offset)%nat
          with (S (buffer_length buffer - S offset)) by lia.
        cbn [seq flat_map]. by rewrite <- app_assoc.
      * rewrite length_app, frame_length. lia.
      * lia.
      * lia.
    + apply Z.ltb_ge in Hlt. unfold wav_length in Hlt.
      destruct (numberOfChannels buffer) as [|n] eqn:Hn.
      * assert (Hnil : forall l, flat_map (frame buffer) l = []).
        { intros l. induction l as [|x l IHl]; [done|]. cbn [flat_map].
          rewrite IHl. unfold frame. unfold numberOfChannels in Hn.
          apply length_zero_iff_nil in Hn. by rewrite Hn. }
        by rewrite Hnil, app_nil_r.
      * replace (buffer_length buffer - offset)%nat with 0%nat by nia.
        simpl. by rewrite app_nil_r.
Qed.

Lemma header_length buffer : length (header buffer) = 44%nat.
Proof. reflexivity. Qed.

Lemma bufferToWav_unfold buffer :
  bufferToWav buffer =
  header buffer ++ flat_map (frame buffer) (seq 0 (buffer_length buffer)).
Proof.
  unfold bufferToWav.
  destruct (numberOfChannels buffer) as [|n] eqn:Hn.
  - assert (Hnil : forall l, flat_map (frame buffer) l = []).
    { intros l. induction l as [|x l IHl]; [done|]. cbn [flat_map].
      rewrite IHl. unfold frame. unfold numberOfChannels in Hn.
      apply length_zero_iff_nil in Hn. by rewrite Hn. }
    rewrite Hnil, app_nil_r. unfold wav_length. rewrite Hn.
    replace (Z.of_nat (buffer_length buffer) * Z.of_nat 0 * 2 + 44) with 44 by lia.
    change (Z.to_nat 44) with 44%nat. cbn [fill]. rewrite header_length.
    unfold wav_length. rewrite Hn.
    replace (Z.of_nat (buffer_length buffer) * Z.of_nat 0 * 2 + 44) with 44 by lia.
    done.
  - rewrite fill_frames.
    + by rewrite Nat.sub_0_r.
    + rewrite header_length. lia.
    + lia.
    + unfold wav_length. rewrite Hn. nia.
Qed.

Lemma octets_setUint16 v : Forall octet (setUint16 v).
Proof. unfold setUint16, octet. repeat constructor; apply Z.mod_pos_bound; lia. Qed.
Lemma octets_setUint32 v : Forall octet (setUint32 v).
Proof. unfold setUint32, octet. repeat constructor; apply Z.mod_pos_bound; lia. Qed.

Lemma flat_map_length_const {A} (f : A -> list Z) (n : nat) (l : list A) :
  (forall x, length (f x) = n) -> length (flat_map f l) = (n * length l)%nat.
Proof.
  intros Hf. induction l as [|x l IH]; [simpl; lia|].
  cbn [flat_map]. rewrite length_app, Hf, IH. simpl. lia.
Qed.

Lemma wav_fills_the_view_aux buffer :
  Z.of_nat (length (bufferToWav buffer)) = wav_length buffer /\
  bufferToWav buffer =
    header buffer ++ flat_map (frame buffer) (seq 0 (buffer_length buffer)).
Proof.
  rewrite bufferToWav_unfold. split; [|done].
  rewrite length_app, header_length.
  rewrite (flat_map_length_const _ (2 * numberOfChannels buffer)) by apply frame_length.
  rewrite length_seq. unfold wav_length. lia.
Qed.

(** The loop stops exactly when the view is full: the output has the
    44 header octets followed by one frame per sample frame, which is the
    [length] the view was allocated with, and every element is an octet. *)
Theorem wav_fills_the_view buffer :
  Z.of_nat (length (bufferToWav buffer)) = wav_length buffer /\
  bufferToWav buffer =
    header buffer ++ flat_map (frame buffer) (seq 0 (buffer_length buffer)) /\
  Forall octet (bufferToWav buffer).
Proof.
  rewrite bufferToWav_unfold. split; [|split; [done|]].
  - rewrite length_app, header_length.
    rewrite (flat_map_length_const _ (2 * numberOfChannels buffer)) by apply frame_length.
    rewrite length_seq. unfold wav_length. lia.
  - apply Forall_app. split.
    + unfold header. repeat (apply Forall_app; split);
        first [apply octets_setUint32 | apply octets_setUint16].
    + apply Forall_forall. intros o Ho. apply list_elem_of_In, in_flat_map in Ho.
      destruct Ho as (offset & _ & Ho). unfold frame in Ho.
      apply in_flat_map in Ho. destruct Ho as (c & _ & Ho).
      pose proof (octets_setUint16 (sample_at c offset)) as Hoct.
      rewrite Forall_forall in Hoct. apply Hoct. by apply list_elem_of_In.
Qed.

Lemma getUint_setUint32 v : getUint (setUint32 v) = v mod 4294967296.
Proof. unfold getUint, setUint32. cbn [foldr]. Z.to_euclidean_division_equations. lia. Qed.

Lemma getUint_setUint16 v : getUint (setUint16 v) = v mod 65536.
Proof. unfold getUint, setUint16. cbn [foldr]. Z.to_euclidean_division_equations. lia. Qed.

Lemma getInt16_setInt16 v :
  -32768 <= v < 32768 -> getInt16 (setInt16 v) = v.
Proof.
  intros Hv. unfold getInt16, setInt16. rewrite getUint_setUint16.
  destruct (v mod 65536 <? 32768) eqn:Hlt.
  - apply Z.ltb_lt in Hlt. Z.to_euclidean_division_equations. lia.
  - apply Z.ltb_ge in Hlt. Z.to_euclidean_division_equations. lia.
Qed.

(** When the sizes fit their fields, the header describes the output:
    the four tags are RIFF, WAVE, fmt and data, the format is 16-bit PCM,
    the channel count, sample rate, byte rate and block size are those of
    the buffer, the RIFF size is the size of the output less 8 and the
    data size is the size of the output less the 44 header octets. *)
Theorem wav_header_describes_output buffer :
  wav_length buffer < 4294967296 ->
  0 <= sampleRate buffer < 4294967296 ->
  sampleRate buffer * 2 * Z.of_nat (numberOfChannels buffer) < 4294967296 ->
  Z.of_nat (numberOfChannels buffer) * 2 < 65536 ->
  let wav := bufferToWav buffer in
  let field n from := getUint (take n (drop from wav)) in
  (take 4 wav = [82; 73; 70; 70] /\
   take 4 (drop 8 wav) = [87; 65; 86; 69] /\
   take 4 (drop 12 wav) = [102; 109; 116; 32] /\
   take 4 (drop 36 wav) = [100; 97; 116; 97]) /\
  field 4%nat 4%nat = Z.of_nat (length wav) - 8 /\
  field 4%nat 16%nat = 16 /\
  field 2%nat 20%nat = 1 /\
  field 2%nat 22%nat = Z.of_nat (numberOfChannels buffer) /\
  field 4%nat 24%nat = sampleRate buffer /\
  field 4%nat 28%nat = sampleRate buffer * 2 * Z.of_nat (numberOfChannels buffer) /\
  field 2%nat 32%nat = 2 * Z.of_nat (numberOfChannels buffer) /\
  field 2%nat 34%nat = 16 /\
  field 4%nat 40%nat = Z.of_nat (length wav) - 44.
Proof.
  intros Hlen Hrate Hbytes Hblock wav field.
  destruct (wav_fills_the_view_aux buffer) as [Hl Hw].
  subst field wav. rewrite Hl, Hw. unfold header.
  cbn [app setUint32 setUint16 take drop].
  fold (setUint32 (wav_length buffer - 8)). fold (setUint32 (wav_length buffer - 40 - 4)).
  fold (setUint32 (sampleRate buffer)).
  fold (setUint32 (sampleRate buffer * 2 * Z.of_nat (numberOfChannels buffer))).
  fold (setUint16 (Z.of_nat (numberOfChannels buffer))).
  fold (setUint16 (Z.of_nat (numberOfChannels buffer) * 2)).
  rewrite !getUint_setUint32, !getUint_setUint16.
  assert (H44 : 44 <= wav_length buffer) by (unfold wav_length; lia).
  split; [by repeat split|].
  rewrite take_0. fold (setUint32 (wav_length buffer - 40 - 4)).
  rewrite getUint_setUint32.
  rewrite (Z.mod_small (wav_length buffer - 8)) by lia.
  rewrite (Z.mod_small (wav_length buffer - 40 - 4)) by lia.
  rewrite (Z.mod_small (sampleRate buffer)) by lia.
  rewrite (Z.mod_small (sampleRate buffer * 2 * _)) by lia.
  rewrite (Z.mod_small (Z.of_nat (numberOfChannels buffer))) by lia.
  rewrite (Z.mod_small (Z.of_nat (numberOfChannels buffer) * 2)) by lia.
  repeat split; try reflexivity; lia.
Qed.

Lemma quot_between (n : Z) (d : positive) (a b : Z) :
  a * Zpos d <= n -> n <= b * Zpos d -> a <= Z.quot n (Zpos d) <= b.
Proof.
  intros Ha Hb. pose proof (Z.quot_rem' n (Zpos d)) as Hq.
  destruct (Z_le_gt_dec 0 n) as [Hn|Hn].
  - pose proof (Z.rem_bound_pos n (Zpos d) Hn ltac:(lia)). nia.
  - pose proof (Z.rem_bound_pos_neg n (Zpos d) ltac:(lia) ltac:(lia)). nia.
Qed.

Lemma to_int32_between (q : Q) (a b : Z) :
  -2147483648 <= a -> b < 2147483648 ->
  (inject_Z a <= q)%Q -> (q <= inject_Z b)%Q ->
  a <= to_int32 q <= b.
Proof.
  intros Ha Hb Haq Hqb. unfold to_int32.
  unfold Qle in Haq, Hqb. simpl in Haq, Hqb.
  destruct (quot_between (Qnum q) (Qden q) a b) as [H1 H2]; [lia | lia |].
  rewrite Z.mod_small by lia. lia.
Qed.

Lemma clamp_between x :
  (-1 <= Math_max (-1) (Math_min 1 x))%Q /\ (Math_max (-1) (Math_min 1 x) <= 1)%Q.
Proof.
  unfold Math_max, Math_min.
  destruct (Qlt_le_dec x 1), (Qlt_le_dec (-1) x); try destruct (Qlt_le_dec (-1) 1);
    split; try lra; try done.
Qed.

Lemma quantize_range x : -32768 <= quantize x <= 32767.
Proof.
  unfold quantize. destruct (clamp_between x) as [Hlo Hhi].
  set (s := Math_max (-1) (Math_min 1 x)) in *.
  destruct (Qlt_le_dec (0.5 + s) 0) as [Hneg|Hpos].
  - destruct (to_int32_between (s * 32768) (-32768) (-16384)) as [H1 H2];
      [lia | lia | unfold inject_Z; lra | unfold inject_Z; lra |]. lia.
  - destruct (to_int32_between (s * 32767) (-16384) 32767) as [H1 H2];
      [lia | lia | unfold inject_Z; lra | unfold inject_Z; lra |]. lia.
Qed.

(** Every sample is written as a 16-bit value between -32768 and 32767;
    the extremes are reached exactly by the samples at or beyond full
    scale, and silence stays 0. *)
Theorem quantize_clips x :
  -32768 <= quantize x <= 32767 /\
  ((1 <= x)%Q -> quantize x = 32767) /\
  ((x <= -1)%Q -> quantize x = -32768) /\
  ((x == 0)%Q -> quantize x = 0).
Proof.
  split; [apply quantize_range|]. split; [|split].
  - intros Hx. unfold quantize, Math_min.
    destruct (Qlt_le_dec x 1); [lra|]. reflexivity.
  - intros Hx. unfold quantize, Math_min, Math_max.
    destruct (Qlt_le_dec x 1); [|lra].
    destruct (Qlt_le_dec (-1) x); [lra|]. reflexivity.
  - intros Hx. unfold quantize, Math_min, Math_max.
    destruct (Qlt_le_dec x 1); [|lra].
    destruct (Qlt_le_dec (-1) x); [|lra].
    destruct (Qlt_le_dec (0.5 + x) 0); [lra|].
    unfold to_int32. unfold Qeq in Hx. simpl in Hx.
    assert (Hn : Qnum x = 0) by lia.
    simpl. rewrite Hn. reflexivity.
Qed.

Lemma quot_mono (n1 n2 : Z) (d1 d2 : positive) :
  n1 * Zpos d2 <= n2 * Zpos d1 -> Z.quot n1 (Zpos d1) <= Z.quot n2 (Zpos d2).
Proof.
  intros H.
  pose proof (Z.quot_rem' n1 (Zpos d1)) as Hq1.
  pose proof (Z.quot_rem' n2 (Zpos d2)) as Hq2.
  destruct (Z_le_gt_dec 0 n1) as [Hn1|Hn1]; destruct (Z_le_gt_dec 0 n2) as [Hn2|Hn2].
  - pose proof (Z.rem_bound_pos n1 (Zpos d1) Hn1 ltac:(lia)).
    pose proof (Z.rem_bound_pos n2 (Zpos d2) Hn2 ltac:(lia)).
    apply Z.lt_succ_r.
    apply (Z.mul_lt_mono_pos_r (Zpos d1 * Zpos d2)); [lia|]. nia.
  - nia.
  - pose proof (Z.rem_bound_pos_neg n1 (Zpos d1) ltac:(lia) ltac:(lia)).
    pose proof (Z.rem_bound_pos n2 (Zpos d2) Hn2 ltac:(lia)).
    assert (Z.quot n1 (Zpos d1) <= 0) by nia.
    assert (0 <= Z.quot n2 (Zpos d2)) by nia. lia.
  - pose proof (Z.rem_bound_pos_neg n1 (Zpos d1) ltac:(lia) ltac:(lia)).
    pose proof (Z.rem_bound_pos_neg n2 (Zpos d2) ltac:(lia) ltac:(lia)).
    apply Z.lt_succ_r.
    apply (Z.mul_lt_mono_pos_r (Zpos d1 * Zpos d2)); [lia|]. nia.
Qed.

Lemma to_int32_mono (p q : Q) (a b : Z) :
  -2147483648 <= a -> b < 2147483648 ->
  (inject_Z a <= p)%Q -> (p <= q)%Q -> (q <= inject_Z b)%Q ->
  to_int32 p <= to_int32 q.
Proof.
  intros Ha Hb Hap Hpq Hqb. unfold to_int32.
  assert (Hpb : (p <= inject_Z b)%Q) by (by apply Qle_trans with q).
  assert (Haq : (inject_Z a <= q)%Q) by (by apply Qle_trans with p).
  unfold Qle in Hap, Hpb, Haq, Hqb, Hpq. simpl in Hap, Hpb, Haq, Hqb.
  destruct (quot_between (Qnum p) (Qden p) a b) as [H1 H2]; [lia | lia |].
  destruct (quot_between (Qnum q) (Qden q) a b) as [H3 H4]; [lia | lia |].
  pose proof (quot_mono (Qnum p) (Qnum q) (Qden p) (Qden q) Hpq).
  rewrite !Z.mod_small by lia. lia.
Qed.

Lemma clamp_mono x y :
  (x <= y)%Q ->
  (Math_max (-1) (Math_min 1 x) <= Math_max (-1) (Math_min 1 y))%Q.
Proof.
  intros Hxy. unfold Math_max, Math_min.
  destruct (Qlt_le_dec x 1), (Qlt_le_dec y 1);
    repeat match goal with |- context [Qlt_le_dec ?a ?b] => destruct (Qlt_le_dec a b) end;
    lra.
Qed.

(** Quantization keeps the order of the samples: a larger sample never
    gets a smaller 16-bit value. *)
Theorem quantize_monotone x y :
  (x <= y)%Q -> quantize x <= quantize y.
Proof.
  intros Hxy. unfold quantize.
  pose proof (clamp_mono x y Hxy) as Hs.
  destruct (clamp_between x) as [Hxl Hxh]. destruct (clamp_between y) as [Hyl Hyh].
  set (s := Math_max (-1) (Math_min 1 x)) in *.
  set (t := Math_max (-1) (Math_min 1 y)) in *.
  destruct (Qlt_le_dec (0.5 + s) 0) as [Hsn|Hsp];
    destruct (Qlt_le_dec (0.5 + t) 0) as [Htn|Htp].
  - apply (to_int32_mono _ _ (-32768) 32767); [lia | lia | unfold inject_Z; lra | lra
      | unfold inject_Z; lra].
  - destruct (to_int32_between (s * 32768) (-32768) (-16384)) as [_ H1];
      [lia | lia | unfold inject_Z; lra | unfold inject_Z; lra |].
    destruct (to_int32_between (t * 32767) (-16384) 32767) as [H2 _];
      [lia | lia | unfold inject_Z; lra | unfold inject_Z; lra |]. lia.
  - lra.
  - apply (to_int32_mono _ _ (-32768) 32767); [lia | lia | unfold inject_Z; lra | lra
      | unfold inject_Z; lra].
Qed.

Lemma quantize_monotone_witness :
  (1 # 4 <= 1 # 2)%Q /\ quantize (1 # 4) <= quantize (1 # 2).
Proof.
  assert (H : (1 # 4 <= 1 # 2)%Q) by (by vm_compute).
  split; [exact H | exact (quantize_monotone _ _ H)].
Defined.

Lemma sample_at_range channel offset : -32768 <= sample_at channel offset < 32768.
Proof.
  unfold sample_at. destruct (channel !! offset); [|lia].
  pose proof (quantize_range q). lia.
Qed.

Lemma samples_of_frame buffer offset rest :
  samples_of (frame buffer offset ++ rest) =
  map (fun channel => sample_at channel offset) (channels buffer) ++ samples_of rest.
Proof.
  unfold frame. induction (channels buffer) as [|c cs IH]; [done|].
  cbn [flat_map map]. rewrite <- app_assoc.
  change (setInt16 (sample_at c offset) ++ ?l)
    with ((sample_at c offset) mod 256 :: (sample_at c offset / 256) mod 256 :: l).
  cbn [samples_of app].
  change [sample_at c offset `mod` 256; (sample_at c offset `div` 256) `mod` 256]
    with (setInt16 (sample_at c offset)).
  rewrite getInt16_setInt16 by apply sample_at_range. by rewrite IH.
Qed.

(** Reading the sample data back, two octets per sample, gives the
    quantized samples frame after frame and, within a frame, channel after
    channel: the channels are interleaved and no sample is lost, repeated
    or altered by the 16-bit encoding. *)
Theorem wav_samples_are_interleaved buffer :
  samples_of (drop 44 (bufferToWav buffer)) = interleaved buffer.
Proof.
  rewrite bufferToWav_unfold. rewrite drop_app_length' by apply (header_length buffer).
  unfold interleaved. induction (seq 0 (buffer_length buffer)) as [|offset l IH]; [done|].
  cbn [flat_map]. by rewrite samples_of_frame, IH.
Qed.

Lemma wav_header_describes_output_witness :
  (wav_length stereo < 4294967296 /\
   0 <= sampleRate stereo < 4294967296 /\
   sampleRate stereo * 2 * Z.of_nat (numberOfChannels stereo) < 4294967296 /\
   Z.of_nat (numberOfChannels stereo) * 2 < 65536) /\
  getUint (take 4 (drop 40 (bufferToWav stereo))) = 8.
Proof.
  assert (H1 : wav_length stereo < 4294967296) by (by vm_compute).
  assert (H2 : 0 <= sampleRate stereo < 4294967296) by (by vm_compute).
  assert (H3 : sampleRate stereo * 2 * Z.of_nat (numberOfChannels stereo) < 4294967296)
    by (by vm_compute).
  assert (H4 : Z.of_nat (numberOfChannels stereo) * 2 < 65536) by (by vm_compute).
  split; [done|].
  pose proof (wav_header_describes_output stereo H1 H2 H3 H4) as H.
  cbv zeta in H. destruct H as (_ & _ & _ & _ & _ & _ & _ & _ & _ & H).
  rewrite H. reflexivity.
Defined.

Lemma quantize_clips_witness :
  ((1 <= 2)%Q /\ quantize 2 = 32767) /\
  ((- 5 <= -1)%Q /\ quantize (- 5) = -32768) /\
  ((0 == 0)%Q /\ quantize 0 = 0).
Proof.
  assert (H1 : (1 <= 2)%Q) by (by vm_compute).
  assert (H2 : (- 5 <= -1)%Q) by (by vm_compute).
  assert (H3 : (0 == 0)%Q) by reflexivity.
  split; [split; [exact H1 | exact (proj1 (proj2 (quantize_clips 2)) H1)]|].
  split; [split; [exact H2 | exact (proj1 (proj2 (proj2 (quantize_clips (- 5)))) H2)]|].
  split; [exact H3 | exact (proj2 (proj2 (proj2 (quantize_clips 0))) H3)].
Defined.

End WavProofs.

(** ** The popup: properties *)
Module PopupProofs.
Import JS Storage Popup PopupView PopupSpec.

Lemma step_timer ps e : timer_matches ps.1 -> timer_matches (step ps e).1.
Proof.
  destruct ps as [[s t c tr key src err] st]. unfold timer_matches. cbn [fst recordingState timerOn].
  intros Hp.
  destruct e as [now granted worker|now| |iso m|v|v]; cbn [step fst snd].
  - unfold handleStartStop. cbn [recordingState apiKeyInput audioSourceSelect].
    destruct s; cbn [vars set_session recordingState timerOn]; try done.
    destruct (String.eqb key ""); cbn [vars displayError recordingState timerOn]; [done|].
    destruct (String.eqb src "mic" && negb granted);
      cbn [vars displayError recordingState timerOn]; [done|].
    unfold started. destruct (worker _ st) as [[[[|] [e|]]|] st'];
      cbn [fst snd vars displayError recordingState timerOn]; done.
  - unfold handlePauseResume. cbn [recordingState].
    destruct s; cbn [vars set_session recordingState timerOn]; done.
  - unfold tick. cbn [timerOn]. destruct t; cbn [recordingState timerOn]; done.
  - unfold onMessage. destruct m; cbn [fst set_transcript set_session displayError
      recordingState timerOn]; done.
  - done.
  - done.
Qed.

Lemma run_timer es : forall ps, timer_matches ps.1 -> timer_matches (run ps es).1.
Proof.
  induction es as [|e es IH]; intros ps Hp; [done|].
  cbn [run foldl]. apply IH. by apply step_timer.
Qed.

Lemma restored_timer now st p : DOMContentLoaded now st = Some p -> timer_matches p.
Proof.
  unfold DOMContentLoaded, timer_matches.
  destruct (String.eqb (string_or (st !! "recordingState") "idle") "recording").
  - destruct (st !! "secondsElapsed") as [[]|]; try done. by intros [= <-].
  - destruct (String.eqb (string_or (st !! "recordingState") "idle") "paused");
      intros [= <-]; done.
Qed.

(** From the moment the popup is opened, whatever is clicked, typed or
    received, the one-second timer runs exactly while the popup is in
    state recording: the counter never advances while paused or idle, and
    a tick while recording adds exactly one second. *)
Theorem timer_runs_iff_recording now st p es :
  DOMContentLoaded now st = Some p ->
  let p' := (run (p, st) es).1 in
  timer_matches p' /\
  secondsElapsed (tick p') =
    match recordingState p' with
    | recording => secondsElapsed p' + 1
    | _ => secondsElapsed p'
    end.
Proof.
  intros Hopen p'.
  assert (Hm : timer_matches p').
  { subst p'. apply run_timer. cbn [fst]. by apply (restored_timer now st). }
  split; [done|]. unfold tick. destruct Hm as [H1 H2].
  destruct (recordingState p') eqn:Hr.
  - destruct (timerOn p'); [by specialize (H1 eq_refl) | done].
  - by rewrite (H2 eq_refl).
  - destruct (timerOn p'); [by specialize (H1 eq_refl) | done].
Qed.

Lemma ticks_running k p :
  timerOn p = true ->
  timerOn (Nat.iter k tick p) = true /\
  secondsElapsed (Nat.iter k tick p) = secondsElapsed p + Z.of_nat k.
Proof.
  intros Hp. induction k as [|k [IH1 IH2]]; [split; [done | cbn; lia]|].
  rewrite Nat.iter_succ. unfold tick at 1 3. rewrite IH1. cbn [timerOn secondsElapsed].
  split; [done | lia].
Qed.

(** The counter is carried by the storage across closing and reopening
    the popup. Reopened while paused, the popup shows the counter that the
    pause persisted. Reopened after a resume, it shows that counter plus
    the whole seconds since the resume: what the running one-second timer
    of a popup left open would show, and the same counter if no time has
    passed. *)
Theorem counter_survives_reopen p st t1 t2 t3 :
  recordingState p = recording ->
  let o1 := handlePauseResume t1 p st in
  let o2 := handlePauseResume t2 (vars o1) (area o1) in
  (exists p1,
      DOMContentLoaded t3 (area o1) = Some p1 /\
      recordingState p1 = paused /\ timerOn p1 = false /\
      secondsElapsed p1 = secondsElapsed p) /\
  (t2 <> 0 ->
   exists p2,
      DOMContentLoaded t3 (area o2) = Some p2 /\
      recordingState p2 = recording /\ timerOn p2 = true /\
      secondsElapsed p2 = secondsElapsed p + (t3 - t2) / 1000 /\
      (t3 = t2 -> secondsElapsed p2 = secondsElapsed p) /\
      (forall (k : nat) (r : Z),
          0 <= r < 1000 -> t3 = t2 + 1000 * Z.of_nat k + r ->
          secondsElapsed p2 = secondsElapsed (Nat.iter k tick (vars o2)))).
Proof.
  intros Hrec o1 o2. subst o1 o2. unfold handlePauseResume. rewrite Hrec.
  cbn [vars area recordingState set_session secondsElapsed].
  unfold Storage.set. cbn [foldl fst snd]. split.
  - eexists. split.
    + unfold DOMContentLoaded. simplify_map_eq. cbn. reflexivity.
    + done.
  - intros Ht2. eexists. split.
    + unfold DOMContentLoaded. simplify_map_eq. cbn.
      destruct (t2 =? 0) eqn:Hz; [apply Z.eqb_eq in Hz; lia|]. reflexivity.
    + cbn [recordingState timerOn secondsElapsed]. split; [done|]. split; [done|].
      split; [done|]. split.
      * intros ->. replace (t2 - t2) with 0 by lia. rewrite Zdiv_0_l. lia.
      * intros k r Hr ->.
        replace (t2 + 1000 * Z.of_nat k + r - t2) with (r + Z.of_nat k * 1000) by lia.
        rewrite Z.div_add by lia. rewrite Z.div_small by lia.
        rewrite (proj2 (ticks_running k (set_session recording true (set_session paused false p))
                         eq_refl)).
        cbn [secondsElapsed set_session]. lia.
Qed.

Lemma restored_fields now st p :
  DOMContentLoaded now st = Some p ->
  fullTranscript p = match st !! "transcript" with Some (VTranscript es) => es | _ => [] end /\
  apiKeyInput p = string_or (st !! "apiKey") "" /\
  audioSourceSelect p = string_or (st !! "audioSource") "tab".
Proof.
  unfold DOMContentLoaded.
  destruct (String.eqb (string_or (st !! "recordingState") "idle") "recording").
  - destruct (st !! "secondsElapsed") as [[]|]; try done. by intros [= <-].
  - destruct (String.eqb (string_or (st !! "recordingState") "idle") "paused");
      by intros [= <-].
Qed.

Lemma pause_keeps_transcript now p st :
  area (handlePauseResume now p st) !! "transcript" = st !! "transcript".
Proof.
  unfold handlePauseResume.
  destruct (recordingState p); cbn [area]; unfold Storage.set; cbn [foldl fst snd];
    by simplify_map_eq.
Qed.

Lemma stop_keeps_transcript now granted worker p st :
  recordingState p <> idle ->
  area (handleStartStop now granted worker p st) !! "transcript" = st !! "transcript".
Proof.
  intros Hs. unfold handleStartStop.
  destruct (recordingState p); [done | |]; cbn [area]; unfold Storage.set;
    cbn [foldl fst snd]; by simplify_map_eq.
Qed.

(** Transcript entries are appended in the order they arrive and persisted
    whole, so a reopened popup shows the same transcript; pausing,
    resuming and stopping leave the persisted transcript alone. *)
Theorem transcript_survives_reopen now_iso t src p st :
  let r := onMessage now_iso (Background.updateTranscript t src) p st in
  fullTranscript r.1 =
    fullTranscript p ++ [{| timestamp := now_iso; text := t; source := src |}] /\
  (forall now p', DOMContentLoaded now r.2 = Some p' -> fullTranscript p' = fullTranscript r.1) /\
  (forall now, area (handlePauseResume now r.1 r.2) !! "transcript" = r.2 !! "transcript") /\
  (forall now granted worker,
      recordingState r.1 <> idle ->
      area (handleStartStop now granted worker r.1 r.2) !! "transcript" = r.2 !! "transcript").
Proof.
  intros r. subst r. cbn [onMessage fst snd set_transcript fullTranscript].
  unfold Storage.set. cbn [foldl fst snd]. split; [done|]. split; [|split].
  - intros now p' Hopen. destruct (restored_fields _ _ _ Hopen) as (-> & _).
    by simplify_map_eq.
  - intros now. apply pause_keeps_transcript.
  - intros now granted worker Hs. by apply stop_keeps_transcript.
Qed.

(** The key and the source typed into the popup are restored when it is
    reopened; a source that is empty comes back as the default, tab. *)
Theorem inputs_survive_reopen v p st now :
  (forall p', DOMContentLoaded now (onApiKeyChange v p st).2 = Some p' -> apiKeyInput p' = v) /\
  (forall p', DOMContentLoaded now (onAudioSourceChange v p st).2 = Some p' ->
              audioSourceSelect p' = if String.eqb v "" then "tab" else v).
Proof.
  split; intros p' Hopen; destruct (restored_fields _ _ _ Hopen) as (_ & Hk & Hs).
  - rewrite Hk. unfold onApiKeyChange. cbn [snd]. unfold Storage.set.
    cbn [foldl fst snd]. simplify_map_eq. cbn [string_or].
    destruct (String.eqb v "") eqn:Hv; [|done]. symmetry. by apply String.eqb_eq.
  - rewrite Hs. unfold onAudioSourceChange. cbn [snd]. unfold Storage.set.
    cbn [foldl fst snd]. by simplify_map_eq.
Qed.

(** From idle, the start control sends nothing exactly when no key has
    been entered, or when the microphone was chosen and its permission was
    not granted; then only the error shown changes. Otherwise it sends one
    start request, carrying the key and the source of the inputs. *)
Theorem start_needs_key_and_permission now granted worker p st :
  recordingState p = idle ->
  let o := handleStartStop now granted worker p st in
  (sent o = [] <->
   apiKeyInput p = "" \/ (audioSourceSelect p = "mic" /\ granted = false)) /\
  (sent o = [] ->
   area o = st /\ recordingState (vars o) = idle /\ timerOn (vars o) = timerOn p /\
   secondsElapsed (vars o) = secondsElapsed p /\
   fullTranscript (vars o) = fullTranscript p /\ errorMessage (vars o) <> None) /\
  (sent o <> [] ->
   sent o = [Background.startRecordingRequest (apiKeyInput p) (audioSourceSelect p)]).
Proof.
  intros Hidle o. subst o. unfold handleStartStop. rewrite Hidle.
  destruct (String.eqb (apiKeyInput p) "") eqn:Hk.
  - apply String.eqb_eq in Hk. cbn. rewrite Hidle. repeat split; auto; done.
  - apply String.eqb_neq in Hk.
    destruct (String.eqb (audioSourceSelect p) "mic") eqn:Hm; cbn [andb].
    + apply String.eqb_eq in Hm. destruct granted; cbn [negb sent vars area].
      * split; [|split]; [|done|done]. split; [done|]. intros [H|[_ H]]; done.
      * cbn. rewrite Hidle. repeat split; auto; done.
    + apply String.eqb_neq in Hm. cbn [sent].
      split; [|split]; [|done|done]. split; [done|]. intros [H|[H _]]; done.
Qed.

Lemma pad_two_nat (k : nat) :
  (k < 100)%nat -> padStart2 (pretty (Z.of_nat k)) = two_digits (Z.of_nat k).
Proof.
  intros Hk. do 100 (destruct k as [|k]; [by vm_compute|]). lia.
Qed.

Lemma pad_two (n : Z) : 0 <= n < 100 -> padStart2 (pretty n) = two_digits n.
Proof.
  intros Hn. rewrite <- (Z2Nat.id n) by lia. apply pad_two_nat. lia.
Qed.

(** For a counter below one hundred hours the time shown is HH:MM:SS:
    eight characters, two decimal digits per field, with the minutes and
    seconds below 60, and the three fields give the counter back. *)
Theorem formatTime_is_hh_mm_ss seconds :
  0 <= seconds < 360000 ->
  let h := seconds / 3600 in
  let m := seconds mod 3600 / 60 in
  let s := seconds mod 60 in
  formatTime seconds = two_digits h +:+ ":" +:+ two_digits m +:+ ":" +:+ two_digits s /\
  String.length (formatTime seconds) = 8%nat /\
  0 <= h < 100 /\ 0 <= m < 60 /\ 0 <= s < 60 /\
  h * 3600 + m * 60 + s = seconds.
Proof.
  intros Hs h m s.
  assert (Hh : 0 <= h < 100) by (subst h; Z.to_euclidean_division_equations; lia).
  assert (Hm : 0 <= m < 60) by (subst m; Z.to_euclidean_division_equations; lia).
  assert (Hsec : 0 <= s < 60) by (subst s; Z.to_euclidean_division_equations; lia).
  assert (Heq : formatTime seconds =
                two_digits h +:+ ":" +:+ two_digits m +:+ ":" +:+ two_digits s).
  { unfold formatTime. rewrite !Z.rem_mod_nonneg by lia.
    fold h m s. by rewrite !pad_two by lia. }
  split; [done|]. split; [by rewrite Heq|]. split; [done|]. split; [done|].
  split; [done|]. subst h m s. Z.to_euclidean_division_equations. lia.
Qed.

Lemma timer_runs_iff_recording_witness :
  DOMContentLoaded 1000 ∅ = Some (set_inputs "" "tab" SessionSpec.opened) /\
  timer_matches (run (set_inputs "" "tab" SessionSpec.opened, ∅)
                   [ApiKeyChange "key"; ClickStartStop 1000 true SessionSpec.worker;
                    TimerTick; ClickPauseResume 2500; TimerTick]).1.
Proof.
  assert (H : DOMContentLoaded 1000 ∅ = Some (set_inputs "" "tab" SessionSpec.opened))
    by reflexivity.
  split; [exact H|].
  exact (proj1 (timer_runs_iff_recording 1000 ∅ _
                  [ApiKeyChange "key"; ClickStartStop 1000 true SessionSpec.worker;
                   TimerTick; ClickPauseResume 2500; TimerTick] H)).
Defined.

Lemma counter_survives_reopen_witness :
  recordingState recording42 = recording /\ 7000 <> 0 /\
  exists p2,
    DOMContentLoaded 7000
      (area (handlePauseResume 7000
               (vars (handlePauseResume 6000 recording42 ∅))
               (area (handlePauseResume 6000 recording42 ∅)))) = Some p2 /\
    secondsElapsed p2 = 42.
Proof.
  assert (H1 : recordingState recording42 = recording) by reflexivity.
  assert (H2 : 7000 <> 0) by lia.
  split; [exact H1|]. split; [exact H2|].
  destruct (proj2 (counter_survives_reopen recording42 ∅ 6000 7000 7000 H1) H2)
    as (p2 & Hopen & _ & _ & _ & Hsame & _).
  exists p2. split; [exact Hopen | exact (Hsame eq_refl)].
Defined.

Lemma transcript_survives_reopen_witness :
  (exists p',
      DOMContentLoaded 9000
        (onMessage "2025-01-01T00:00:02.000Z"
           (Background.updateTranscript (JString "again") "tab") recording42 ∅).2
      = Some p' /\
      fullTranscript p' =
        [SessionSpec.entry0;
         {| timestamp := "2025-01-01T00:00:02.000Z"; text := JString "again";
            source := "tab" |}]) /\
  recordingState (onMessage "2025-01-01T00:00:02.000Z"
        (Background.updateTranscript (JString "again") "tab") recording42 ∅).1 <> idle /\
  area (handleStartStop 9000 true SessionSpec.worker
          (onMessage "2025-01-01T00:00:02.000Z"
             (Background.updateTranscript (JString "again") "tab") recording42 ∅).1
          (onMessage "2025-01-01T00:00:02.000Z"
             (Background.updateTranscript (JString "again") "tab") recording42 ∅).2)
    !! "transcript"
  = Some (VTranscript
            [SessionSpec.entry0;
             {| timestamp := "2025-01-01T00:00:02.000Z"; text := JString "again";
                source := "tab" |}]).
Proof.
  destruct (transcript_survives_reopen "2025-01-01T00:00:02.000Z" (JString "again") "tab"
              recording42 ∅) as (_ & Hopen & _ & Hstop).
  split.
  - eexists. split; [reflexivity|]. by rewrite (Hopen 9000 _ eq_refl).
  - assert (H : recordingState (onMessage "2025-01-01T00:00:02.000Z"
        (Background.updateTranscript (JString "again") "tab") recording42 ∅).1 <> idle)
      by discriminate.
    split; [exact H|].
    rewrite (Hstop 9000 true SessionSpec.worker H). by vm_compute.
Defined.

Lemma inputs_survive_reopen_witness :
  DOMContentLoaded 1000 (onApiKeyChange "key" SessionSpec.opened ∅).2
    = Some (set_inputs "key" "tab" SessionSpec.opened) /\
  apiKeyInput (set_inputs "key" "tab" SessionSpec.opened) = "key".
Proof.
  assert (H : DOMContentLoaded 1000 (onApiKeyChange "key" SessionSpec.opened ∅).2
              = Some (set_inputs "key" "tab" SessionSpec.opened)) by (by vm_compute).
  split; [exact H|].
  exact (proj1 (inputs_survive_reopen "key" SessionSpec.opened ∅ 1000) _ H).
Defined.

Lemma start_needs_key_and_permission_witness :
  recordingState SessionSpec.opened = idle /\
  (sent (handleStartStop 1000 true SessionSpec.worker SessionSpec.opened ∅) <> [] /\
   sent (handleStartStop 1000 true SessionSpec.worker SessionSpec.opened ∅) =
     [Background.startRecordingRequest "key" "tab"]).
Proof.
  assert (H : recordingState SessionSpec.opened = idle) by reflexivity.
  assert (H2 : sent (handleStartStop 1000 true SessionSpec.worker SessionSpec.opened ∅) <> [])
    by discriminate.
  split; [exact H|]. split; [exact H2|].
  exact (proj2 (proj2 (start_needs_key_and_permission 1000 true SessionSpec.worker
                         SessionSpec.opened ∅ H)) H2).
Defined.

Lemma formatTime_is_hh_mm_ss_witness :
  0 <= 3725 < 360000 /\ formatTime 3725 = "01:02:05".
Proof.
  assert (H : 0 <= 3725 < 360000) by lia.
  split; [exact H|].
  rewrite (proj1 (formatTime_is_hh_mm_ss 3725 H)). reflexivity.
Defined.

End PopupProofs.

(** ** The three contexts together *)
Module System.
Import JS Storage DispatchSpec WorkerSpec SystemSpec Dispatch Worker.

Section Proofs.
Variable ToString : json -> string.

(** A failed [getUserMedia] ends the session everywhere: the capture
    context creates no recorder and sends one error; the service worker,
    receiving it, persists idle and sends the error and the stop messages;
    the popup, receiving those, shows that error, is idle and has its
    timer stopped; and the capture context, receiving the stop, closes. *)
Theorem failed_capture_ends_session name d c onLine net s now_iso p :
  no_active_recorder d ->
  Background.runtime_id s = true ->
  let out := Offscreen.startRecording (Offscreen.stream_error name) d in
  let w := Background.onMessage ToString c onLine net
             (Background.recordingError (capture_error name)) s in
  let ps := receive now_iso (sends w.2) (p, Background.storage w.1.2) in
  out = (d, [Offscreen.recordingError (capture_error name)]) /\
  map to_worker out.2 = [Background.recordingError (capture_error name)] /\
  sends w.2 = [Background.error (capture_error name); Background.stopOffscreenRecording;
               Background.recordingStopped] /\
  Background.storage w.1.2 !! "recordingState" = Some (VString "idle") /\
  Popup.recordingState ps.1 = Popup.idle /\ Popup.timerOn ps.1 = false /\
  Popup.errorMessage ps.1 = Some (capture_error name) /\
  forall conv,
    Offscreen.closed
      (Offscreen.step conv d (Offscreen.Message Offscreen.stopOffscreenRecording)).1 = true.
Proof.
  intros Hidle Hid out w ps. subst out w ps.
  assert (Hout : Offscreen.startRecording (Offscreen.stream_error name) d =
                 (d, [Offscreen.recordingError (capture_error name)])).
  { unfold Offscreen.startRecording, no_active_recorder in *.
    destruct (Offscreen.mediaRecorder d) as [r|]; [|done]. by rewrite Hidle. }
  rewrite Hout. split; [done|]. split; [done|].
  unfold Background.onMessage, Background.bind, Background.ret. cbn [fst snd].
  rewrite handleError_run. cbn [fst snd]. rewrite app_nil_r.
  unfold failure_report, stopped. rewrite Hid.
  cbn [Background.storage Background.set_storage Background.set_capturedTabId].
  split; [done|]. split; [by rewrite lookup_insert_eq|].
  assert (Hne : String.eqb (capture_error name) "" = false).
  { unfold capture_error. by destruct (String.eqb name "NotAllowedError"). }
  cbn. rewrite Hne. cbn. split; [done|]. split; [done|]. split; [done|].
  intros conv. unfold Offscreen.step. destruct (Offscreen.closed d) eqn:Hc; [done|].
  cbn. unfold Offscreen.stopRecording. by destruct (Offscreen.recorder_stop conv _).
Qed.

(** A chunk sent by the capture context and handled by the service worker
    while online, when Gemini's first answer has the text [t], ends up as
    the last transcript entry of the popup, with that text and the
    worker's audio source, and is persisted; the worker's session is left
    as it was. *)
Theorem chunk_reaches_transcript audioChunk t c s now_iso p :
  t <> "" ->
  Background.runtime_id s = true ->
  let w := Background.onMessage ToString c true (answering_with t)
             (to_worker (Offscreen.processAudioChunk audioChunk)) s in
  let ps := receive now_iso (sends w.2) (p, Background.storage w.1.2) in
  w.1.2 = s /\
  sends w.2 = [Background.statusUpdate "Transcribing...";
               Background.updateTranscript (JString t) (Background.audioSource s);
               Background.statusUpdate "Recording"] /\
  Popup.fullTranscript ps.1 =
    Popup.fullTranscript p ++
    [{| timestamp := now_iso; text := JString t; source := Background.audioSource s |}] /\
  ps.2 !! "transcript" = Some (VTranscript (Popup.fullTranscript ps.1)) /\
  Popup.recordingState ps.1 = Popup.recordingState p /\
  Popup.secondsElapsed ps.1 = Popup.secondsElapsed p.
Proof.
  intros Ht Hid w ps. subst w ps.
  unfold Background.onMessage, to_worker, Background.bind, Background.ret.
  cbn [fst snd]. unfold Background.handleAudioChunk. cbn [negb].
  unfold Background.bind, Background.ret. rewrite updateStatus_run. cbn [fst snd].
  pose proof (transcribe_cases ToString (answering_with t) audioChunk s) as Hc.
  assert (Hy : yields (gemini ToString (answering_with t)) audioChunk (Background.apiKey s)
               = Some (JString t)).
  { unfold yields, gemini. cbn [Background.invoke].
    rewrite (gemini_first_answer ToString (answering_with t) audioChunk _
               (JObject [("candidates",
                  JArray [JObject [("content",
                    JObject [("parts", JArray [JObject [("text", JString t)]])])]])]))
      by reflexivity.
    cbn [fst]. cbn. destruct (String.eqb t "") eqn:He; [|done].
    by apply String.eqb_eq in He. }
  rewrite Hy in Hc. rewrite Hc. cbn [fst snd]. split; [done|].
  unfold call_log, gemini, delivery, status. cbn [Background.name Background.invoke].
  rewrite (gemini_first_answer ToString (answering_with t) audioChunk _
             (JObject [("candidates",
                JArray [JObject [("content",
                  JObject [("parts", JArray [JObject [("text", JString t)]])])]])]))
    by reflexivity.
  rewrite Hid. cbn. split; [done|]. split; [done|]. split; [|done].
  by rewrite lookup_insert_eq.
Qed.

End Proofs.

Lemma failed_capture_ends_session_witness :
  no_active_recorder Offscreen.initial /\ Background.runtime_id worker0 = true /\
  Popup.errorMessage
    (receive "2025-01-01T00:00:03.000Z"
       (sends (Background.onMessage ToString0 (SessionSpec.chrome_at 5000) true unreachable
                 (Background.recordingError (capture_error "NotAllowedError")) worker0).2)
       (PopupSpec.recording42,
        Background.storage
          (Background.onMessage ToString0 (SessionSpec.chrome_at 5000) true unreachable
             (Background.recordingError (capture_error "NotAllowedError")) worker0).1.2)).1
  = Some "Microphone permission was denied. Please allow it in your browser settings and try again.".
Proof.
  assert (H1 : no_active_recorder Offscreen.initial) by exact I.
  assert (H2 : Background.runtime_id worker0 = true) by reflexivity.
  split; [exact H1|]. split; [exact H2|].
  destruct (failed_capture_ends_session ToString0 "NotAllowedError" Offscreen.initial
              (SessionSpec.chrome_at 5000) true unreachable worker0
              "2025-01-01T00:00:03.000Z" PopupSpec.recording42 H1 H2)
    as (_ & _ & _ & _ & _ & _ & H & _).
  exact H.
Defined.

Lemma chunk_reaches_transcript_witness :
  "hello" <> "" /\ Background.runtime_id worker0 = true /\
  Popup.fullTranscript
    (receive "2025-01-01T00:00:03.000Z"
       (sends (Background.onMessage ToString0 (SessionSpec.chrome_at 5000) true
                 (answering_with "hello")
                 (to_worker (Offscreen.processAudioChunk chunk0)) worker0).2)
       (PopupSpec.recording42,
        Background.storage
          (Background.onMessage ToString0 (SessionSpec.chrome_at 5000) true
             (answering_with "hello")
             (to_worker (Offscreen.processAudioChunk chunk0)) worker0).1.2)).1
  = [SessionSpec.entry0;
     {| timestamp := "2025-01-01T00:00:03.000Z"; text := JString "hello"; source := "tab" |}].
Proof.
  assert (H1 : "hello" <> "") by discriminate.
  assert (H2 : Background.runtime_id worker0 = true) by reflexivity.
  split; [exact H1|]. split; [exact H2|].
  destruct (chunk_reaches_transcript ToString0 chunk0 "hello" (SessionSpec.chrome_at 5000)
              worker0 "2025-01-01T00:00:03.000Z" PopupSpec.recording42 H1 H2)
    as (_ & _ & H & _).
  exact H.
Defined.

End System.
